(** * Link tracker: persistence layer, geolocation resolver, client metadata
      extractor, tracking handler and analytics aggregator.

    Shallow embedding of [lib/database.ts], [lib/tracking.ts] and the route
    handlers under [app/api] and [app/track].  Stateful code runs in a small
    state-and-exception monad over a [World] that holds the SQLite database,
    the outbound-call log and the oracles of the environment (clock, random
    bytes, network answers, persistence faults). *)

From Stdlib Require Import String Ascii List ZArith NArith Bool Arith Lia.
From Stdlib Require Import Permutation Sorted.
Import ListNotations.
Open Scope string_scope.
Set Warnings "-register-all".

(** ** Strings

    A JavaScript string is a sequence of code units; header values and the
    literals of the program stay within one byte per unit, which is what
    [ascii] holds. *)

Definition chars (s : string) : list ascii := list_ascii_of_string s.

Definition startsWith (s p : string) : bool := String.prefix p s.

(** [s.split(sep)[0]]: the text before the first separator, the whole string
    when there is none. *)
Fixpoint split_head (sep : ascii) (s : string) : string :=
  match s with
  | EmptyString => EmptyString
  | String c r => if Ascii.eqb c sep then EmptyString else String c (split_head sep r)
  end.

(** White space of [String.prototype.trim] among one-byte code units: TAB, LF,
    VT, FF, CR, SPACE and NBSP. *)
Definition is_space (c : ascii) : bool :=
  let n := nat_of_ascii c in
  (((9 <=? n) && (n <=? 13)) || (n =? 32) || (n =? 160))%nat.

Fixpoint trim_start (s : string) : string :=
  match s with
  | EmptyString => EmptyString
  | String c r => if is_space c then trim_start r else s
  end.

Fixpoint trim_end (s : string) : string :=
  match s with
  | EmptyString => EmptyString
  | String c r =>
      match trim_end r with
      | EmptyString => if is_space c then EmptyString else String c EmptyString
      | r' => String c r'
      end
  end.

Definition trim (s : string) : string := trim_end (trim_start s).

Definition nonempty (s : string) : bool :=
  match s with EmptyString => false | String _ _ => true end.

(** ** Regular expressions

    The two patterns of [isValidIP] are kept as data and run by a derivative
    matcher; [^] and [$] anchor the whole input, so [test] is a full match. *)

Inductive regex : Type :=
| REmpty                                   (* matches nothing *)
| REps                                     (* matches the empty string *)
| RClass (p : ascii -> bool)               (* one character of a class *)
| RSeq (r1 r2 : regex)
| RAlt (r1 r2 : regex).

Fixpoint nullable (r : regex) : bool :=
  match r with
  | REmpty => false
  | REps => true
  | RClass _ => false
  | RSeq r1 r2 => nullable r1 && nullable r2
  | RAlt r1 r2 => nullable r1 || nullable r2
  end.

Fixpoint deriv (c : ascii) (r : regex) : regex :=
  match r with
  | REmpty => REmpty
  | REps => REmpty
  | RClass p => if p c then REps else REmpty
  | RSeq r1 r2 =>
      if nullable r1
      then RAlt (RSeq (deriv c r1) r2) (deriv c r2)
      else RSeq (deriv c r1) r2
  | RAlt r1 r2 => RAlt (deriv c r1) (deriv c r2)
  end.

Fixpoint regex_match (r : regex) (s : list ascii) : bool :=
  match s with
  | [] => nullable r
  | c :: s' => regex_match (deriv c r) s'
  end.

Definition regex_test (r : regex) (s : string) : bool := regex_match r (chars s).

(** [r{n}] *)
Fixpoint RRepeat (n : nat) (r : regex) : regex :=
  match n with
  | O => REps
  | S n' => RSeq r (RRepeat n' r)
  end.

(** [r{0,n}] *)
Fixpoint RUpTo (n : nat) (r : regex) : regex :=
  match n with
  | O => REps
  | S n' => RAlt REps (RSeq r (RUpTo n' r))
  end.

(** [r{lo,lo+extra}] *)
Definition RBetween (lo extra : nat) (r : regex) : regex :=
  RSeq (RRepeat lo r) (RUpTo extra r).

Definition is_digit (c : ascii) : bool :=
  let n := nat_of_ascii c in ((48 <=? n) && (n <=? 57))%nat.

Definition is_hex (c : ascii) : bool :=
  let n := nat_of_ascii c in
  (((48 <=? n) && (n <=? 57)) || ((97 <=? n) && (n <=? 102))
   || ((65 <=? n) && (n <=? 70)))%nat.

Definition RChar (c : ascii) : regex := RClass (Ascii.eqb c).

(** [/^(\d{1,3}\.){3}\d{1,3}$/] *)
Definition ipv4Regex : regex :=
  RSeq (RRepeat 3 (RSeq (RBetween 1 2 (RClass is_digit)) (RChar ".")))
       (RBetween 1 2 (RClass is_digit)).

(** [/^([0-9a-fA-F]{1,4}:){7}[0-9a-fA-F]{1,4}$/] *)
Definition ipv6Regex : regex :=
  RSeq (RRepeat 7 (RSeq (RBetween 1 3 (RClass is_hex)) (RChar ":")))
       (RBetween 1 3 (RClass is_hex)).

Definition isValidIP (ip : string) : bool :=
  regex_test ipv4Regex ip || regex_test ipv6Regex ip.

(** ** Request headers

    A [Headers] object is held as its normalised entries: lower-case names, one
    entry per name. *)

Definition Headers := list (string * string).

Fixpoint headers_get (h : Headers) (name : string) : option string :=
  match h with
  | [] => None
  | (k, v) :: rest => if String.eqb k name then Some v else headers_get rest name
  end.

Definition possibleHeaders : list string :=
  [ "x-forwarded-for";
    "x-real-ip";
    "x-client-ip";
    "cf-connecting-ip";
    "true-client-ip";
    "x-cluster-client-ip" ].

(** What one header contributes: the trimmed first comma-separated token of a
    present, non-empty value. *)
Definition header_candidate (h : Headers) (name : string) : option string :=
  match headers_get h name with
  | Some value => if nonempty value then Some (trim (split_head "," value)) else None
  | None => None
  end.

(** The [for ... of] loop of [getClientIP], with its early [return]. *)
Fixpoint getClientIP_loop (h : Headers) (names : list string) : option string :=
  match names with
  | [] => None
  | header :: rest =>
      match headers_get h header with
      | Some value =>
          if nonempty value then
            let ip := trim (split_head "," value) in
            if isValidIP ip then Some ip else getClientIP_loop h rest
          else getClientIP_loop h rest
      | None => getClientIP_loop h rest
      end
  end.

Definition getClientIP (h : Headers) : option string :=
  getClientIP_loop h possibleHeaders.

(** ** JavaScript values

    What [response.json()] and [request.json()] hand to the program.  TypeScript
    types are erased at run time, so a field read from such a payload may hold
    any of these. *)

(** An IEEE-754 double, [(-1)^negative * mantissa * 2^exponent] with the
    mantissa odd or zero; the program stores such values and tests them for
    truthiness, it does no arithmetic on them. *)
Inductive number : Type :=
| NaN
| Infinity (negative : bool)
| Finite (negative : bool) (mantissa : N) (exponent : Z).

Inductive JsValue : Type :=
| JUndefined
| JNull
| JBool (b : bool)
| JNum (n : number)
| JStr (s : string)
| JArr (items : list JsValue)
| JObj (fields : list (string * JsValue)).

Definition number_truthy (n : number) : bool :=
  match n with
  | NaN => false
  | Infinity _ => true
  | Finite _ m _ => negb (N.eqb m 0)
  end.

Definition truthy (v : JsValue) : bool :=
  match v with
  | JUndefined | JNull => false
  | JBool b => b
  | JNum n => number_truthy n
  | JStr s => nonempty s
  | JArr _ | JObj _ => true
  end.

(** [a || b] *)
Definition js_or (a b : JsValue) : JsValue := if truthy a then a else b.

Fixpoint assoc_get {A : Type} (fields : list (string * A)) (key : string) : option A :=
  match fields with
  | [] => None
  | (k, v) :: rest => if String.eqb k key then Some v else assoc_get rest key
  end.

(** Exceptions of the run time and of the libraries the program calls. *)
Inductive Exn : Type :=
| TypeError (message : string)
| RangeError (message : string)
| SyntaxError (message : string)
| NetworkError (message : string)
| JsError (message : JsValue)
| SqliteError (code : string)
| ZodError (issues : list (list string * string)).

Inductive result (A : Type) : Type :=
| Ok (a : A)
| Throw (e : Exn).
Arguments Ok {A} a.
Arguments Throw {A} e.

(** [v.key] for the keys the program reads (none of them is a property of a
    primitive or of an array): a [TypeError] on [null] and [undefined], the
    field of an object, [undefined] elsewhere. *)
Definition js_prop (v : JsValue) (key : string) : result JsValue :=
  match v with
  | JUndefined | JNull => Throw (TypeError "Cannot read properties of null or undefined")
  | JObj fields =>
      match assoc_get fields key with
      | Some x => Ok x
      | None => Ok JUndefined
      end
  | _ => Ok JUndefined
  end.

(** ** URLs

    A parsed URL record of the platform's [URL] class and its serialiser.  The
    parser itself belongs to the platform and is a field of [Platform]. *)
Module URL.
Record t : Type := mk {
  scheme : string;
  host : option string;          (* with user info and port, when present *)
  path : string;
  query : option string;
  fragment : option string
}.
End URL.

(** [url.search = ''] *)
Definition URL_clear_search (u : URL.t) : URL.t :=
  URL.mk (URL.scheme u) (URL.host u) (URL.path u) None (URL.fragment u).

(** [url.toString()], the URL serialiser. *)
Definition URL_toString (u : URL.t) : string :=
  URL.scheme u ++ ":"
  ++ match URL.host u with Some h => "//" ++ h | None => "" end
  ++ URL.path u
  ++ match URL.query u with Some q => "?" ++ q | None => "" end
  ++ match URL.fragment u with Some f => "#" ++ f | None => "" end.

(** The pure services the program relies on and does not define.  Of the
    platform: [new URL(s)] ([None] when it throws) and [parseFloat], which
    converts its argument to a string first and so throws where that
    conversion does.  Of the database engine: the two conversions of column
    affinity, the text of a number and the number a text spells ([None] when
    it is not a numeric literal). *)
Record Platform : Type := {
  URL_parse : string -> option URL.t;
  parseFloat : JsValue -> result number;
  real_to_text : number -> string;
  text_to_real : string -> option number
}.

(** [sanitizeReferer] *)
Definition sanitizeReferer (P : Platform) (referer : option string) : option string :=
  match referer with
  | None => None
  | Some r =>
      if negb (nonempty r) then None
      else
        match URL_parse P r with
        | Some url => Some (URL_toString (URL_clear_search url))
        | None => None
        end
  end.

(** ** Data model ([lib/database.ts])

    [created_at] and [clicked_at] hold SQLite's [datetime('now')] text, whose
    order is the order of the instants; they are kept as seconds since the
    epoch. *)

Module Link.
Record t : Type := mk {
  id : string;
  name : string;
  original_url : string;
  short_code : string;
  created_at : Z;
  click_count : Z
}.
End Link.

(** A value as SQLite stores it. *)
Inductive SqlValue : Type :=
| SNull
| SReal (n : number)
| SText (s : string).

Module Click.
Record t : Type := mk {
  id : Z;
  link_id : string;
  ip_address : option string;
  country : SqlValue;
  city : SqlValue;
  region : SqlValue;
  latitude : SqlValue;
  longitude : SqlValue;
  user_agent : option string;
  referer : option string;
  clicked_at : Z
}.
End Click.

Module LocationData.
Record t : Type := mk {
  country : JsValue;
  city : JsValue;
  region : JsValue;
  latitude : JsValue;
  longitude : JsValue
}.
End LocationData.

(** The two tables, the [AUTOINCREMENT] sequence of [clicks] and the
    [foreign_keys] pragma of the connection. *)
Record Database : Type := mkDatabase {
  links : list Link.t;
  clicks : list Click.t;
  clicks_seq : Z;
  foreign_keys : bool
}.

Definition has_link_id (i : string) (l : Link.t) : bool := String.eqb (Link.id l) i.
Definition has_short_code (c : string) (l : Link.t) : bool := String.eqb (Link.short_code l) c.
Definition of_link (i : string) (c : Click.t) : bool := String.eqb (Click.link_id c) i.

(** [ORDER BY], as an insertion sort.  SQL leaves the order of rows with
    equal keys to the engine; this sort keeps them in table order, and the
    properties of the listings hold for any order of equal keys: they speak of
    a sorted permutation. *)
Fixpoint insert_by {A : Type} (before : A -> A -> bool) (x : A) (l : list A) : list A :=
  match l with
  | [] => [x]
  | y :: r => if before x y then x :: y :: r else y :: insert_by before x r
  end.

Fixpoint sort_by {A : Type} (before : A -> A -> bool) (l : list A) : list A :=
  match l with
  | [] => []
  | x :: r => insert_by before x (sort_by before r)
  end.

(** *** Binding the arguments of [run]

    better-sqlite3 binds the arguments of [stmt.run(...)] from left to right
    to the anonymous parameters of the statement.  An argument that is an
    array is spread: each of its items takes the next parameter.  A plain
    object holds named parameters, of which the statements here have none: it
    takes no parameter, and a second one is refused.  Any other argument takes
    the next parameter. *)

(** One value: numbers, strings, [null] and [undefined] are bound, the rest is
    refused; SQLite stores a [NaN] as [NULL]. *)
Definition bind_value (v : JsValue) : result SqlValue :=
  match v with
  | JUndefined | JNull => Ok SNull
  | JNum NaN => Ok SNull
  | JNum n => Ok (SReal n)
  | JStr s => Ok (SText s)
  | _ => Throw (TypeError "SQLite3 can only bind numbers, strings, bigints, buffers, and null")
  end.

(** The value takes the next of the [params] parameters, if one is left. *)
Definition bind_next (params : nat) (v : JsValue) (bound : list SqlValue)
    : result (list SqlValue) :=
  match bind_value v with
  | Throw e => Throw e
  | Ok x =>
      if (length bound <? params)%nat then Ok (bound ++ [x])%list
      else Throw (RangeError "Too many parameter values were provided")
  end.

Fixpoint bind_array (params : nat) (items : list JsValue) (bound : list SqlValue)
    : result (list SqlValue) :=
  match items with
  | [] => Ok bound
  | v :: rest =>
      match bind_next params v bound with
      | Ok bound' => bind_array params rest bound'
      | Throw e => Throw e
      end
  end.

(** The loop over the arguments; [named] tells whether an object was seen. *)
Fixpoint bind_each (params : nat) (args : list JsValue) (named : bool)
    (bound : list SqlValue) : result (bool * list SqlValue) :=
  match args with
  | [] => Ok (named, bound)
  | JArr items :: rest =>
      match bind_array params items bound with
      | Ok bound' => bind_each params rest named bound'
      | Throw e => Throw e
      end
  | JObj _ :: rest =>
      if named
      then Throw (TypeError "You cannot specify named parameters in two different objects")
      else bind_each params rest true bound
  | v :: rest =>
      match bind_next params v bound with
      | Ok bound' => bind_each params rest named bound'
      | Throw e => Throw e
      end
  end.

(** The values bound to the [params] parameters of a statement: after the
    loop, every parameter must have its value. *)
Definition bind_arguments (params : nat) (args : list JsValue) : result (list SqlValue) :=
  match bind_each params args false [] with
  | Ok (_, bound) =>
      if (length bound <? params)%nat
      then Throw (RangeError "Too few parameter values were provided")
      else Ok bound
  | Throw e => Throw e
  end.

(** A string that may be [null], as an argument. *)
Definition js_of_string (s : option string) : JsValue :=
  match s with
  | Some x => JStr x
  | None => JNull
  end.

(** A string that may be [null], as SQLite stores it. *)
Definition sql_of_string (s : option string) : SqlValue :=
  match s with
  | Some x => SText x
  | None => SNull
  end.

(** *** Column affinity

    What a column of each declared type stores of a value handed to it. *)

(** A [TEXT] column: a number is stored as its text. *)
Definition text_affinity (P : Platform) (v : SqlValue) : SqlValue :=
  match v with
  | SReal n => SText (real_to_text P n)
  | _ => v
  end.

(** A [REAL] column: a text that spells a number is stored as that number. *)
Definition real_affinity (P : Platform) (v : SqlValue) : SqlValue :=
  match v with
  | SText s =>
      match text_to_real P s with
      | Some n => SReal n
      | None => SText s
      end
  | _ => v
  end.

(** A [TEXT] column read as a string that may be [null]. *)
Definition text_column (P : Platform) (v : SqlValue) : option string :=
  match text_affinity P v with
  | SText s => Some s
  | _ => None
  end.

(** *** The statements, as functions of the database

    Each takes the instant [now] that [datetime('now')] reads where the
    statement has one. *)

(** [INSERT INTO links (...) VALUES (?, ?, ?, ?, datetime('now'), 0)] under
    [id TEXT PRIMARY KEY] and [short_code TEXT UNIQUE]. *)
Definition sql_insert_link (id name originalUrl shortCode : string) (now : Z)
    (d : Database) : result unit * Database :=
  if existsb (has_link_id id) (links d)
  then (Throw (SqliteError "SQLITE_CONSTRAINT_PRIMARYKEY"), d)
  else if existsb (has_short_code shortCode) (links d)
  then (Throw (SqliteError "SQLITE_CONSTRAINT_UNIQUE"), d)
  else (Ok tt,
        mkDatabase (links d ++ [Link.mk id name originalUrl shortCode now 0])
                   (clicks d) (clicks_seq d) (foreign_keys d)).

(** [SELECT * FROM links WHERE id = ?], first row *)
Definition sql_link_by_id (id : string) (d : Database) : option Link.t :=
  find (has_link_id id) (links d).

(** [SELECT * FROM links WHERE short_code = ?], first row *)
Definition sql_link_by_short_code (shortCode : string) (d : Database) : option Link.t :=
  find (has_short_code shortCode) (links d).

(** [SELECT * FROM links ORDER BY created_at DESC] *)
Definition sql_all_links (d : Database) : list Link.t :=
  sort_by (fun a b => Z.leb (Link.created_at b) (Link.created_at a)) (links d).

Definition bump (l : Link.t) : Link.t :=
  Link.mk (Link.id l) (Link.name l) (Link.original_url l) (Link.short_code l)
          (Link.created_at l) (Link.click_count l + 1).

Definition bump_if (linkId : string) (l : Link.t) : Link.t :=
  if has_link_id linkId l then bump l else l.

(** [UPDATE links SET click_count = click_count + 1 WHERE id = ?] *)
Definition sql_bump_click_count (linkId : string) (d : Database) : Database :=
  mkDatabase (map (bump_if linkId) (links d))
             (clicks d) (clicks_seq d) (foreign_keys d).

(** [DELETE FROM clicks WHERE link_id = ?] *)
Definition sql_delete_clicks (id : string) (d : Database) : Database :=
  mkDatabase (links d) (filter (fun c => negb (of_link id c)) (clicks d))
             (clicks_seq d) (foreign_keys d).

(** [DELETE FROM links WHERE id = ?], with the number of rows it removed; under
    [foreign_keys] a link that clicks still refer to cannot go. *)
Definition sql_delete_link (id : string) (d : Database) : result nat * Database :=
  if foreign_keys d && existsb (has_link_id id) (links d) && existsb (of_link id) (clicks d)
  then (Throw (SqliteError "SQLITE_CONSTRAINT_FOREIGNKEY"), d)
  else (Ok (length (filter (has_link_id id) (links d))),
        mkDatabase (filter (fun l => negb (has_link_id id l)) (links d))
                   (clicks d) (clicks_seq d) (foreign_keys d)).

(** [INSERT INTO clicks (link_id, ip_address, country, city, region,
    latitude, longitude, user_agent, referer, clicked_at)
    VALUES (?, ?, ?, ?, ?, ?, ?, ?, ?, datetime('now'))] with the values bound
    to its nine parameters.  Each column stores its value under its affinity;
    [link_id] is [NOT NULL]; the row takes the next value of the sequence, and
    under [foreign_keys] its link must exist. *)
Definition sql_insert_click (P : Platform) (bound : list SqlValue) (now : Z)
    (d : Database) : result unit * Database :=
  let param := fun i => nth i bound SNull in
  match text_column P (param 0%nat) with
  | None => (Throw (SqliteError "SQLITE_CONSTRAINT_NOTNULL"), d)
  | Some linkId =>
      if foreign_keys d && negb (existsb (has_link_id linkId) (links d))
      then (Throw (SqliteError "SQLITE_CONSTRAINT_FOREIGNKEY"), d)
      else
        let rowid := (clicks_seq d + 1)%Z in
        (Ok tt,
         mkDatabase (links d)
                    (clicks d ++ [Click.mk rowid linkId
                                            (text_column P (param 1%nat))
                                            (text_affinity P (param 2%nat))
                                            (text_affinity P (param 3%nat))
                                            (text_affinity P (param 4%nat))
                                            (real_affinity P (param 5%nat))
                                            (real_affinity P (param 6%nat))
                                            (text_column P (param 7%nat))
                                            (text_column P (param 8%nat))
                                            now])
                    rowid (foreign_keys d))
  end.

Definition newest_first (a b : Click.t) : bool :=
  Z.leb (Click.clicked_at b) (Click.clicked_at a).

(** [SELECT * FROM clicks WHERE link_id = ? ORDER BY clicked_at DESC] *)
Definition sql_clicks_by_link (linkId : string) (d : Database) : list Click.t :=
  sort_by newest_first (filter (of_link linkId) (clicks d)).

(** [SELECT * FROM clicks ORDER BY clicked_at DESC] *)
Definition sql_all_clicks (d : Database) : list Click.t :=
  sort_by newest_first (clicks d).

(** *** Aggregation *)

Definition number_eqb (a b : number) : bool :=
  match a, b with
  | NaN, NaN => true
  | Infinity s, Infinity s' => Bool.eqb s s'
  | Finite s m e, Finite s' m' e' => Bool.eqb s s' && N.eqb m m' && Z.eqb e e'
  | _, _ => false
  end.

Definition SqlValue_eqb (a b : SqlValue) : bool :=
  match a, b with
  | SNull, SNull => true
  | SReal x, SReal y => number_eqb x y
  | SText x, SText y => String.eqb x y
  | _, _ => false
  end.

Definition is_null (v : SqlValue) : bool :=
  match v with SNull => true | _ => false end.

(** [GROUP BY key] with [COUNT( * )]: one row per key, in order of first
    appearance. *)
Fixpoint count_into {K : Type} (eqb : K -> K -> bool) (k : K) (groups : list (K * nat))
    : list (K * nat) :=
  match groups with
  | [] => [(k, 1%nat)]
  | (k', n) :: rest =>
      if eqb k' k then (k', S n) :: rest else (k', n) :: count_into eqb k rest
  end.

Definition group_count {K : Type} (eqb : K -> K -> bool) (keys : list K) : list (K * nat) :=
  fold_left (fun groups k => count_into eqb k groups) keys [].

Definition most_first {K : Type} (a b : K * nat) : bool := Nat.leb (snd b) (snd a).

(** [SELECT country, COUNT( * ) ... WHERE link_id = ? AND country IS NOT NULL
    GROUP BY country ORDER BY count DESC] *)
Definition sql_country_stats (linkId : string) (d : Database) : list (SqlValue * nat) :=
  sort_by most_first
    (group_count SqlValue_eqb
       (map Click.country
          (filter (fun c => of_link linkId c && negb (is_null (Click.country c))) (clicks d)))).

Definition city_key_eqb (a b : SqlValue * SqlValue) : bool :=
  SqlValue_eqb (fst a) (fst b) && SqlValue_eqb (snd a) (snd b).

(** [SELECT city, country, COUNT( * ) ... WHERE link_id = ? AND city IS NOT NULL
    GROUP BY city, country ORDER BY count DESC LIMIT 10] *)
Definition sql_city_stats (linkId : string) (d : Database)
    : list ((SqlValue * SqlValue) * nat) :=
  firstn 10
    (sort_by most_first
       (group_count city_key_eqb
          (map (fun c => (Click.city c, Click.country c))
             (filter (fun c => of_link linkId c && negb (is_null (Click.city c))) (clicks d))))).

Definition seconds_per_day : Z := 86400.

(** [DATE(clicked_at)] as a day number *)
Definition DATE (t : Z) : Z := (t / seconds_per_day)%Z.

(** [clicked_at >= datetime('now', '-n days')] *)
Definition within_days (n : Z) (now : Z) (c : Click.t) : bool :=
  Z.leb (now - n * seconds_per_day) (Click.clicked_at c).

(** [SELECT DATE(clicked_at) as date, COUNT( * ) ... WHERE link_id = ? AND
    clicked_at >= datetime('now', '-30 days') GROUP BY DATE(clicked_at)
    ORDER BY date] *)
Definition sql_daily_stats (linkId : string) (now : Z) (d : Database) : list (Z * nat) :=
  sort_by (fun a b => Z.leb (fst a) (fst b))
    (group_count Z.eqb
       (map (fun c => DATE (Click.clicked_at c))
          (filter (fun c => of_link linkId c && within_days 30 now c) (clicks d)))).

(** [SELECT c.*, l.name as link_name, l.short_code FROM clicks c JOIN links l
    ON c.link_id = l.id ORDER BY c.clicked_at DESC LIMIT 10] *)
Definition sql_recent_clicks (d : Database) : list (Click.t * string * string) :=
  firstn 10
    (sort_by (fun a b => newest_first (fst (fst a)) (fst (fst b)))
       (flat_map
          (fun c =>
             map (fun l => (c, Link.name l, Link.short_code l))
                 (filter (has_link_id (Click.link_id c)) (links d)))
          (clicks d))).

(** A row of [topLinks]: [l.*] and [recent_clicks]. *)
Module TopLink.
Record t : Type := mk {
  link : Link.t;
  recent_clicks : nat
}.
End TopLink.

(** [COUNT(c.id)] over the clicks joined to [l]: those of the link within the
    trailing seven days. *)
Definition recent_clicks_of (now : Z) (d : Database) (l : Link.t) : nat :=
  length (filter (fun c => of_link (Link.id l) c && within_days 7 now c) (clicks d)).

(** [ORDER BY recent_clicks DESC, l.click_count DESC] *)
Definition top_before (a b : TopLink.t) : bool :=
  (TopLink.recent_clicks b <? TopLink.recent_clicks a)%nat
  || ((TopLink.recent_clicks a =? TopLink.recent_clicks b)%nat
      && Z.leb (Link.click_count (TopLink.link b)) (Link.click_count (TopLink.link a))).

(** The rows of [FROM links l LEFT JOIN clicks c ON ... GROUP BY l.id]: [id] is
    the primary key, so every group is one link row. *)
Definition top_rows (now : Z) (d : Database) : list TopLink.t :=
  map (fun l => TopLink.mk l (recent_clicks_of now d l)) (links d).

(** [SELECT l.*, COUNT(c.id) as recent_clicks FROM links l LEFT JOIN clicks c
    ON l.id = c.link_id AND c.clicked_at >= datetime('now', '-7 days')
    GROUP BY l.id ORDER BY recent_clicks DESC, l.click_count DESC LIMIT 5] *)
Definition sql_top_links (now : Z) (d : Database) : list TopLink.t :=
  firstn 5 (sort_by top_before (top_rows now d)).

(** ** The world and the monad of effects

    One request runs at a time: the world holds the database and what the
    environment will answer, and a handler is a function of it. *)

(** What [fetch] resolves to: a rejected promise, or a response with its [ok]
    flag and the value [json()] yields ([None] when it rejects). *)
Inductive FetchResult : Type :=
| FetchRejected
| FetchResponse (ok : bool) (body : option JsValue).

Record World : Type := mkWorld {
  db : Database;
  (* the environment's answers *)
  faults : nat -> bool;           (* does the n-th statement fail in the engine? *)
  clock : nat -> Z;               (* the instant the n-th statement runs at *)
  entropy : nat -> N;             (* the random bytes *)
  net : string -> FetchResult;    (* what a URL answers *)
  (* the run so far *)
  statements : nat;               (* statements executed *)
  drawn : nat;                    (* random bytes consumed *)
  fetched : list string;          (* outbound calls, oldest first *)
  console : list (string * Exn)   (* console.warn / console.error *)
}.

Definition M (A : Type) : Type := World -> result A * World.

Definition ret {A : Type} (a : A) : M A := fun w => (Ok a, w).

Definition bind {A B : Type} (m : M A) (k : A -> M B) : M B :=
  fun w =>
    match m w with
    | (Ok a, w') => k a w'
    | (Throw e, w') => (Throw e, w')
    end.

Definition throw {A : Type} (e : Exn) : M A := fun w => (Throw e, w).

(** [try { m } catch (e) { handler e }]: what [m] wrote before it threw stays
    written. *)
Definition try_catch {A : Type} (m : M A) (handler : Exn -> M A) : M A :=
  fun w =>
    match m w with
    | (Ok a, w') => (Ok a, w')
    | (Throw e, w') => handler e w'
    end.

Definition lift {A : Type} (r : result A) : M A := fun w => (r, w).

Notation "x <- m ;; k" := (bind m (fun x => k))
  (at level 61, m at next level, right associativity).
Notation "m ;;; k" := (bind m (fun _ => k))
  (at level 61, right associativity).

(** The world after its next statement left the database as [d]. *)
Definition after_statement (w : World) (d : Database) : World :=
  mkWorld d (faults w) (clock w) (entropy w) (net w)
          (S (statements w)) (drawn w) (fetched w) (console w).

(** One prepared statement run against the connection.  The engine may fail
    it (a locked or corrupt file, a full disk), which leaves the database as it
    was; otherwise it acts on the database at the instant the clock shows. *)
Definition run_statement {A : Type} (q : Z -> Database -> result A * Database) : M A :=
  fun w =>
    if faults w (statements w)
    then (Throw (SqliteError "SQLITE_ERROR"), after_statement w (db w))
    else
      let (r, d) := q (clock w (statements w)) (db w) in
      (r, after_statement w d).

Definition query {A : Type} (q : Database -> A) : Z -> Database -> result A * Database :=
  fun _ d => (Ok (q d), d).

Definition logged (w : World) (label : string) (e : Exn) : World :=
  mkWorld (db w) (faults w) (clock w) (entropy w) (net w)
          (statements w) (drawn w) (fetched w) (console w ++ [(label, e)]).

Definition console_log (label : string) (e : Exn) : M unit :=
  fun w => (Ok tt, logged w label e).

Definition after_fetch (w : World) (url : string) : World :=
  mkWorld (db w) (faults w) (clock w) (entropy w) (net w)
          (statements w) (drawn w) (fetched w ++ [url]) (console w).

(** [fetch(url)]: the call is made, then the promise settles. *)
Definition fetch (url : string) : M (bool * option JsValue) :=
  fun w =>
    match net w url with
    | FetchRejected => (Throw (NetworkError "fetch failed"), after_fetch w url)
    | FetchResponse ok body => (Ok (ok, body), after_fetch w url)
    end.

(** [await response.json()] *)
Definition response_json (response : bool * option JsValue) : M JsValue :=
  match snd response with
  | Some data => ret data
  | None => throw (SyntaxError "Unexpected token in JSON")
  end.

(** *** nanoid *)

Definition urlAlphabet : string :=
  "useandom-26T198340PX75pxJACKVERYMINDBUSHWOLF_GQZbfghjklqvwyzrict".

Definition alphabet_char (byte : N) : ascii :=
  match String.get (N.to_nat (N.land byte 63)) urlAlphabet with
  | Some c => c
  | None => "u"%char
  end.

Fixpoint nanoid_chars (bytes : nat -> N) (from size : nat) : string :=
  match size with
  | O => EmptyString
  | S n => String (alphabet_char (bytes from)) (nanoid_chars bytes (S from) n)
  end.

Definition after_draw (w : World) (size : nat) : World :=
  mkWorld (db w) (faults w) (clock w) (entropy w) (net w)
          (statements w) (drawn w + size) (fetched w) (console w).

(** [nanoid(size)]: one symbol of the alphabet per random byte. *)
Definition nanoid (size : nat) : M string :=
  fun w => (Ok (nanoid_chars (entropy w) (drawn w) size), after_draw w size).

(** ** Persistence layer ([lib/database.ts]) *)

(** [createLink]; [get] yields [undefined] ([None]) when no row matches. *)
Definition createLink (name originalUrl : string) : M (option Link.t) :=
  id <- nanoid 21 ;;
  shortCode <- nanoid 8 ;;
  run_statement (sql_insert_link id name originalUrl shortCode) ;;;
  run_statement (query (sql_link_by_id id)).

Definition getAllLinks : M (list Link.t) :=
  run_statement (query sql_all_links).

Definition getLinkById (id : string) : M (option Link.t) :=
  run_statement (query (sql_link_by_id id)).

Definition getLinkByShortCode (shortCode : string) : M (option Link.t) :=
  run_statement (query (sql_link_by_short_code shortCode)).

Definition updateLinkClickCount (linkId : string) : M unit :=
  run_statement (fun _ d => (Ok tt, sql_bump_click_count linkId d)).

(** [deleteLink]: the clicks of the link first, then the link;
    [result.changes > 0]. *)
Definition deleteLink (id : string) : M bool :=
  run_statement (fun _ d => (Ok tt, sql_delete_clicks id d)) ;;;
  changes <- run_statement (fun _ => sql_delete_link id) ;;
  ret (0 <? changes)%nat.

(** The arguments of [stmt.run] in [recordClick]. *)
Definition click_arguments (linkId : string) (ipAddress : option string)
    (locationData : LocationData.t) (userAgent referer : option string) : list JsValue :=
  [JStr linkId; js_of_string ipAddress;
   LocationData.country locationData; LocationData.city locationData;
   LocationData.region locationData; LocationData.latitude locationData;
   LocationData.longitude locationData;
   js_of_string userAgent; js_of_string referer].

Definition recordClick (P : Platform) (linkId : string) (ipAddress : option string)
    (locationData : LocationData.t) (userAgent referer : option string) : M unit :=
  bound <- lift (bind_arguments 9
                   (click_arguments linkId ipAddress locationData userAgent referer)) ;;
  run_statement (sql_insert_click P bound) ;;;
  updateLinkClickCount linkId.

Definition getClicksByLinkId (linkId : string) : M (list Click.t) :=
  run_statement (query (sql_clicks_by_link linkId)).

Definition getAllClicks : M (list Click.t) :=
  run_statement (query sql_all_clicks).

Module LinkAnalytics.
Record t : Type := mk {
  totalClicks : nat;
  clicks : list Click.t;
  countryStats : list (SqlValue * nat);
  cityStats : list ((SqlValue * SqlValue) * nat);
  dailyStats : list (Z * nat)
}.
End LinkAnalytics.

Definition getLinkAnalytics (linkId : string) : M LinkAnalytics.t :=
  clicks <- getClicksByLinkId linkId ;;
  countryStats <- run_statement (query (sql_country_stats linkId)) ;;
  cityStats <- run_statement (query (sql_city_stats linkId)) ;;
  dailyStats <- run_statement (fun now d => (Ok (sql_daily_stats linkId now d), d)) ;;
  ret (LinkAnalytics.mk (length clicks) clicks countryStats cityStats dailyStats).

Module GlobalAnalytics.
Record t : Type := mk {
  totalLinks : nat;
  totalClicks : nat;
  recentClicks : list (Click.t * string * string);
  topLinks : list TopLink.t
}.
End GlobalAnalytics.

Definition getGlobalAnalytics : M GlobalAnalytics.t :=
  totalLinks <- run_statement (query (fun d => length (links d))) ;;
  totalClicks <- run_statement (query (fun d => length (clicks d))) ;;
  recentClicks <- run_statement (query sql_recent_clicks) ;;
  topLinks <- run_statement (fun now d => (Ok (sql_top_links now d), d)) ;;
  ret (GlobalAnalytics.mk totalLinks totalClicks recentClicks topLinks).

(** ** Geolocation resolver ([lib/tracking.ts]) *)

Definition LocalLocation : LocationData.t :=
  LocationData.mk (JStr "Local") (JStr "Local") (JStr "Local") JNull JNull.

Definition UnknownLocation : LocationData.t :=
  LocationData.mk (JStr "Unknown") (JStr "Unknown") (JStr "Unknown") JNull JNull.

(** The guard of [getLocationFromIP]. *)
Definition isLocalIP (ip : string) : bool :=
  negb (nonempty ip) || String.eqb ip "127.0.0.1" || String.eqb ip "::1"
  || startsWith ip "192.168." || startsWith ip "10." || startsWith ip "172.".

Definition primaryURL (ip : string) : string := "https://ipapi.co/" ++ ip ++ "/json/".

Definition secondaryURL (ip : string) : string :=
  "http://ip-api.com/json/" ++ ip ++ "?fields=status,country,regionName,city,lat,lon".

(** [v ? parseFloat(v) : null] *)
Definition coordinate (P : Platform) (v : JsValue) : result JsValue :=
  if truthy v then
    match parseFloat P v with
    | Ok n => Ok (JNum n)
    | Throw e => Throw e
    end
  else Ok JNull.

(** The first [try] block: [Some] is a [return], [None] falls through. *)
Definition primaryLookup (P : Platform) (ip : string) : M (option LocationData.t) :=
  response <- fetch (primaryURL ip) ;;
  if fst response then
    data <- response_json response ;;
    error <- lift (js_prop data "error") ;;
    if truthy error then
      reason <- lift (js_prop data "reason") ;;
      throw (JsError (js_or reason (JStr "IP lookup failed")))
    else
      country_name <- lift (js_prop data "country_name") ;;
      city <- lift (js_prop data "city") ;;
      region <- lift (js_prop data "region") ;;
      latitude <- lift (js_prop data "latitude") ;;
      latitude <- lift (coordinate P latitude) ;;
      longitude <- lift (js_prop data "longitude") ;;
      longitude <- lift (coordinate P longitude) ;;
      ret (Some (LocationData.mk
                   (js_or country_name JNull)
                   (js_or city JNull)
                   (js_or region JNull)
                   latitude
                   longitude))
  else ret None.

(** [v === s] *)
Definition strict_equals_string (v : JsValue) (s : string) : bool :=
  match v with
  | JStr x => String.eqb x s
  | _ => false
  end.

(** The second [try] block. *)
Definition secondaryLookup (ip : string) : M (option LocationData.t) :=
  response <- fetch (secondaryURL ip) ;;
  if fst response then
    data <- response_json response ;;
    status <- lift (js_prop data "status") ;;
    if strict_equals_string status "success" then
        country <- lift (js_prop data "country") ;;
        city <- lift (js_prop data "city") ;;
        regionName <- lift (js_prop data "regionName") ;;
        lat <- lift (js_prop data "lat") ;;
        lon <- lift (js_prop data "lon") ;;
        ret (Some (LocationData.mk
                     (js_or country JNull)
                     (js_or city JNull)
                     (js_or regionName JNull)
                     (js_or lat JNull)
                     (js_or lon JNull)))
    else ret None
  else ret None.

Definition getLocationFromIP (P : Platform) (ip : string) : M LocationData.t :=
  if isLocalIP ip then ret LocalLocation
  else
    primary <- try_catch (primaryLookup P ip)
                 (fun error => console_log "Primary IP service failed:" error ;;; ret None) ;;
    match primary with
    | Some location => ret location
    | None =>
        secondary <- try_catch (secondaryLookup ip)
                       (fun error => console_log "Fallback IP service failed:" error ;;; ret None) ;;
        match secondary with
        | Some location => ret location
        | None => ret UnknownLocation
        end
    end.

(** ** Client metadata extractor: the user agent ([lib/tracking.ts]) *)

(** [s.includes(sub)] *)
Fixpoint includes (s sub : string) : bool :=
  String.prefix sub s
  || match s with
     | EmptyString => false
     | String _ r => includes r sub
     end.

(** Does the pattern match at the start of the text? *)
Fixpoint match_prefix (r : regex) (s : list ascii) : bool :=
  nullable r
  || match s with
     | [] => false
     | c :: s' => match_prefix (deriv c r) s'
     end.

(** [test] of a pattern without anchors: it matches somewhere in the text. *)
Fixpoint regex_search (r : regex) (s : list ascii) : bool :=
  match_prefix r s
  || match s with
     | [] => false
     | _ :: s' => regex_search r s'
     end.

(** A literal, character by character. *)
Fixpoint RLit (s : string) : regex :=
  match s with
  | EmptyString => REps
  | String c r => RSeq (RChar c) (RLit r)
  end.

(** The letter folding of the [i] flag on one-byte code units whose pattern
    letters are ASCII: [A-Z] onto [a-z]. *)
Definition lower (c : ascii) : ascii :=
  let n := nat_of_ascii c in
  if ((65 <=? n) && (n <=? 90))%nat then ascii_of_nat (n + 32) else c.

Fixpoint toLowerCase (s : string) : string :=
  match s with
  | EmptyString => EmptyString
  | String c r => String (lower c) (toLowerCase r)
  end.

(** A literal under the [i] flag. *)
Fixpoint RLitI (s : string) : regex :=
  match s with
  | EmptyString => REps
  | String c r => RSeq (RClass (fun x => Ascii.eqb (lower x) (lower c))) (RLitI r)
  end.

(** [/Mobile|Android|iPhone|iPad/] *)
Definition mobileRegex : regex :=
  RAlt (RLit "Mobile") (RAlt (RLit "Android") (RAlt (RLit "iPhone") (RLit "iPad"))).

(** [/bot|crawler|spider|crawling/i] *)
Definition botRegex : regex :=
  RAlt (RLitI "bot") (RAlt (RLitI "crawler") (RAlt (RLitI "spider") (RLitI "crawling"))).

Definition extractBrowser (ua : string) : string :=
  if includes ua "Firefox/" then "Firefox"
  else if includes ua "Chrome/" then "Chrome"
  else if includes ua "Safari/" then "Safari"
  else if includes ua "Edge/" then "Edge"
  else if includes ua "Opera/" then "Opera"
  else "Unknown".

Definition extractOS (ua : string) : string :=
  if includes ua "Windows" then "Windows"
  else if includes ua "Mac OS X" then "macOS"
  else if includes ua "Linux" then "Linux"
  else if includes ua "Android" then "Android"
  else if includes ua "iOS" then "iOS"
  else "Unknown".

Definition extractDevice (ua : string) : string :=
  if includes ua "iPhone" then "iPhone"
  else if includes ua "iPad" then "iPad"
  else if includes ua "Android" then "Android Device"
  else if includes ua "Mobile" then "Mobile Device"
  else "Desktop".

Module UserAgent.
Record t : Type := mk {
  raw : string;
  browser : string;
  os : string;
  device : string;
  isMobile : bool;
  isBot : bool
}.
End UserAgent.

Definition parseUserAgent (userAgent : option string) : option UserAgent.t :=
  match userAgent with
  | None => None
  | Some ua =>
      if negb (nonempty ua) then None
      else
        Some (UserAgent.mk ua (extractBrowser ua) (extractOS ua) (extractDevice ua)
                           (regex_search mobileRegex (chars ua))
                           (regex_search botRegex (chars ua)))
  end.

(** ** Route handlers *)

Module Request.
Record t : Type := mk {
  headers : Headers;
  origin : string;                (* request.nextUrl.origin *)
  id_param : option string;       (* searchParams.get('id') *)
  body : option JsValue           (* request.json(); None when it rejects *)
}.
End Request.

Definition ZodIssue : Type := (list string * string)%type.

Inductive Payload : Type :=
| PLinks (data : list Link.t)                          (* {success: true, data} *)
| PCreated (data : Link.t) (trackingUrl : string)      (* {success: true, data, trackingUrl} *)
| PSuccess                                             (* {success: true} *)
| PFailure (error : string)                            (* {success: false, error} *)
| PInvalid (error : string) (details : list ZodIssue)  (* {success: false, error, details} *)
| PError (error : string)                              (* {error} *)
| PGlobalAnalytics (data : GlobalAnalytics.t)
| PLinkAnalytics (link : Link.t) (analytics : LinkAnalytics.t).

Inductive HttpResponse : Type :=
| Json (body : Payload) (status : nat)       (* NextResponse.json(body, {status}) *)
| Redirect (url : string) (status : nat).    (* NextResponse.redirect(url, status) *)

(** [NextResponse.redirect(url, status)] refuses a URL that does not parse. *)
Definition redirect (P : Platform) (url : string) (status : nat) : M HttpResponse :=
  match URL_parse P url with
  | Some _ => ret (Redirect url status)
  | None => throw (TypeError "URL is malformed")
  end.

(** *** [createLinkSchema] *)

Definition zod_type (v : JsValue) : string :=
  match v with
  | JUndefined => "undefined"
  | JNull => "null"
  | JBool _ => "boolean"
  | JNum n => match n with NaN => "nan" | _ => "number" end
  | JStr _ => "string"
  | JArr _ => "array"
  | JObj _ => "object"
  end.

Definition zod_string (path : string) (v : JsValue) (checks : string -> list ZodIssue)
    : list ZodIssue :=
  match v with
  | JStr s => checks s
  | JUndefined => [([path], "Required")]
  | _ => [([path], "Expected string, received " ++ zod_type v)]
  end.

(** [z.string().min(1, 'Name is required').max(100, 'Name too long')] *)
Definition name_issues (v : JsValue) : list ZodIssue :=
  zod_string "name" v (fun s =>
    ((if (String.length s <? 1)%nat then [(["name"], "Name is required")] else [])
     ++ (if (100 <? String.length s)%nat then [(["name"], "Name too long")] else []))%list).

(** [z.string().url('Invalid URL format')] *)
Definition originalUrl_issues (P : Platform) (v : JsValue) : list ZodIssue :=
  zod_string "originalUrl" v (fun s =>
    match URL_parse P s with
    | Some _ => []
    | None => [(["originalUrl"], "Invalid URL format")]
    end).

Definition field (fields : list (string * JsValue)) (key : string) : JsValue :=
  match assoc_get fields key with
  | Some v => v
  | None => JUndefined
  end.

(** [createLinkSchema.parse(body)] *)
Definition createLinkSchema_parse (P : Platform) (body : JsValue) : result (string * string) :=
  match body with
  | JObj fields =>
      match (name_issues (field fields "name")
             ++ originalUrl_issues P (field fields "originalUrl"))%list,
            field fields "name", field fields "originalUrl" with
      | [], JStr name, JStr originalUrl => Ok (name, originalUrl)
      | issues, _, _ => Throw (ZodError issues)
      end
  | _ => Throw (ZodError [([], "Expected object, received " ++ zod_type body)])
  end.

(** *** [app/api/links/route.ts] *)

Definition links_GET : M HttpResponse :=
  try_catch
    (links <- getAllLinks ;;
     ret (Json (PLinks links) 200))
    (fun error =>
       console_log "Error fetching links:" error ;;;
       ret (Json (PFailure "Failed to fetch links") 500)).

Definition links_POST (P : Platform) (request : Request.t) : M HttpResponse :=
  try_catch
    (body <- match Request.body request with
             | Some b => ret b
             | None => throw (SyntaxError "Unexpected end of JSON input")
             end ;;
     validatedData <- lift (createLinkSchema_parse P body) ;;
     link <- createLink (fst validatedData) (snd validatedData) ;;
     match link with
     | Some link =>
         ret (Json (PCreated link (Request.origin request ++ "/track/" ++ Link.short_code link))
                   201)
     | None => throw (TypeError "Cannot read properties of undefined")
     end)
    (fun error =>
       match error with
       | ZodError issues => ret (Json (PInvalid "Invalid input" issues) 400)
       | _ =>
           console_log "Error creating link:" error ;;;
           ret (Json (PFailure "Failed to create link") 500)
       end).

Definition links_DELETE (request : Request.t) : M HttpResponse :=
  try_catch
    (match Request.id_param request with
     | Some linkId =>
         if nonempty linkId then
           success <- deleteLink linkId ;;
           if negb success
           then ret (Json (PFailure "Link not found") 404)
           else ret (Json PSuccess 200)
         else ret (Json (PFailure "Link ID is required") 400)
     | None => ret (Json (PFailure "Link ID is required") 400)
     end)
    (fun error =>
       console_log "Error deleting link:" error ;;;
       ret (Json (PFailure "Failed to delete link") 500)).

(** *** [app/api/analytics/route.ts] and [app/api/analytics/[linkId]/route.ts] *)

Definition analytics_GET : M HttpResponse :=
  try_catch
    (analytics <- getGlobalAnalytics ;;
     ret (Json (PGlobalAnalytics analytics) 200))
    (fun error =>
       console_log "Error fetching global analytics:" error ;;;
       ret (Json (PFailure "Failed to fetch analytics") 500)).

Definition link_analytics_GET (linkId : string) : M HttpResponse :=
  try_catch
    (link <- getLinkById linkId ;;
     match link with
     | None => ret (Json (PFailure "Link not found") 404)
     | Some link =>
         analytics <- getLinkAnalytics linkId ;;
         ret (Json (PLinkAnalytics link analytics) 200)
     end)
    (fun error =>
       console_log "Error fetching analytics:" error ;;;
       ret (Json (PFailure "Failed to fetch analytics") 500)).

(** *** [app/track/[shortCode]/route.ts] *)

(** [a || b] on a string that may be [null] *)
Definition string_or (a : option string) (b : string) : string :=
  match a with
  | Some s => if nonempty s then s else b
  | None => b
  end.

(** The [try] block of the tracking handler. *)
Definition track_try (P : Platform) (request : Request.t) (shortCode : string)
    : M HttpResponse :=
  link <- getLinkByShortCode shortCode ;;
  match link with
  | None => ret (Json (PError "Link not found") 404)
  | Some link =>
      let ip := string_or (getClientIP (Request.headers request)) "127.0.0.1" in
      let userAgent := headers_get (Request.headers request) "user-agent" in
      let referer := sanitizeReferer P (headers_get (Request.headers request) "referer") in
      locationData <- getLocationFromIP P ip ;;
      recordClick P (Link.id link) (Some ip) locationData userAgent referer ;;;
      redirect P (Link.original_url link) 302
  end.

(** The inner [try] of the [catch] block: the bare look-up and redirect;
    [None] when it falls through. *)
Definition track_fallback (P : Platform) (shortCode : string) : M (option HttpResponse) :=
  try_catch
    (link <- getLinkByShortCode shortCode ;;
     match link with
     | Some link =>
         response <- redirect P (Link.original_url link) 302 ;;
         ret (Some response)
     | None => ret None
     end)
    (fun _ => ret None).

Definition track_catch (P : Platform) (shortCode : string) (error : Exn) : M HttpResponse :=
  console_log "Error tracking click:" error ;;;
  fallback <- track_fallback P shortCode ;;
  match fallback with
  | Some response => ret response
  | None => ret (Json (PError "Tracking failed") 500)
  end.

Definition track_GET (P : Platform) (request : Request.t) (shortCode : string)
    : M HttpResponse :=
  try_catch (track_try P request shortCode) (track_catch P shortCode).

(** [generateTrackingUrl]; [window_origin] is [window.location.origin] where
    there is a [window]. *)
Definition generateTrackingUrl (window_origin : option string) (shortCode : string)
    (baseUrl : option string) : string :=
  let base :=
    string_or baseUrl
      (match window_origin with
       | Some origin => origin
       | None => "http://localhost:3000"
       end) in
  base ++ "/track/" ++ shortCode.

(** ** Reference instances

    A parser for plain absolute URLs ([scheme://host/path?query#fragment] and
    [scheme:path]), a platform built on it, and small worlds to run the
    handlers in. *)

(** Where the conversion of a JSON value to a string throws: on an object
    with a [toString] field of its own (no JSON value is callable, and the
    inherited [valueOf] yields the object itself), and on an array with such
    an item, which [join] converts in turn. *)
Fixpoint to_string_throws (v : JsValue) : bool :=
  match v with
  | JObj fields =>
      match assoc_get fields "toString" with
      | Some _ => true
      | None => false
      end
  | JArr items => existsb to_string_throws items
  | _ => false
  end.

Fixpoint span_until (stop : ascii -> bool) (s : string) : string * string :=
  match s with
  | EmptyString => (EmptyString, EmptyString)
  | String c r =>
      if stop c then (EmptyString, s)
      else let (a, b) := span_until stop r in (String c a, b)
  end.

Definition is_alpha (c : ascii) : bool :=
  let n := nat_of_ascii c in
  (((97 <=? n) && (n <=? 122)) || ((65 <=? n) && (n <=? 90)))%nat.

Definition is_scheme_char (c : ascii) : bool :=
  is_alpha c || is_digit c || Ascii.eqb c "+" || Ascii.eqb c "-" || Ascii.eqb c ".".

Definition valid_scheme (s : string) : bool :=
  match s with
  | EmptyString => false
  | String c r => is_alpha c && forallb is_scheme_char (chars r)
  end.

Definition tail (s : string) : string :=
  match s with EmptyString => EmptyString | String _ r => r end.

Definition cut_after (mark : ascii) (stop : ascii -> bool) (s : string)
    : option string * string :=
  match s with
  | String c r => if Ascii.eqb c mark then
                    let (a, b) := span_until stop r in (Some a, b)
                  else (None, s)
  | EmptyString => (None, s)
  end.

Definition basic_URL_parse (s : string) : option URL.t :=
  let (scheme, rest) := span_until (Ascii.eqb ":") s in
  if negb (valid_scheme scheme) || negb (startsWith rest ":") then None
  else
    let rest := tail rest in
    let path_end := fun c => Ascii.eqb c "?" || Ascii.eqb c "#" in
    let finish := fun host path after_path =>
      let (query, after_query) := cut_after "?" (Ascii.eqb "#") after_path in
      let (fragment, _) := cut_after "#" (fun _ => false) after_query in
      Some (URL.mk scheme host path query fragment) in
    if startsWith rest "//" then
      let (host, after_host) :=
        span_until (fun c => Ascii.eqb c "/" || path_end c) (tail (tail rest)) in
      if negb (nonempty host) then None
      else
        let (path, after_path) := span_until path_end after_host in
        finish (Some host) (if nonempty path then path else "/") after_path
    else
      let (path, after_path) := span_until path_end rest in
      finish None path after_path.

(** The reference platform.  Its [parseFloat] throws where the conversion
    to a string does; the number a text spells and the text of a number are
    not computed, the runs below do not depend on them. *)
Definition basic_platform : Platform :=
  {| URL_parse := basic_URL_parse;
     parseFloat := fun v =>
       if to_string_throws v
       then Throw (TypeError "Cannot convert object to primitive value")
       else Ok NaN;
     real_to_text := fun _ => "0.0";
     text_to_real := fun _ => None |}.

Definition empty_database : Database := mkDatabase [] [] 0 true.

(** No engine fault, a still clock, all-zero random bytes, no network. *)
Definition quiet_world (d : Database) : World :=
  mkWorld d (fun _ => false) (fun _ => 1000000%Z) (fun _ => 0%N)
          (fun _ => FetchRejected) 0 0 [] [].

Definition blog_link : Link.t :=
  Link.mk "id-blog" "Blog" "https://example.com" "uuuuuuuu" 999000 0.

Definition blog_database : Database := mkDatabase [blog_link] [] 0 true.

Definition plain_request : Request.t :=
  Request.mk [] "http://localhost:3000" None None.

Definition blog_click : Click.t :=
  Click.mk 1 "id-blog" (Some "127.0.0.1") (SText "Local") (SText "Local") (SText "Local")
           SNull SNull None None 999500.

(** The blog link after one visit. *)
Definition visited_database : Database :=
  mkDatabase [bump blog_link] [blog_click] 1 true.

(** [DELETE /api/links?id=...] *)
Definition delete_request (id : string) : Request.t :=
  Request.mk [] "http://localhost:3000" (Some id) None.

(** ** Vocabulary of the properties *)

(** The addresses the resolver treats as local. *)
Definition local_address (ip : string) : Prop :=
  ip = "" \/ ip = "127.0.0.1" \/ ip = "::1"
  \/ startsWith ip "192.168." = true
  \/ startsWith ip "10." = true
  \/ startsWith ip "172." = true.

(** A property of a payload that is known not to be [null]. *)
Definition prop_of (data : JsValue) (key : string) : JsValue :=
  match js_prop data key with
  | Ok v => v
  | Throw _ => JUndefined
  end.

(** The location an answer of the primary service stands for, when
    [parseFloat] takes its coordinates. *)
Definition primaryLocation (P : Platform) (data : JsValue) : result LocationData.t :=
  match coordinate P (prop_of data "latitude") with
  | Throw e => Throw e
  | Ok latitude =>
      match coordinate P (prop_of data "longitude") with
      | Throw e => Throw e
      | Ok longitude =>
          Ok (LocationData.mk
                (js_or (prop_of data "country_name") JNull)
                (js_or (prop_of data "city") JNull)
                (js_or (prop_of data "region") JNull)
                latitude longitude)
      end
  end.

(** The primary look-up fails: the call throws, the response is not OK, its
    body or payload cannot be read, the payload reports an error, or
    [parseFloat] throws on one of its coordinates. *)
Inductive primary_failure (P : Platform) : FetchResult -> Prop :=
| primary_rejected : primary_failure P FetchRejected
| primary_not_ok : forall body, primary_failure P (FetchResponse false body)
| primary_unreadable : primary_failure P (FetchResponse true None)
| primary_no_payload : forall data e,
    js_prop data "error" = Throw e ->
    primary_failure P (FetchResponse true (Some data))
| primary_reports_error : forall data error,
    js_prop data "error" = Ok error -> truthy error = true ->
    primary_failure P (FetchResponse true (Some data))
| primary_odd_coordinate : forall data error e,
    js_prop data "error" = Ok error -> truthy error = false ->
    primaryLocation P data = Throw e ->
    primary_failure P (FetchResponse true (Some data)).

(** The primary look-up answers [location]. *)
Definition primary_success (P : Platform) (r : FetchResult) (data : JsValue)
    (location : LocationData.t) : Prop :=
  r = FetchResponse true (Some data)
  /\ (exists error, js_prop data "error" = Ok error /\ truthy error = false)
  /\ primaryLocation P data = Ok location.

(** The secondary look-up fails: as above, with [status] other than
    ['success'] for a reported error. *)
Inductive secondary_failure : FetchResult -> Prop :=
| secondary_rejected : secondary_failure FetchRejected
| secondary_not_ok : forall body, secondary_failure (FetchResponse false body)
| secondary_unreadable : secondary_failure (FetchResponse true None)
| secondary_no_payload : forall data e,
    js_prop data "status" = Throw e ->
    secondary_failure (FetchResponse true (Some data))
| secondary_no_success : forall data status,
    js_prop data "status" = Ok status -> strict_equals_string status "success" = false ->
    secondary_failure (FetchResponse true (Some data)).

Definition secondary_success (r : FetchResult) (data : JsValue) : Prop :=
  r = FetchResponse true (Some data)
  /\ exists status, js_prop data "status" = Ok status
                    /\ strict_equals_string status "success" = true.

(** The location a successful answer of the secondary service stands for. *)
Definition secondaryLocation (data : JsValue) : LocationData.t :=
  LocationData.mk
    (js_or (prop_of data "country") JNull)
    (js_or (prop_of data "city") JNull)
    (js_or (prop_of data "regionName") JNull)
    (js_or (prop_of data "lat") JNull)
    (js_or (prop_of data "lon") JNull).

(** The resolver touches the network and the console only. *)
Definition only_talked (w w' : World) : Prop :=
  db w' = db w /\ faults w' = faults w /\ clock w' = clock w
  /\ statements w' = statements w.

(** An engine fault on the third statement of a request: in the tracking
    handler, the [UPDATE] of the counter. *)
Definition failing_update_world (d : Database) : World :=
  mkWorld d (fun n => Nat.eqb n 2) (fun _ => 1000000%Z) (fun _ => 0%N)
          (fun _ => FetchRejected) 0 0 [] [].

(** The database once [deleteLink id] has run both statements. *)
Definition without_link (id : string) (d : Database) : Database :=
  mkDatabase (filter (fun l => negb (has_link_id id l)) (links d))
             (filter (fun c => negb (of_link id c)) (clicks d))
             (clicks_seq d) (foreign_keys d).

(** A creation payload that passes [createLinkSchema]: an object whose
    [name] is a string of 1 to 100 characters and whose [originalUrl] is a
    string the platform parses as a URL. *)
Definition valid_payload (P : Platform) (body : JsValue) (name originalUrl : string) : Prop :=
  exists fields,
    body = JObj fields
    /\ field fields "name" = JStr name
    /\ (1 <= String.length name <= 100)%nat
    /\ field fields "originalUrl" = JStr originalUrl
    /\ URL_parse P originalUrl <> None.

(** An issue that names the field at fault. *)
Definition field_level (issue : ZodIssue) : Prop :=
  fst issue = ["name"] \/ fst issue = ["originalUrl"].

(** The generated identifier or short code is already taken. *)
Definition collides (id shortCode : string) (d : Database) : bool :=
  existsb (has_link_id id) (links d) || existsb (has_short_code shortCode) (links d).

(** The database with one more link. *)
Definition with_link (link : Link.t) (d : Database) : Database :=
  mkDatabase (links d ++ [link]) (clicks d) (clicks_seq d) (foreign_keys d).

(** The order of [topLinks]: more clicks in the trailing seven days first,
    and among equals the larger all-time [click_count] first. *)
Definition ranks_before (a b : TopLink.t) : Prop :=
  (TopLink.recent_clicks b < TopLink.recent_clicks a)%nat
  \/ (TopLink.recent_clicks a = TopLink.recent_clicks b
      /\ (Link.click_count (TopLink.link b) <= Link.click_count (TopLink.link a))%Z).

(** The world with another [links] table. *)
Definition relinked (ls : list Link.t) (w : World) : World :=
  mkWorld (mkDatabase ls (clicks (db w)) (clicks_seq (db w)) (foreign_keys (db w)))
          (faults w) (clock w) (entropy w) (net w)
          (statements w) (drawn w) (fetched w) (console w).

(** The blog link with one click stored and its counter still at 0. *)
Definition diverged_database : Database :=
  mkDatabase [blog_link] [blog_click] 1 true.

(** [POST /api/links] with a JSON body *)
Definition post_request (body : JsValue) : Request.t :=
  Request.mk [] "http://localhost:3000" None (Some body).

Definition blog_payload : JsValue :=
  JObj [("name", JStr "Blog"); ("originalUrl", JStr "https://example.com")].

(** The strings a pattern matches. *)
Inductive matches : regex -> list ascii -> Prop :=
| matches_eps : matches REps []
| matches_class : forall (p : ascii -> bool) c, p c = true -> matches (RClass p) [c]
| matches_seq : forall r1 r2 s1 s2,
    matches r1 s1 -> matches r2 s2 -> matches (RSeq r1 r2) (s1 ++ s2)
| matches_alt_l : forall r1 r2 s, matches r1 s -> matches (RAlt r1 r2) s
| matches_alt_r : forall r1 r2 s, matches r2 s -> matches (RAlt r1 r2) s.

(** Between 1 and [hi] characters of a class. *)
Definition group (p : ascii -> bool) (hi : nat) (g : list ascii) : Prop :=
  Forall (fun c => p c = true) g /\ (1 <= length g <= hi)%nat.

(** [n] groups each followed by the separator, then a last group. *)
Definition separated_groups (p : ascii -> bool) (hi : nat) (sep : ascii) (n : nat)
    (s : list ascii) : Prop :=
  exists gs last,
    length gs = n
    /\ Forall (group p hi) gs
    /\ group p hi last
    /\ s = (concat (map (fun g => g ++ [sep]) gs) ++ last)%list.

(** Four groups of one to three digits, joined by dots. *)
Definition dotted_quad (ip : string) : Prop :=
  separated_groups is_digit 3 "." 3 (chars ip).

(** Eight groups of one to four hexadecimal digits, joined by colons. *)
Definition colon_hextets (ip : string) : Prop :=
  separated_groups is_hex 4 ":" 7 (chars ip).

(** A header that yields no address: absent, empty, or with a first token
    that is not a valid IP. *)
Definition rejected (h : Headers) (name : string) : Prop :=
  forall ip, header_candidate h name = Some ip -> isValidIP ip = false.

Definition all_space (s : string) : Prop :=
  Forall (fun c => is_space c = true) (chars s).

Fixpoint last_char (s : string) : option ascii :=
  match s with
  | EmptyString => None
  | String c r =>
      match last_char r with
      | Some x => Some x
      | None => Some c
      end
  end.

(** [t] is [s] without the white space at its two ends. *)
Definition trimmed (s t : string) : Prop :=
  (exists l r, s = l ++ t ++ r /\ all_space l /\ all_space r)
  /\ (forall c r, t = String c r -> is_space c = false)
  /\ (forall c, last_char t = Some c -> is_space c = false).

(** [t] is the part of [s] before its first [sep]. *)
Definition first_token (sep : ascii) (s t : string) : Prop :=
  (s = t \/ exists rest, s = t ++ String sep rest)
  /\ forall c, In c (chars t) -> c <> sep.

(** The five location arguments of [recordClick]. *)
Definition location_arguments (location : LocationData.t) : list JsValue :=
  [LocationData.country location; LocationData.city location;
   LocationData.region location; LocationData.latitude location;
   LocationData.longitude location].

(** A location whose five arguments give the five values of their
    parameters. *)
Definition bindable (location : LocationData.t) : Prop :=
  exists values, bind_arguments 5 (location_arguments location) = Ok values.

(** The constraints of the [links] table: [id] is its primary key and
    [short_code] is unique. *)
Definition keys_ok (d : Database) : Prop :=
  NoDup (map Link.id (links d)) /\ NoDup (map Link.short_code (links d)).

(** [sub] occurs in [s]. *)
Definition occurs_in (sub s : string) : Prop :=
  exists a b, s = a ++ sub ++ b.

(** The status code of a response. *)
Definition status_of (response : HttpResponse) : nat :=
  match response with
  | Json _ status => status
  | Redirect _ status => status
  end.

(** Whatever [m] does, the database it leaves is related by [Rd] to the one
    it found, and a value it returns satisfies [Q]. *)
Definition respects {A : Type} (Rd : Database -> Database -> Prop) (Q : A -> Prop)
    (m : M A) : Prop :=
  forall w r w',
    m w = (r, w') ->
    Rd (db w) (db w') /\ match r with Ok a => Q a | Throw _ => True end.

(** As [respects], and [m] never throws. *)
Definition answers {A : Type} (Rd : Database -> Database -> Prop) (Q : A -> Prop)
    (m : M A) : Prop :=
  forall w, exists a w', m w = (Ok a, w') /\ Rd (db w) (db w') /\ Q a.

(** The five statements that write, each within [Rd]. *)
Definition writes_within (Rd : Database -> Database -> Prop) : Prop :=
  (forall id name url code now d, Rd d (snd (sql_insert_link id name url code now d)))
  /\ (forall id d, Rd d (sql_bump_click_count id d))
  /\ (forall id d, Rd d (sql_delete_clicks id d))
  /\ (forall id d, Rd d (snd (sql_delete_link id d)))
  /\ (forall P bound now d, Rd d (snd (sql_insert_click P bound now d))).

(** Later instants first. *)
Definition newest_links_first (a b : Link.t) : Prop :=
  (Link.created_at b <= Link.created_at a)%Z.

Definition newest_clicks_first (a b : Click.t) : Prop :=
  (Click.clicked_at b <= Click.clicked_at a)%Z.

(** A row of [recentClicks] is a click with the name and short code of a link
    that has the id the click refers to. *)
Definition joined (d : Database) (row : Click.t * string * string) : Prop :=
  exists c l,
    In c (clicks d) /\ In l (links d) /\ Link.id l = Click.link_id c
    /\ row = (c, Link.name l, Link.short_code l).

(** How many of [keys] equal [k]. *)
Definition occurrences {K : Type} (eqb : K -> K -> bool) (k : K) (keys : list K) : nat :=
  length (filter (eqb k) keys).

(** The groups [acc] are the counts of the keys [seen]: one group per key that
    occurs, with its number of occurrences. *)
Definition counts_of {K : Type} (eqb : K -> K -> bool) (acc : list (K * nat))
    (seen : list K) : Prop :=
  NoDup (map fst acc)
  /\ forall k n, In (k, n) acc <-> n = occurrences eqb k seen /\ (1 <= n)%nat.

(** The world after the [n] statements of a summary that only reads. *)
Fixpoint after_queries (n : nat) (w : World) : World :=
  match n with
  | O => w
  | S n' => after_statement (after_queries n' w) (db w)
  end.

(** Whatever [m] does, the world it leaves is related by [R] to the one it
    found. *)
Definition within {A : Type} (R : World -> World -> Prop) (m : M A) : Prop :=
  forall w r w', m w = (r, w') -> R w w'.

(** The environment answers as before: faults, clock, random bytes and
    network are those of [w]. *)
Definition same_environment (w w' : World) : Prop :=
  faults w' = faults w /\ clock w' = clock w /\ entropy w' = entropy w /\ net w' = net w.

(** No outbound call was made between [w] and [w']. *)
Definition no_call (w w' : World) : Prop := fetched w' = fetched w.

(** The engine runs every statement. *)
Definition engine_sound (w : World) : Prop := forall n, faults w n = false.

(** A JSON value that is bound to a parameter on its own, or that [||]
    turns into [null]. *)
Definition plain_value (v : JsValue) : Prop :=
  match v with
  | JUndefined | JNull | JNum _ | JStr _ => True
  | JBool b => b = false
  | JArr _ | JObj _ => False
  end.

(** Every payload the network serves has plain values in the fields the
    resolver reads. *)
Definition plain_network (w : World) : Prop :=
  forall url ok data key,
    net w url = FetchResponse ok (Some data) -> plain_value (prop_of data key).

(** A visit through a proxy that reports a public address. *)
Definition proxied_request (ip : string) : Request.t :=
  Request.mk [("x-forwarded-for", ip)] "http://localhost:3000" None None.

(** A world whose primary service answers the look-up of 8.8.8.8 with
    [data]. *)
Definition served_world (data : JsValue) (d : Database) : World :=
  mkWorld d (fun _ => false) (fun _ => 1000000%Z) (fun _ => 0%N)
          (fun url =>
             if String.eqb url (primaryURL "8.8.8.8")
             then FetchResponse true (Some data)
             else FetchRejected)
          0 0 [] [].

(** A payload of the primary service with plain fields. *)
Definition paris_payload : JsValue :=
  JObj [("country_name", JStr "France"); ("city", JStr "Paris");
        ("latitude", JStr "48.85")].


(** The denormalised counter of every link is the number of its click rows. *)
Definition counters_agree (d : Database) : Prop :=
  forall l,
    In l (links d) ->
    Link.click_count l = Z.of_nat (length (filter (of_link (Link.id l)) (clicks d))).

(** Every click refers to a link of the table. *)
Definition references_ok (d : Database) : Prop :=
  forall c, In c (clicks d) -> exists l, In l (links d) /\ Link.id l = Click.link_id c.

Definition consistent (d : Database) : Prop := counters_agree d /\ references_ok d.

(** The summary of a link without clicks. *)
Definition empty_analytics : LinkAnalytics.t := LinkAnalytics.mk 0 [] [] [] [].

(** * Properties *)

(** ** The monad *)

Lemma bind_ok {A B : Type} (m : M A) (k : A -> M B) w a w' :
  m w = (Ok a, w') -> bind m k w = k a w'.
Proof. unfold bind. intros ->. reflexivity. Qed.

Lemma bind_throw {A B : Type} (m : M A) (k : A -> M B) w e w' :
  m w = (Throw e, w') -> bind m k w = (Throw e, w').
Proof. unfold bind. intros ->. reflexivity. Qed.

Lemma try_catch_ok {A : Type} (m : M A) h w a w' :
  m w = (Ok a, w') -> try_catch m h w = (Ok a, w').
Proof. unfold try_catch. intros ->. reflexivity. Qed.

Lemma try_catch_throw {A : Type} (m : M A) h w e w' :
  m w = (Throw e, w') -> try_catch m h w = h e w'.
Proof. unfold try_catch. intros ->. reflexivity. Qed.

Lemma run_statement_sound {A : Type} (q : Z -> Database -> result A * Database) w :
  faults w (statements w) = false ->
  run_statement q w
  = (fst (q (clock w (statements w)) (db w)),
     after_statement w (snd (q (clock w (statements w)) (db w)))).
Proof.
  unfold run_statement. intros ->.
  destruct (q (clock w (statements w)) (db w)); reflexivity.
Qed.

Lemma run_statement_fault {A : Type} (q : Z -> Database -> result A * Database) w :
  faults w (statements w) = true ->
  run_statement q w = (Throw (SqliteError "SQLITE_ERROR"), after_statement w (db w)).
Proof. unfold run_statement. intros ->. reflexivity. Qed.

(** ** Geolocation resolver *)

Lemma local_address_guard ip : local_address ip -> isLocalIP ip = true.
Proof.
  unfold local_address, isLocalIP.
  intros [-> | [-> | [-> | [H | [H | H]]]]]; try reflexivity;
    rewrite H; rewrite ?orb_true_r; reflexivity.
Qed.

(** C3.  For an address that is empty, ['127.0.0.1'], ['::1'] or begins with
    ['192.168.'], ['10.'] or ['172.'], the resolver returns the Local sentinel
    and leaves the world as it found it: nothing is fetched. *)
Theorem getLocationFromIP_local (P : Platform) (ip : string) (w : World) :
  local_address ip ->
  getLocationFromIP P ip w = (Ok LocalLocation, w)
  /\ LocalLocation = LocationData.mk (JStr "Local") (JStr "Local") (JStr "Local") JNull JNull
  /\ fetched (snd (getLocationFromIP P ip w)) = fetched w.
Proof.
  intros H. unfold getLocationFromIP.
  rewrite (local_address_guard ip H). repeat split.
Qed.

Lemma getLocationFromIP_local_witness :
  local_address "192.168.1.20"
  /\ fst (getLocationFromIP basic_platform "192.168.1.20" (quiet_world empty_database))
     = Ok LocalLocation.
Proof.
  assert (H : local_address "192.168.1.20").
  { unfold local_address. right. right. right. left. reflexivity. }
  split; [exact H |].
  destruct (getLocationFromIP_local basic_platform "192.168.1.20"
              (quiet_world empty_database) H) as [E _].
  rewrite E. reflexivity.
Defined.

Lemma js_prop_total data key v :
  js_prop data key = Ok v -> forall key', js_prop data key' = Ok (prop_of data key').
Proof.
  intros H key'. unfold prop_of.
  destruct data; simpl in *; try discriminate; try reflexivity.
  destruct (assoc_get fields key'); reflexivity.
Qed.

Lemma primary_failure_or_success P r :
  primary_failure P r \/ exists data location, primary_success P r data location.
Proof.
  destruct r as [| [|] [data|]]; try (left; constructor).
  destruct (js_prop data "error") as [error|e] eqn:E.
  - destruct (truthy error) eqn:T.
    + left. eapply primary_reports_error; eauto.
    + destruct (primaryLocation P data) as [location | e] eqn:L.
      * right. exists data, location. split; [reflexivity | eauto].
      * left. eapply primary_odd_coordinate; eauto.
  - left. eapply primary_no_payload; eauto.
Qed.

Lemma secondary_failure_or_success r :
  secondary_failure r \/ exists data, secondary_success r data.
Proof.
  destruct r as [| [|] [data|]]; try (left; constructor).
  destruct (js_prop data "status") as [status|e] eqn:E.
  - destruct (strict_equals_string status "success") eqn:T.
    + right. exists data. split; [reflexivity | eauto].
    + left. eapply secondary_no_success; eauto.
  - left. eapply secondary_no_payload; eauto.
Qed.

Lemma secondary_failure_not_success r data :
  secondary_failure r -> secondary_success r data -> False.
Proof.
  intros F [E [status [H T]]]. subst r.
  inversion F; subst; congruence.
Qed.

(** The first [try] block once the payload is read and reports no error. *)
Lemma primaryLookup_payload P ip w data error :
  net w (primaryURL ip) = FetchResponse true (Some data) ->
  js_prop data "error" = Ok error ->
  truthy error = false ->
  primaryLookup P ip w
  = (match primaryLocation P data with
     | Ok location => Ok (Some location)
     | Throw e => Throw e
     end, after_fetch w (primaryURL ip)).
Proof.
  intros E H T. unfold primaryLookup, bind, fetch. rewrite E. simpl.
  unfold lift. rewrite H, T.
  rewrite !(js_prop_total data "error" error H). unfold primaryLocation.
  destruct (coordinate P (prop_of data "latitude")); [| reflexivity].
  destruct (coordinate P (prop_of data "longitude")); reflexivity.
Qed.

(** A failed primary attempt throws or falls through, after its one call. *)
Lemma primaryLookup_failure P ip w :
  primary_failure P (net w (primaryURL ip)) ->
  primaryLookup P ip w = (Ok None, after_fetch w (primaryURL ip))
  \/ exists e, primaryLookup P ip w = (Throw e, after_fetch w (primaryURL ip)).
Proof.
  intros F.
  inversion F as [E | body E | E | data e H E | data error H T E | data error e H T L E].
  6: { right. exists e. symmetry in E.
       rewrite (primaryLookup_payload P ip w data error E H T), L. reflexivity. }
  all: unfold primaryLookup, bind, fetch; rewrite <- E; simpl.
  - right. eexists. reflexivity.
  - left. reflexivity.
  - right. eexists. reflexivity.
  - right. unfold lift. rewrite H. eexists. reflexivity.
  - right. unfold lift. rewrite H, T.
    destruct (js_prop data "reason"); eexists; reflexivity.
Qed.

Lemma primaryLookup_success P ip w data location :
  primary_success P (net w (primaryURL ip)) data location ->
  primaryLookup P ip w = (Ok (Some location), after_fetch w (primaryURL ip)).
Proof.
  intros [E [[error [H T]] L]].
  rewrite (primaryLookup_payload P ip w data error E H T), L. reflexivity.
Qed.

Lemma secondaryLookup_failure ip w :
  secondary_failure (net w (secondaryURL ip)) ->
  secondaryLookup ip w = (Ok None, after_fetch w (secondaryURL ip))
  \/ exists e, secondaryLookup ip w = (Throw e, after_fetch w (secondaryURL ip)).
Proof.
  intros F. unfold secondaryLookup, bind, fetch.
  inversion F as [E | body E | E | data e H E | data status H T E]; simpl.
  - right. eexists. reflexivity.
  - left. reflexivity.
  - right. eexists. reflexivity.
  - right. unfold lift. rewrite H. eexists. reflexivity.
  - left. unfold lift. rewrite H, T. reflexivity.
Qed.

Lemma secondaryLookup_success ip w data :
  secondary_success (net w (secondaryURL ip)) data ->
  secondaryLookup ip w
  = (Ok (Some (secondaryLocation data)), after_fetch w (secondaryURL ip)).
Proof.
  intros [E [status [H T]]]. unfold secondaryLookup, bind, fetch. rewrite E. simpl.
  unfold lift. rewrite H, T.
  rewrite !(js_prop_total data "status" status H). reflexivity.
Qed.

(** The resolver on an address that is not local, by the fate of the two
    look-ups. *)
Lemma getLocationFromIP_primary P ip w data location :
  isLocalIP ip = false ->
  primary_success P (net w (primaryURL ip)) data location ->
  getLocationFromIP P ip w = (Ok location, after_fetch w (primaryURL ip)).
Proof.
  intros L S. unfold getLocationFromIP. rewrite L.
  unfold bind, try_catch. rewrite (primaryLookup_success P ip w data location S).
  reflexivity.
Qed.

Lemma primary_attempt_failure P ip w :
  primary_failure P (net w (primaryURL ip)) ->
  exists w1,
    try_catch (primaryLookup P ip)
      (fun error => console_log "Primary IP service failed:" error ;;; ret None) w
    = (Ok None, w1)
    /\ net w1 = net w
    /\ fetched w1 = (fetched w ++ [primaryURL ip])%list
    /\ only_talked w w1.
Proof.
  intros F. unfold try_catch.
  destruct (primaryLookup_failure P ip w F) as [E | [e E]]; rewrite E.
  - eexists. repeat split.
  - eexists. repeat split.
Qed.

Lemma secondary_attempt ip w :
  exists r w2,
    try_catch (secondaryLookup ip)
      (fun error => console_log "Fallback IP service failed:" error ;;; ret None) w
    = (Ok r, w2)
    /\ fetched w2 = (fetched w ++ [secondaryURL ip])%list
    /\ only_talked w w2
    /\ (secondary_failure (net w (secondaryURL ip)) -> r = None)
    /\ (forall data, secondary_success (net w (secondaryURL ip)) data ->
        r = Some (secondaryLocation data)).
Proof.
  unfold try_catch.
  destruct (secondary_failure_or_success (net w (secondaryURL ip))) as [F | [data S]].
  - assert (No : forall d, secondary_success (net w (secondaryURL ip)) d ->
                           @None LocationData.t = Some (secondaryLocation d)).
    { intros d S. destruct (secondary_failure_not_success _ _ F S). }
    destruct (secondaryLookup_failure ip w F) as [E | [e E]]; rewrite E;
      do 2 eexists; (split; [reflexivity | split; [reflexivity | split; [repeat split |]]]);
      split; auto.
  - rewrite (secondaryLookup_success ip w data S).
    do 2 eexists.
    split; [reflexivity | split; [reflexivity | split; [repeat split |]]]. split.
    + intros F. destruct (secondary_failure_not_success _ _ F S).
    + intros d [E' _]. destruct S as [E _]. congruence.
Qed.

(** C2.  On an address that is not local, when the primary look-up fails
    (rejected call, response that is not OK, unreadable payload, a reported
    error, or a coordinate on which [parseFloat] throws) the secondary service
    is called next; when that fails too the result is exactly the Unknown
    sentinel, and otherwise it is the location of the secondary answer alone:
    no field of a failed attempt reaches the result. *)
Theorem getLocationFromIP_fallback (P : Platform) (ip : string) (w : World) :
  isLocalIP ip = false ->
  primary_failure P (net w (primaryURL ip)) ->
  let run := getLocationFromIP P ip w in
  fetched (snd run) = (fetched w ++ [primaryURL ip; secondaryURL ip])%list
  /\ (secondary_failure (net w (secondaryURL ip)) -> fst run = Ok UnknownLocation)
  /\ (forall data, secondary_success (net w (secondaryURL ip)) data ->
      fst run = Ok (secondaryLocation data))
  /\ (fst run = Ok UnknownLocation
      \/ exists data, secondary_success (net w (secondaryURL ip)) data
                      /\ fst run = Ok (secondaryLocation data))
  /\ UnknownLocation
     = LocationData.mk (JStr "Unknown") (JStr "Unknown") (JStr "Unknown") JNull JNull.
Proof.
  intros L F run. subst run. unfold getLocationFromIP. rewrite L.
  destruct (primary_attempt_failure P ip w F) as (w1 & E1 & N1 & F1 & D1).
  rewrite (bind_ok _ _ _ _ _ E1).
  destruct (secondary_attempt ip w1) as (r & w2 & E2 & F2 & D2 & Hf & Hs).
  rewrite (bind_ok _ _ _ _ _ E2).
  rewrite N1 in Hf, Hs.
  assert (Flog : fetched w2 = (fetched w ++ [primaryURL ip; secondaryURL ip])%list).
  { rewrite F2, F1, <- app_assoc. reflexivity. }
  destruct (secondary_failure_or_success (net w (secondaryURL ip))) as [Fail | [data S]].
  - rewrite (Hf Fail) in *. simpl. repeat split; auto.
    intros data S. destruct (secondary_failure_not_success _ _ Fail S).
  - rewrite (Hs data S) in *. simpl. repeat split; auto.
    + intros Fail. destruct (secondary_failure_not_success _ _ Fail S).
    + intros d S'. rewrite (Hs d S') in Hs. specialize (Hs data S). congruence.
    + right. exists data. split; auto.
Qed.

Lemma getLocationFromIP_fallback_witness :
  isLocalIP "8.8.8.8" = false
  /\ primary_failure basic_platform
       (net (quiet_world empty_database) (primaryURL "8.8.8.8"))
  /\ fetched (snd (getLocationFromIP basic_platform "8.8.8.8" (quiet_world empty_database)))
     = [primaryURL "8.8.8.8"; secondaryURL "8.8.8.8"].
Proof.
  assert (L : isLocalIP "8.8.8.8" = false) by reflexivity.
  assert (F : primary_failure basic_platform
                (net (quiet_world empty_database) (primaryURL "8.8.8.8"))).
  { simpl. apply primary_rejected. }
  split; [exact L | split; [exact F |]].
  exact (proj1 (getLocationFromIP_fallback basic_platform "8.8.8.8"
                  (quiet_world empty_database) L F)).
Defined.

(** ** Client metadata extractor: the referer *)

Lemma URL_toString_clear_search u :
  URL_toString (URL_clear_search u)
  = URL.scheme u ++ ":"
    ++ match URL.host u with Some h => "//" ++ h | None => "" end
    ++ URL.path u
    ++ match URL.fragment u with Some f => "#" ++ f | None => "" end.
Proof. reflexivity. Qed.

(** C6.  [sanitizeReferer] yields [null] for an absent (or empty) referer
    and for one the platform does not parse as a URL; for one that parses it
    yields the serialised URL with its query removed.  Given what the URL
    parser makes of the two inputs of the specification,
    ['https://ref.com/page?token=secret'] becomes ['https://ref.com/page'] and
    ['not-a-url'] becomes [null]. *)
Theorem sanitizeReferer_strips_query (P : Platform) :
  URL_parse P "https://ref.com/page?token=secret"
  = Some (URL.mk "https" (Some "ref.com") "/page" (Some "token=secret") None) ->
  URL_parse P "not-a-url" = None ->
  sanitizeReferer P None = None
  /\ sanitizeReferer P (Some "") = None
  /\ (forall r, URL_parse P r = None -> sanitizeReferer P (Some r) = None)
  /\ (forall r u, r <> "" -> URL_parse P r = Some u ->
      sanitizeReferer P (Some r) = Some (URL_toString (URL_clear_search u))
      /\ URL.query (URL_clear_search u) = None
      /\ URL_toString (URL_clear_search u)
         = URL.scheme u ++ ":"
           ++ match URL.host u with Some h => "//" ++ h | None => "" end
           ++ URL.path u
           ++ match URL.fragment u with Some f => "#" ++ f | None => "" end)
  /\ sanitizeReferer P (Some "https://ref.com/page?token=secret")
     = Some "https://ref.com/page"
  /\ sanitizeReferer P (Some "not-a-url") = None.
Proof.
  intros Hurl Hnot. unfold sanitizeReferer.
  split; [reflexivity | split; [reflexivity | split; [| split; [| split]]]].
  - intros r E. rewrite E. destruct (negb (nonempty r)); reflexivity.
  - intros r u Hr E. destruct r as [| c r]; [congruence |]. simpl.
    rewrite E. repeat split.
  - simpl. rewrite Hurl. reflexivity.
  - simpl. rewrite Hnot. reflexivity.
Qed.

Lemma sanitizeReferer_strips_query_witness :
  sanitizeReferer basic_platform (Some "https://ref.com/page?token=secret")
  = Some "https://ref.com/page"
  /\ sanitizeReferer basic_platform (Some "not-a-url") = None.
Proof.
  exact (proj2 (proj2 (proj2 (proj2
           (sanitizeReferer_strips_query basic_platform eq_refl eq_refl))))).
Defined.

(** ** Tracking handler *)

Lemma bind_inv_ok {A B : Type} (m : M A) (k : A -> M B) w b w' :
  bind m k w = (Ok b, w') ->
  exists a w1, m w = (Ok a, w1) /\ k a w1 = (Ok b, w').
Proof.
  unfold bind. destruct (m w) as [[a | e] w1]; intros H.
  - exists a, w1. auto.
  - discriminate.
Qed.

Lemma run_statement_inv_ok {A : Type} (q : Z -> Database -> result A * Database) w a w' :
  run_statement q w = (Ok a, w') ->
  faults w (statements w) = false
  /\ exists d, q (clock w (statements w)) (db w) = (Ok a, d) /\ w' = after_statement w d.
Proof.
  unfold run_statement. destruct (faults w (statements w)); [discriminate |].
  destruct (q (clock w (statements w)) (db w)) as [r d]. intros H.
  inversion H; subst. split; [reflexivity |]. exists d. auto.
Qed.

Lemma lift_inv_ok {A : Type} (r : result A) w a w' :
  lift r w = (Ok a, w') -> r = Ok a /\ w' = w.
Proof. unfold lift. intros H. inversion H; auto. Qed.

Lemma getLocationFromIP_total P ip w :
  exists location w1,
    getLocationFromIP P ip w = (Ok location, w1) /\ only_talked w w1.
Proof.
  unfold getLocationFromIP. destruct (isLocalIP ip).
  - exists LocalLocation, w. repeat split.
  - destruct (primary_failure_or_success P (net w (primaryURL ip)))
      as [F | (data & location & S)].
    + destruct (primary_attempt_failure P ip w F) as (w1 & E1 & _ & _ & T1).
      rewrite (bind_ok _ _ _ _ _ E1).
      destruct (secondary_attempt ip w1) as (r & w2 & E2 & _ & T2 & _).
      rewrite (bind_ok _ _ _ _ _ E2).
      assert (T : only_talked w w2).
      { unfold only_talked in *. intuition congruence. }
      destruct r; eexists; eexists; split; try reflexivity; exact T.
    + unfold bind, try_catch. rewrite (primaryLookup_success P ip w data location S).
      eexists. eexists. split; [reflexivity | repeat split].
Qed.

Lemma has_link_id_refl l : has_link_id (Link.id l) l = true.
Proof. unfold has_link_id. apply String.eqb_refl. Qed.

Lemma bump_if_same l : bump_if (Link.id l) l = bump l.
Proof. unfold bump_if. rewrite has_link_id_refl. reflexivity. Qed.

Lemma bump_if_keeps i l :
  Link.id (bump_if i l) = Link.id l
  /\ Link.short_code (bump_if i l) = Link.short_code l
  /\ Link.original_url (bump_if i l) = Link.original_url l.
Proof. unfold bump_if. destruct (has_link_id i l); repeat split. Qed.

Lemma find_short_code_map (f : Link.t -> Link.t) c ls :
  (forall l, Link.short_code (f l) = Link.short_code l) ->
  find (has_short_code c) (map f ls) = option_map f (find (has_short_code c) ls).
Proof.
  intros Hf. induction ls as [| l ls IH]; simpl; [reflexivity |].
  unfold has_short_code at 1. rewrite Hf. fold (has_short_code c l).
  destruct (has_short_code c l); [reflexivity | exact IH].
Qed.

Lemma find_some_in {A : Type} (p : A -> bool) ls x :
  find p ls = Some x -> In x ls /\ p x = true.
Proof. apply find_some. Qed.

(** ** Binding the arguments of [recordClick] *)

Lemma bind_next_inv params v bound bound' :
  bind_next params v bound = Ok bound' ->
  exists x,
    bind_value v = Ok x /\ bound' = (bound ++ [x])%list /\ (length bound < params)%nat.
Proof.
  unfold bind_next. destruct (bind_value v) as [x |]; [| discriminate].
  destruct (length bound <? params)%nat eqn:L; [| discriminate].
  intros H. inversion H. exists x. apply Nat.ltb_lt in L. auto.
Qed.

Lemma bind_next_fits params v bound x :
  bind_value v = Ok x -> (length bound < params)%nat ->
  bind_next params v bound = Ok (bound ++ [x])%list.
Proof.
  intros H L. unfold bind_next. rewrite H.
  apply Nat.ltb_lt in L. rewrite L. reflexivity.
Qed.

(** What an array adds does not depend on the parameters already bound, as
    long as there is room. *)
Lemma bind_array_inv params items bound bound' :
  bind_array params items bound = Ok bound' ->
  exists ext,
    bound' = (bound ++ ext)%list
    /\ ((length bound <= params)%nat -> (length bound' <= params)%nat)
    /\ forall params' bound0,
         (length bound0 + length ext <= params')%nat ->
         bind_array params' items bound0 = Ok (bound0 ++ ext)%list.
Proof.
  revert bound. induction items as [| v items IH]; intros bound H; simpl in H.
  - inversion H. exists []. rewrite app_nil_r. split; [reflexivity |].
    split; [auto |]. intros params' bound0 _. rewrite app_nil_r. reflexivity.
  - destruct (bind_next params v bound) as [b1 |] eqn:E; [| discriminate].
    apply bind_next_inv in E. destruct E as (x & Hx & -> & Hlt).
    destruct (IH _ H) as (ext & -> & Hle & Hany).
    exists (x :: ext). rewrite <- app_assoc. split; [reflexivity |]. split.
    + intros _. rewrite <- app_assoc in Hle. apply Hle. rewrite length_app. simpl. lia.
    + intros params' bound0 Hroom. simpl in *.
      rewrite (bind_next_fits params' v bound0 x Hx) by lia.
      rewrite (Hany params' (bound0 ++ [x])%list) by (rewrite length_app; simpl; lia).
      rewrite <- app_assoc. reflexivity.
Qed.

Lemma bind_each_inv params args named bound named' bound' :
  bind_each params args named bound = Ok (named', bound') ->
  exists ext,
    bound' = (bound ++ ext)%list
    /\ ((length bound <= params)%nat -> (length bound' <= params)%nat)
    /\ forall params' bound0,
         (length bound0 + length ext <= params')%nat ->
         bind_each params' args named bound0 = Ok (named', (bound0 ++ ext)%list).
Proof.
  revert named bound.
  induction args as [| v args IH]; intros named bound H.
  - simpl in H. inversion H. exists []. rewrite app_nil_r. split; [reflexivity |].
    split; [auto |]. intros params' bound0 _. rewrite app_nil_r. reflexivity.
  - assert (Scalar :
      forall b1, bind_next params v bound = Ok b1 ->
        bind_each params args named b1 = Ok (named', bound') ->
        (forall params' bound0,
            bind_each params' (v :: args) named bound0
            = match bind_next params' v bound0 with
              | Ok b => bind_each params' args named b
              | Throw e => Throw e
              end) ->
        exists ext,
          bound' = (bound ++ ext)%list
          /\ ((length bound <= params)%nat -> (length bound' <= params)%nat)
          /\ forall params' bound0,
               (length bound0 + length ext <= params')%nat ->
               bind_each params' (v :: args) named bound0
               = Ok (named', (bound0 ++ ext)%list)).
    { intros b1 E H1 Hstep.
      apply bind_next_inv in E. destruct E as (x & Hx & -> & Hlt).
      destruct (IH _ _ H1) as (ext & -> & Hle & Hany).
      exists (x :: ext). rewrite <- app_assoc. split; [reflexivity |]. split.
      + intros _. rewrite <- app_assoc in Hle. apply Hle. rewrite length_app. simpl. lia.
      + intros params' bound0 Hroom. simpl in Hroom. rewrite Hstep.
        rewrite (bind_next_fits params' v bound0 x Hx) by lia.
        rewrite (Hany params' (bound0 ++ [x])%list) by (rewrite length_app; simpl; lia).
        rewrite <- app_assoc. reflexivity. }
    destruct v as [| | b | n | t | items | fields].
    1-5: cbn [bind_each] in H;
         match type of H with
         | match ?m with _ => _ end = _ =>
             remember m as r eqn:E in H; symmetry in E;
             destruct r as [b1 |]; [| discriminate]
         end;
         apply (Scalar b1 E H); intros; reflexivity.
    + simpl in H. destruct (bind_array params items bound) as [b1 |] eqn:E; [| discriminate].
      apply bind_array_inv in E. destruct E as (ext1 & -> & Hle1 & Hany1).
      destruct (IH _ _ H) as (ext & -> & Hle & Hany).
      exists (ext1 ++ ext)%list. rewrite <- app_assoc. split; [reflexivity |]. split.
      * intros Hb. rewrite <- app_assoc in Hle. auto.
      * intros params' bound0 Hroom. rewrite length_app in Hroom. simpl.
        rewrite (Hany1 params' bound0) by lia.
        rewrite (Hany params' (bound0 ++ ext1)%list) by (rewrite length_app; lia).
        rewrite <- app_assoc. reflexivity.
    + simpl in H. destruct named; [discriminate |].
      destruct (IH _ _ H) as (ext & -> & Hle & Hany).
      exists ext. split; [reflexivity |]. split; [exact Hle |].
      intros params' bound0 Hroom. simpl. apply Hany. exact Hroom.
Qed.

Lemma bind_each_app params a b named bound :
  bind_each params (a ++ b) named bound
  = match bind_each params a named bound with
    | Ok (named', bound') => bind_each params b named' bound'
    | Throw e => Throw e
    end.
Proof.
  revert named bound. induction a as [| v a IH]; intros named bound; [reflexivity |].
  destruct v as [| | c | n | t | items | fields]; cbn [app bind_each].
  1-5: destruct (bind_next params _ bound); [apply IH | reflexivity].
  - destruct (bind_array params items bound); [apply IH | reflexivity].
  - destruct named; [reflexivity | apply IH].
Qed.

Lemma bind_value_string s : bind_value (js_of_string s) = Ok (sql_of_string s).
Proof. destruct s; reflexivity. Qed.

Lemma text_column_string P s : text_column P (sql_of_string s) = s.
Proof. destruct s; reflexivity. Qed.

(** The loop over the nine arguments of [recordClick], by its three parts. *)
Lemma bind_each_click linkId ip location userAgent referer :
  bind_each 9 (click_arguments linkId ip location userAgent referer) false []
  = match bind_each 9 (location_arguments location) false
            [SText linkId; sql_of_string ip] with
    | Ok (named, bound) =>
        bind_each 9 [js_of_string userAgent; js_of_string referer] named bound
    | Throw e => Throw e
    end.
Proof.
  change (click_arguments linkId ip location userAgent referer)
    with ([JStr linkId; js_of_string ip]
          ++ location_arguments location
          ++ [js_of_string userAgent; js_of_string referer])%list.
  rewrite bind_each_app.
  assert (E : bind_each 9 [JStr linkId; js_of_string ip] false []
              = Ok (false, [SText linkId; sql_of_string ip]))
    by (destruct ip; reflexivity).
  rewrite E. apply bind_each_app.
Qed.

Lemma bind_each_strings params a b named bound :
  bind_each params [js_of_string a; js_of_string b] named bound
  = if (S (length bound) <? params)%nat
    then Ok (named, (bound ++ [sql_of_string a; sql_of_string b])%list)
    else Throw (RangeError "Too many parameter values were provided").
Proof.
  assert (Step : forall s rest bnd,
             bind_each params (js_of_string s :: rest) named bnd
             = match bind_next params (js_of_string s) bnd with
               | Ok b1 => bind_each params rest named b1
               | Throw e => Throw e
               end) by (intros [s |] rest bnd; reflexivity).
  rewrite Step. unfold bind_next at 1. rewrite bind_value_string.
  destruct (length bound <? params)%nat eqn:L1.
  - rewrite Step. unfold bind_next. rewrite bind_value_string, length_app. simpl.
    rewrite Nat.add_1_r. destruct (S (length bound) <? params)%nat eqn:L2.
    + rewrite <- app_assoc. reflexivity.
    + reflexivity.
  - apply Nat.ltb_ge in L1.
    assert (L2 : (S (length bound) <? params)%nat = false) by (apply Nat.ltb_ge; lia).
    rewrite L2. reflexivity.
Qed.

(** The nine values of a click whose arguments are bound: the strings as
    given, and between them the five values of the location arguments. *)
Lemma click_arguments_bound linkId ip location userAgent referer bound :
  bind_arguments 9 (click_arguments linkId ip location userAgent referer) = Ok bound ->
  exists a b c x y,
    bind_arguments 5 (location_arguments location) = Ok [a; b; c; x; y]
    /\ bound = [SText linkId; sql_of_string ip; a; b; c; x; y;
                sql_of_string userAgent; sql_of_string referer].
Proof.
  unfold bind_arguments. rewrite bind_each_click.
  destruct (bind_each 9 (location_arguments location) false
              [SText linkId; sql_of_string ip]) as [[named mid] |] eqn:E; [| discriminate].
  apply bind_each_inv in E. destruct E as (ext & -> & _ & Hany).
  rewrite bind_each_strings.
  destruct (S (length _) <? 9)%nat eqn:L1; [| discriminate].
  destruct (length _ <? 9)%nat eqn:L2; [discriminate |].
  intros H. inversion H; subst bound; clear H.
  apply Nat.ltb_lt in L1. apply Nat.ltb_ge in L2.
  rewrite !length_app in L2. simpl in L1, L2.
  assert (Hlen : length ext = 5%nat) by lia.
  destruct ext as [| a [| b [| c [| x [| y [| z ext]]]]]]; try discriminate Hlen.
  exists a, b, c, x, y. split; [| reflexivity].
  rewrite (Hany 5%nat []) by (simpl; lia). reflexivity.
Qed.

Lemma bindable_click_arguments linkId ip location userAgent referer values :
  bind_arguments 5 (location_arguments location) = Ok values ->
  exists a b c x y,
    values = [a; b; c; x; y]
    /\ bind_arguments 9 (click_arguments linkId ip location userAgent referer)
       = Ok [SText linkId; sql_of_string ip; a; b; c; x; y;
             sql_of_string userAgent; sql_of_string referer].
Proof.
  unfold bind_arguments.
  destruct (bind_each 5 (location_arguments location) false []) as [[named mid] |] eqn:E;
    [| discriminate].
  destruct (length mid <? 5)%nat eqn:L; [discriminate |].
  intros H. inversion H; subst mid; clear H.
  apply Nat.ltb_ge in L.
  apply bind_each_inv in E. destruct E as (ext & Hext & Hle & Hany).
  simpl in Hext. subst ext. specialize (Hle ltac:(simpl; lia)).
  assert (Hlen : length values = 5%nat) by lia.
  destruct values as [| a [| b [| c [| x [| y [| z values]]]]]]; try discriminate Hlen.
  exists a, b, c, x, y. split; [reflexivity |].
  rewrite bind_each_click.
  rewrite (Hany 9%nat [SText linkId; sql_of_string ip]) by (simpl; lia).
  rewrite bind_each_strings. reflexivity.
Qed.

Lemma bindable_or_not location : bindable location \/ ~ bindable location.
Proof.
  unfold bindable.
  destruct (bind_arguments 5 (location_arguments location)) as [values | e].
  - left. exists values. reflexivity.
  - right. intros [values H]. discriminate.
Qed.

(** The insert on the nine values of a click. *)
Lemma sql_insert_click_row P linkId ip a b c x y userAgent referer now d :
  sql_insert_click P [SText linkId; sql_of_string ip; a; b; c; x; y;
                      sql_of_string userAgent; sql_of_string referer] now d
  = if foreign_keys d && negb (existsb (has_link_id linkId) (links d))
    then (Throw (SqliteError "SQLITE_CONSTRAINT_FOREIGNKEY"), d)
    else (Ok tt,
          mkDatabase (links d)
            (clicks d ++ [Click.mk (clicks_seq d + 1) linkId ip
                                    (text_affinity P a) (text_affinity P b)
                                    (text_affinity P c)
                                    (real_affinity P x) (real_affinity P y)
                                    userAgent referer now])
            (clicks_seq d + 1) (foreign_keys d)).
Proof.
  unfold sql_insert_click. cbn [nth]. rewrite !text_column_string. reflexivity.
Qed.

(** [recordClick] on a location that is bound: the insert, then the update. *)
Lemma recordClick_bound P linkId ip location userAgent referer w a b c x y :
  bind_arguments 5 (location_arguments location) = Ok [a; b; c; x; y] ->
  recordClick P linkId ip location userAgent referer w
  = (run_statement
       (sql_insert_click P [SText linkId; sql_of_string ip; a; b; c; x; y;
                            sql_of_string userAgent; sql_of_string referer]) ;;;
     updateLinkClickCount linkId) w.
Proof.
  intros H.
  destruct (bindable_click_arguments linkId ip location userAgent referer _ H)
    as (a' & b' & c' & x' & y' & E & Hrun).
  inversion E; subst a' b' c' x' y'.
  unfold recordClick. unfold bind at 1, lift. rewrite Hrun. reflexivity.
Qed.

(** [recordClick] on a location that is not: it throws before any statement. *)
Lemma unbindable_throws P linkId ip location userAgent referer w :
  ~ bindable location ->
  exists e, recordClick P linkId ip location userAgent referer w = (Throw e, w).
Proof.
  intros Hnot. unfold recordClick, bind, lift.
  destruct (bind_arguments 9 (click_arguments linkId ip location userAgent referer))
    as [bound | e] eqn:E; [| eauto].
  exfalso. apply Hnot. apply click_arguments_bound in E.
  destruct E as (a & b & c & x & y & H & _). eexists. exact H.
Qed.

(** What a completed [recordClick] stored and wrote. *)
Lemma recordClick_row P linkId ip location userAgent referer w w' :
  recordClick P linkId ip location userAgent referer w = (Ok tt, w') ->
  exists country city region latitude longitude,
    bind_arguments 5 (location_arguments location)
    = Ok [country; city; region; latitude; longitude]
    /\ clicks (db w')
       = (clicks (db w)
          ++ [Click.mk (clicks_seq (db w) + 1) linkId ip
                       (text_affinity P country) (text_affinity P city)
                       (text_affinity P region)
                       (real_affinity P latitude) (real_affinity P longitude)
                       userAgent referer (clock w (statements w))])%list
    /\ links (db w') = map (bump_if linkId) (links (db w)).
Proof.
  intros H.
  destruct (bindable_or_not location) as [[values Hb] | Hnot].
  2: { destruct (unbindable_throws P linkId ip location userAgent referer w Hnot) as [e E].
       rewrite E in H. discriminate. }
  destruct (bindable_click_arguments linkId ip location userAgent referer _ Hb)
    as (a & b & c & x & y & -> & _).
  rewrite (recordClick_bound P linkId ip location userAgent referer w a b c x y Hb) in H.
  exists a, b, c, x, y. split; [exact Hb |].
  unfold updateLinkClickCount in H.
  apply bind_inv_ok in H. destruct H as ([] & w1 & Hins & Hupd).
  apply run_statement_inv_ok in Hins. destruct Hins as (_ & d & Hq & ->).
  apply run_statement_inv_ok in Hupd. destruct Hupd as (_ & d' & Hq' & ->).
  inversion Hq'; subst d'; clear Hq'.
  rewrite sql_insert_click_row in Hq.
  destruct (foreign_keys (db w) && negb (existsb (has_link_id linkId) (links (db w))));
    [discriminate |].
  inversion Hq; subst d; clear Hq. split; reflexivity.
Qed.

(** What a completed [recordClick] wrote. *)
Lemma recordClick_ok P linkId ip location userAgent referer w w' :
  recordClick P linkId ip location userAgent referer w = (Ok tt, w') ->
  (exists click,
      clicks (db w') = (clicks (db w) ++ [click])%list
      /\ Click.link_id click = linkId
      /\ Click.ip_address click = ip
      /\ Click.id click = (clicks_seq (db w) + 1)%Z)
  /\ links (db w') = map (bump_if linkId) (links (db w)).
Proof.
  intros H. apply recordClick_row in H.
  destruct H as (a & b & c & x & y & _ & Hclicks & Hlinks).
  split; [| exact Hlinks].
  eexists. split; [exact Hclicks |]. repeat split.
Qed.

Lemma redirect_inv_ok P url status w response w' :
  redirect P url status w = (Ok response, w') ->
  response = Redirect url status /\ w' = w /\ URL_parse P url <> None.
Proof.
  unfold redirect. destruct (URL_parse P url); intros H; inversion H.
  repeat split. discriminate.
Qed.

(** The steps of the [try] block that can throw are the three statements
    (an engine fault), the binding of the resolved location, and the redirect
    (a destination that does not parse); when none does, the block
    completes. *)
Lemma track_try_completes P request shortCode w link :
  sql_link_by_short_code shortCode (db w) = Some link ->
  (forall k, (k < 3)%nat -> faults w (k + statements w) = false) ->
  URL_parse P (Link.original_url link) <> None ->
  (forall location w1,
      getLocationFromIP P (string_or (getClientIP (Request.headers request)) "127.0.0.1")
                        (after_statement w (db w)) = (Ok location, w1) ->
      bindable location) ->
  exists w',
    track_try P request shortCode w = (Ok (Redirect (Link.original_url link) 302), w').
Proof.
  intros Hlink Hf Hurl Hbind.
  assert (F0 := Hf 0%nat ltac:(lia)). assert (F1 := Hf 1%nat ltac:(lia)).
  assert (F2 := Hf 2%nat ltac:(lia)).
  unfold track_try, getLinkByShortCode.
  assert (E0 : run_statement (query (sql_link_by_short_code shortCode)) w
               = (Ok (Some link), after_statement w (db w))).
  { rewrite run_statement_sound by exact F0. unfold query. simpl. rewrite Hlink.
    reflexivity. }
  rewrite (bind_ok _ _ _ _ _ E0).
  destruct (getLocationFromIP_total P
              (string_or (getClientIP (Request.headers request)) "127.0.0.1")
              (after_statement w (db w))) as (location & w1 & Hloc & Hdb & Hfa & _ & Hst).
  rewrite (bind_ok _ _ _ _ _ Hloc).
  specialize (Hbind location w1 Hloc). destruct Hbind as [values Hb].
  destruct (bindable_click_arguments "" None location None None _ Hb)
    as (a & b & c & x & y & -> & _).
  assert (Hex : existsb (has_link_id (Link.id link)) (links (db w1)) = true).
  { rewrite Hdb. simpl. apply existsb_exists. exists link.
    apply find_some in Hlink. split; [tauto | apply has_link_id_refl]. }
  assert (G1 : faults w1 (statements w1) = false) by (rewrite Hfa, Hst; exact F1).
  assert (G2 : faults w1 (S (statements w1)) = false) by (rewrite Hfa, Hst; exact F2).
  unfold bind at 1. rewrite (recordClick_bound P _ _ location _ _ w1 a b c x y Hb).
  unfold updateLinkClickCount, bind, run_statement.
  rewrite G1, sql_insert_click_row, Hex, andb_false_r.
  cbn [faults statements after_statement]. rewrite G2.
  unfold redirect. destruct (URL_parse P (Link.original_url link)); [| congruence].
  eexists. reflexivity.
Qed.

(** C1.  When the short code resolves to a link and no step of the handler
    throws, the request appends exactly one click row, of that link, raises the
    [click_count] of that link by exactly 1 (rows with another id stay as they
    were), and answers with a 302 redirect to the link's [original_url]. *)
Theorem track_GET_records_click (P : Platform) (request : Request.t)
    (shortCode : string) (w w' : World) (link : Link.t) (response : HttpResponse) :
  sql_link_by_short_code shortCode (db w) = Some link ->
  track_try P request shortCode w = (Ok response, w') ->
  track_GET P request shortCode w = (Ok response, w')
  /\ response = Redirect (Link.original_url link) 302
  /\ (exists click,
        clicks (db w') = (clicks (db w) ++ [click])%list
        /\ Click.link_id click = Link.id link)
  /\ links (db w') = map (bump_if (Link.id link)) (links (db w))
  /\ sql_link_by_short_code shortCode (db w') = Some (bump link)
  /\ Link.click_count (bump link) = (Link.click_count link + 1)%Z
  /\ (forall l, Link.id l <> Link.id link -> bump_if (Link.id link) l = l).
Proof.
  intros Hlink Hrun.
  split; [unfold track_GET; apply (try_catch_ok _ _ _ _ _ Hrun) |].
  unfold track_try, getLinkByShortCode in Hrun.
  apply bind_inv_ok in Hrun. destruct Hrun as (found & w0 & Hfind & Hrun).
  apply run_statement_inv_ok in Hfind. destruct Hfind as (_ & d0 & Hq & ->).
  unfold query in Hq. rewrite Hlink in Hq. inversion Hq; subst found d0; clear Hq.
  apply bind_inv_ok in Hrun. destruct Hrun as (location & w1 & Hloc & Hrun).
  destruct (getLocationFromIP_total P
              (string_or (getClientIP (Request.headers request)) "127.0.0.1")
              (after_statement w (db w))) as (location' & w1' & Hloc' & Hdb1 & _).
  rewrite Hloc' in Hloc. inversion Hloc; subst location' w1'; clear Hloc.
  apply bind_inv_ok in Hrun. destruct Hrun as ([] & w2 & Hrec & Hrun).
  apply recordClick_ok in Hrec. destruct Hrec as ((click & Hclicks & Hid & _) & Hlinks).
  apply redirect_inv_ok in Hrun. destruct Hrun as (-> & -> & _).
  rewrite Hdb1 in Hclicks, Hlinks. simpl in Hclicks, Hlinks.
  split; [reflexivity |].
  split; [exists click; auto |].
  split; [exact Hlinks |].
  split.
  - unfold sql_link_by_short_code in *. rewrite Hlinks.
    rewrite find_short_code_map by (intro l; apply bump_if_keeps).
    rewrite Hlink. simpl. rewrite bump_if_same. reflexivity.
  - split; [reflexivity |].
    intros l Hne. unfold bump_if, has_link_id.
    destruct (String.eqb_spec (Link.id l) (Link.id link)); [contradiction | reflexivity].
Qed.

Lemma track_GET_records_click_witness :
  fst (track_GET basic_platform plain_request "uuuuuuuu" (quiet_world blog_database))
  = Ok (Redirect "https://example.com" 302)
  /\ length (clicks (db (snd (track_GET basic_platform plain_request "uuuuuuuu"
                                (quiet_world blog_database))))) = 1%nat.
Proof.
  pose proof (track_GET_records_click basic_platform plain_request "uuuuuuuu"
                (quiet_world blog_database)
                (snd (track_try basic_platform plain_request "uuuuuuuu"
                        (quiet_world blog_database)))
                blog_link (Redirect "https://example.com" 302)
                eq_refl eq_refl) as (Hrun & _).
  rewrite Hrun. split; reflexivity.
Defined.




(** The bare look-up and redirect of the [catch] block. *)
Lemma track_fallback_cases P shortCode w :
  exists r,
    track_fallback P shortCode w = (Ok r, after_statement w (db w))
    /\ ((exists link,
           faults w (statements w) = false
           /\ sql_link_by_short_code shortCode (db w) = Some link
           /\ URL_parse P (Link.original_url link) <> None
           /\ r = Some (Redirect (Link.original_url link) 302))
        \/ (r = None
            /\ (faults w (statements w) = true
                \/ sql_link_by_short_code shortCode (db w) = None
                \/ exists link,
                     sql_link_by_short_code shortCode (db w) = Some link
                     /\ URL_parse P (Link.original_url link) = None))).
Proof.
  unfold track_fallback, try_catch, getLinkByShortCode, bind, run_statement, query.
  destruct (faults w (statements w)) eqn:Hf.
  { exists None. split; [reflexivity | right; auto]. }
  destruct (sql_link_by_short_code shortCode (db w)) as [link |] eqn:Hl.
  2: { exists None. split; [reflexivity | right; auto]. }
  unfold redirect. destruct (URL_parse P (Link.original_url link)) eqn:Hu.
  - eexists. split; [reflexivity |]. left. exists link. repeat split; congruence.
  - exists None. split; [reflexivity |]. right. split; [reflexivity |].
    right. right. exists link. auto.
Qed.





(** ** Deleting a link *)

Lemma existsb_filter_negb {A : Type} (p : A -> bool) l :
  existsb p (filter (fun x => negb (p x)) l) = false.
Proof.
  induction l as [| x l IH]; simpl; [reflexivity |].
  destruct (p x) eqn:E; simpl; [exact IH | rewrite E; exact IH].
Qed.

Lemma filter_positive_find {A : Type} (p : A -> bool) l :
  (0 <? length (filter p l))%nat = true <-> find p l <> None.
Proof.
  induction l as [| x l IH]; simpl.
  - split; [discriminate | congruence].
  - destruct (p x); simpl; [split; [discriminate | reflexivity] | exact IH].
Qed.

(** [deleteLink] statement by statement: the clicks go first, the link
    second. *)
Lemma deleteLink_run id w :
  faults w (statements w) = false ->
  let w1 := after_statement w (sql_delete_clicks id (db w)) in
  deleteLink id w
  = if faults w (S (statements w))
    then (Throw (SqliteError "SQLITE_ERROR"), after_statement w1 (db w1))
    else (Ok (0 <? length (filter (has_link_id id) (links (db w))))%nat,
          after_statement w1 (without_link id (db w))).
Proof.
  intros Hf w1. unfold deleteLink.
  rewrite (bind_ok _ _ w tt w1) by (rewrite run_statement_sound by exact Hf; reflexivity).
  unfold bind, run_statement. subst w1. simpl.
  destruct (faults w (S (statements w))); [reflexivity |].
  unfold sql_delete_link, sql_delete_clicks. simpl.
  rewrite existsb_filter_negb, andb_false_r. reflexivity.
Qed.

Lemma links_DELETE_run request id w :
  Request.id_param request = Some id ->
  id <> "" ->
  faults w (statements w) = false ->
  let w1 := after_statement w (sql_delete_clicks id (db w)) in
  links_DELETE request w
  = if faults w (S (statements w))
    then (Ok (Json (PFailure "Failed to delete link") 500),
          logged (after_statement w1 (db w1)) "Error deleting link:"
                 (SqliteError "SQLITE_ERROR"))
    else if (0 <? length (filter (has_link_id id) (links (db w))))%nat
    then (Ok (Json PSuccess 200), after_statement w1 (without_link id (db w)))
    else (Ok (Json (PFailure "Link not found") 404),
          after_statement w1 (without_link id (db w))).
Proof.
  intros Hid Hne Hf w1. unfold links_DELETE. rewrite Hid.
  assert (Hn : nonempty id = true) by (destruct id; [congruence | reflexivity]).
  rewrite Hn. unfold try_catch, bind at 1.
  rewrite (deleteLink_run id w Hf). fold w1.
  destruct (faults w (S (statements w))); [reflexivity |].
  destruct (0 <? _)%nat; reflexivity.
Qed.

(** C7, as the code has it.  For a non-empty id whose first statement the
    engine runs: the clicks of the link are deleted first (they are gone even
    when the delete of the link row then fails), the link row second; when both
    statements run, the endpoint answers success exactly when a link row was
    removed and 404 when no link has that id, and no click of that id remains.
    An absent or empty id is answered with 400 and nothing is deleted. *)
Theorem links_DELETE_cascade (request : Request.t) (id : string) (w : World) :
  Request.id_param request = Some id ->
  id <> "" ->
  faults w (statements w) = false ->
  let run := links_DELETE request w in
  clicks (db (snd run)) = filter (fun c => negb (of_link id c)) (clicks (db w))
  /\ (forall c, In c (clicks (db (snd run))) -> Click.link_id c <> id)
  /\ (faults w (S (statements w)) = true ->
      fst run = Ok (Json (PFailure "Failed to delete link") 500)
      /\ links (db (snd run)) = links (db w))
  /\ (faults w (S (statements w)) = false ->
      links (db (snd run)) = filter (fun l => negb (has_link_id id l)) (links (db w))
      /\ (fst run = Ok (Json PSuccess 200)
          <-> (length (links (db (snd run))) < length (links (db w)))%nat)
      /\ (sql_link_by_id id (db w) <> None -> fst run = Ok (Json PSuccess 200))
      /\ (sql_link_by_id id (db w) = None ->
          fst run = Ok (Json (PFailure "Link not found") 404)
          /\ links (db (snd run)) = links (db w)))
  /\ (forall r : Request.t,
        Request.id_param r = None \/ Request.id_param r = Some "" ->
        links_DELETE r w = (Ok (Json (PFailure "Link ID is required") 400), w)).
Proof.
  intros Hid Hne Hf run.
  assert (Gone : forall c,
             In c (filter (fun c => negb (of_link id c)) (clicks (db w))) ->
             Click.link_id c <> id).
  { intros c Hc. apply filter_In in Hc. destruct Hc as [_ Hc].
    unfold of_link in Hc. destruct (String.eqb_spec (Click.link_id c) id);
      [discriminate | assumption]. }
  pose proof (links_DELETE_run request id w Hid Hne Hf) as E. fold run in E.
  destruct (faults w (S (statements w))) eqn:F2.
  - rewrite E. simpl. repeat split; auto; try discriminate.
    intros r [Hr | Hr]; unfold links_DELETE; rewrite Hr; reflexivity.
  - pose proof (filter_positive_find (has_link_id id) (links (db w))) as Hpos.
    pose proof (filter_length (has_link_id id) (links (db w))) as Hlen.
    unfold sql_link_by_id.
    destruct (0 <? length (filter (has_link_id id) (links (db w))))%nat eqn:Epos;
      rewrite E; simpl.
    + split; [reflexivity |]. split; [exact Gone |]. split; [discriminate |].
      split.
      * intros _. split; [reflexivity |]. split; [| split].
        -- split; [intros _ | reflexivity]. apply Nat.ltb_lt in Epos. lia.
        -- reflexivity.
        -- intros Hnone. destruct Hpos as [Hpos _]. destruct (Hpos eq_refl Hnone).
      * intros r [Hr | Hr]; unfold links_DELETE; rewrite Hr; reflexivity.
    + split; [reflexivity |]. split; [exact Gone |]. split; [discriminate |].
      apply Nat.ltb_ge in Epos.
      split.
      * intros _. split; [reflexivity |]. split; [| split].
        -- split; [discriminate | lia].
        -- intros Hsome. destruct Hpos as [_ Hpos]. specialize (Hpos Hsome).
           discriminate.
        -- intros Hnone. split; [reflexivity |].
           assert (Hall : length (filter (fun l => negb (has_link_id id l)) (links (db w)))
                          = length (links (db w))) by lia.
           apply filter_length_forallb in Hall.
           apply forallb_filter_id. exact Hall.
      * intros r [Hr | Hr]; unfold links_DELETE; rewrite Hr; reflexivity.
Qed.

Lemma links_DELETE_cascade_witness :
  fst (links_DELETE (delete_request "id-blog") (quiet_world visited_database))
  = Ok (Json PSuccess 200)
  /\ clicks (db (snd (links_DELETE (delete_request "id-blog")
                        (quiet_world visited_database)))) = [].
Proof.
  assert (Hne : "id-blog" <> "") by discriminate.
  destruct (links_DELETE_cascade (delete_request "id-blog") "id-blog"
              (quiet_world visited_database) eq_refl Hne eq_refl)
    as (Hclicks & _ & _ & Hok & _).
  destruct (Hok eq_refl) as (_ & _ & Hsuccess & _).
  split; [apply Hsuccess; discriminate | exact Hclicks].
Defined.

(** C7 as stated fails on the empty id: no link has it, and the endpoint
    answers 400 "Link ID is required", not 404. *)
Lemma links_DELETE_empty_id_is_400 :
  sql_link_by_id "" (db (quiet_world visited_database)) = None
  /\ fst (links_DELETE (delete_request "") (quiet_world visited_database))
     = Ok (Json (PFailure "Link ID is required") 400)
  /\ fst (links_DELETE (delete_request "") (quiet_world visited_database))
     <> Ok (Json (PFailure "Link not found") 404).
Proof. repeat split. discriminate. Qed.

(** ** Creating a link *)

Lemma nanoid_chars_length bytes from size :
  String.length (nanoid_chars bytes from size) = size.
Proof.
  revert from. induction size as [| n IH]; intros from; simpl; [reflexivity |].
  rewrite IH. reflexivity.
Qed.

Lemma createLinkSchema_parse_valid P body name originalUrl :
  valid_payload P body name originalUrl ->
  createLinkSchema_parse P body = Ok (name, originalUrl).
Proof.
  intros (fields & -> & Hn & [Hlo Hhi] & Hu & Hp). unfold createLinkSchema_parse.
  rewrite Hn, Hu. unfold name_issues, originalUrl_issues, zod_string.
  assert (E1 : (String.length name <? 1)%nat = false) by (apply Nat.ltb_ge; lia).
  assert (E2 : (100 <? String.length name)%nat = false) by (apply Nat.ltb_ge; lia).
  rewrite E1, E2. destruct (URL_parse P originalUrl); [reflexivity | congruence].
Qed.

Lemma createLinkSchema_parse_inv P body name originalUrl :
  createLinkSchema_parse P body = Ok (name, originalUrl) ->
  valid_payload P body name originalUrl.
Proof.
  unfold createLinkSchema_parse, valid_payload.
  destruct body as [| | | | | | fields]; try discriminate.
  unfold name_issues, originalUrl_issues, zod_string.
  destruct (field fields "name") as [| | | | n | |] eqn:Hn; try discriminate.
  destruct (String.length n <? 1)%nat eqn:E1; [discriminate |].
  destruct (100 <? String.length n)%nat eqn:E2; [discriminate |].
  destruct (field fields "originalUrl") as [| | | | u | |] eqn:Hu; try discriminate.
  destruct (URL_parse P u) eqn:Hp; [| discriminate].
  simpl. intros H. inversion H; subst. exists fields.
  apply Nat.ltb_ge in E1, E2. repeat split; auto; try lia. congruence.
Qed.

Ltac field_issues :=
  repeat (apply Forall_cons; [simpl; auto |]); apply Forall_nil.

Lemma name_issues_field v : Forall field_level (name_issues v).
Proof.
  unfold name_issues, zod_string, field_level.
  destruct v as [| | | | s | |]; try field_issues.
  destruct (String.length s <? 1)%nat, (100 <? String.length s)%nat; simpl;
    field_issues.
Qed.

Lemma originalUrl_issues_field P v : Forall field_level (originalUrl_issues P v).
Proof.
  unfold originalUrl_issues, zod_string, field_level.
  destruct v as [| | | | s | |]; try field_issues.
  destruct (URL_parse P s); field_issues.
Qed.

(** A payload the schema refuses is refused with a [ZodError] that carries
    at least one issue; on an object, every issue names the field at fault. *)
Lemma createLinkSchema_parse_throw P body e :
  createLinkSchema_parse P body = Throw e ->
  exists issues,
    e = ZodError issues /\ issues <> []
    /\ (forall fields, body = JObj fields -> Forall field_level issues).
Proof.
  unfold createLinkSchema_parse.
  destruct body as [| | | | | | fields];
    try (intros H; inversion H; eexists; split; [reflexivity |];
         split; [discriminate | intros ? ?; discriminate]).
  pose proof (name_issues_field (field fields "name")) as F1.
  pose proof (originalUrl_issues_field P (field fields "originalUrl")) as F2.
  assert (F : Forall field_level
                (name_issues (field fields "name")
                 ++ originalUrl_issues P (field fields "originalUrl"))%list)
    by (apply Forall_app; auto).
  assert (N1 : name_issues (field fields "name") = [] ->
               exists n, field fields "name" = JStr n).
  { unfold name_issues, zod_string. destruct (field fields "name"); try discriminate.
    eauto. }
  assert (N2 : originalUrl_issues P (field fields "originalUrl") = [] ->
               exists u, field fields "originalUrl" = JStr u).
  { unfold originalUrl_issues, zod_string.
    destruct (field fields "originalUrl"); try discriminate. eauto. }
  destruct (name_issues (field fields "name")
            ++ originalUrl_issues P (field fields "originalUrl"))%list
    as [| i issues] eqn:E.
  - apply app_eq_nil in E. destruct E as [E1 E2].
    destruct (N1 E1) as [n ->]. destruct (N2 E2) as [u ->]. discriminate.
  - intros H.
    assert (e = ZodError (i :: issues)).
    { destruct (field fields "name"); try (inversion H; reflexivity);
        destruct (field fields "originalUrl"); inversion H; reflexivity. }
    subst e. eexists. split; [reflexivity |]. split; [discriminate |].
    intros ? _. exact F.
Qed.

Lemma find_app_fresh {A : Type} (p : A -> bool) l x :
  existsb p l = false -> p x = true -> find p (l ++ [x]) = Some x.
Proof.
  induction l as [| y l IH]; simpl; intros H Hx.
  - rewrite Hx. reflexivity.
  - apply orb_false_iff in H. destruct H as [Hy H]. rewrite Hy. auto.
Qed.

Lemma existsb_false_forall {A : Type} (p : A -> bool) l :
  existsb p l = false <-> forall x, In x l -> p x = false.
Proof.
  split.
  - intros H x Hx. destruct (p x) eqn:E; [| reflexivity].
    assert (existsb p l = true) by (apply existsb_exists; eauto). congruence.
  - intros H. destruct (existsb p l) eqn:E; [| reflexivity].
    apply existsb_exists in E. destruct E as (x & Hx & Hp).
    rewrite (H x Hx) in Hp. discriminate.
Qed.

Section CreateLink.
Variables (name originalUrl : string) (w : World).

Let id := nanoid_chars (entropy w) (drawn w) 21.
Let shortCode := nanoid_chars (entropy w) (drawn w + 21) 8.
Let link := Link.mk id name originalUrl shortCode (clock w (statements w)) 0.
Let w2 := after_draw (after_draw w 21) 8.

Lemma createLink_draws :
  createLink name originalUrl w
  = (run_statement (sql_insert_link id name originalUrl shortCode) ;;;
     run_statement (query (sql_link_by_id id))) w2.
Proof.
  unfold createLink.
  rewrite (bind_ok _ _ w id (after_draw w 21)) by reflexivity.
  rewrite (bind_ok _ _ (after_draw w 21) shortCode w2) by reflexivity.
  reflexivity.
Qed.

Lemma createLink_collision :
  faults w (statements w) = false ->
  collides id shortCode (db w) = true ->
  exists code,
    createLink name originalUrl w
    = (Throw (SqliteError code), after_statement w2 (db w)).
Proof.
  intros Hf Hc. rewrite createLink_draws.
  assert (E : exists code,
             run_statement (sql_insert_link id name originalUrl shortCode) w2
             = (Throw (SqliteError code), after_statement w2 (db w))).
  { rewrite run_statement_sound by exact Hf.
    change (db w2) with (db w). unfold sql_insert_link, collides in *.
    destruct (existsb (has_link_id id) (links (db w))); [eexists; reflexivity |].
    simpl in Hc. rewrite Hc. eexists; reflexivity. }
  destruct E as [e E]. exists e. apply (bind_throw _ _ _ _ _ E).
Qed.

Lemma createLink_fresh :
  faults w (statements w) = false ->
  faults w (S (statements w)) = false ->
  collides id shortCode (db w) = false ->
  createLink name originalUrl w
  = (Ok (Some link),
     after_statement (after_statement w2 (with_link link (db w))) (with_link link (db w))).
Proof.
  intros Hf Hf' Hc. rewrite createLink_draws.
  unfold collides in Hc. apply orb_false_iff in Hc. destruct Hc as [Hc1 Hc2].
  assert (E : run_statement (sql_insert_link id name originalUrl shortCode) w2
              = (Ok tt, after_statement w2 (with_link link (db w)))).
  { rewrite run_statement_sound by exact Hf.
    change (db w2) with (db w). change (statements w2) with (statements w).
    change (clock w2) with (clock w).
    unfold sql_insert_link. rewrite Hc1, Hc2. reflexivity. }
  rewrite (bind_ok _ _ _ _ _ E).
  rewrite run_statement_sound by exact Hf'.
  unfold query, sql_link_by_id, with_link. cbn [fst snd db links after_statement].
  pose proof (find_app_fresh (has_link_id id) (links (db w)) link Hc1
                (String.eqb_refl id)) as Found.
  rewrite Found. reflexivity.
Qed.
End CreateLink.

Lemma links_POST_invalid P request body w :
  Request.body request = Some body ->
  (forall name originalUrl, ~ valid_payload P body name originalUrl) ->
  exists issues,
    issues <> []
    /\ (forall fields, body = JObj fields -> Forall field_level issues)
    /\ links_POST P request w = (Ok (Json (PInvalid "Invalid input" issues) 400), w).
Proof.
  intros Hb Hbad.
  destruct (createLinkSchema_parse P body) as [[name originalUrl] | e] eqn:E.
  - destruct (Hbad name originalUrl (createLinkSchema_parse_inv _ _ _ _ E)).
  - destruct (createLinkSchema_parse_throw P body e E) as (issues & -> & Hne & Hfield).
    exists issues. split; [exact Hne | split; [exact Hfield |]].
    unfold links_POST. rewrite Hb. unfold try_catch, bind, ret, lift. rewrite E.
    reflexivity.
Qed.

Lemma links_POST_fresh P request w body name originalUrl :
  Request.body request = Some body ->
  createLinkSchema_parse P body = Ok (name, originalUrl) ->
  faults w (statements w) = false ->
  faults w (S (statements w)) = false ->
  let id := nanoid_chars (entropy w) (drawn w) 21 in
  let shortCode := nanoid_chars (entropy w) (drawn w + 21) 8 in
  let link := Link.mk id name originalUrl shortCode (clock w (statements w)) 0 in
  collides id shortCode (db w) = false ->
  links_POST P request w
  = (Ok (Json (PCreated link (Request.origin request ++ "/track/" ++ shortCode)) 201),
     after_statement
       (after_statement (after_draw (after_draw w 21) 8) (with_link link (db w)))
       (with_link link (db w))).
Proof.
  intros Hb Hparse Hf Hf' id shortCode link Hc.
  unfold links_POST. rewrite Hb. apply try_catch_ok.
  rewrite (bind_ok _ _ w body w) by reflexivity.
  rewrite (bind_ok _ _ w (name, originalUrl) w) by (unfold lift; rewrite Hparse; reflexivity).
  rewrite (bind_ok _ _ _ _ _ (createLink_fresh name originalUrl w Hf Hf' Hc)).
  reflexivity.
Qed.

Lemma links_POST_taken P request w body name originalUrl :
  Request.body request = Some body ->
  createLinkSchema_parse P body = Ok (name, originalUrl) ->
  faults w (statements w) = false ->
  collides (nanoid_chars (entropy w) (drawn w) 21)
           (nanoid_chars (entropy w) (drawn w + 21) 8) (db w) = true ->
  exists w',
    links_POST P request w = (Ok (Json (PFailure "Failed to create link") 500), w')
    /\ db w' = db w.
Proof.
  intros Hb Hparse Hf Hc.
  destruct (createLink_collision name originalUrl w Hf Hc) as [code E].
  unfold links_POST. rewrite Hb.
  erewrite try_catch_throw.
  2: { rewrite (bind_ok _ _ w body w) by reflexivity.
       rewrite (bind_ok _ _ w (name, originalUrl) w)
         by (unfold lift; rewrite Hparse; reflexivity).
       apply (bind_throw _ _ _ _ _ E). }
  eexists. split; reflexivity.
Qed.

(** C9, as the code has it.  For a payload that passes validation, with
    the engine running both statements: the identifier has 21 and the short
    code 8 symbols drawn from the random bytes; when neither is taken by an
    existing link the endpoint answers 201 with the created link and its
    tracking URL, the link is stored and is what a look-up of its short code
    returns, and that short code is borne by no other link; when one of them is
    taken the insert is refused, the answer is 500 and the database is as it
    was.  A body that is JSON and fails validation is answered with 400 and a
    non-empty list of issues (naming the field at fault on an object), and
    the world is as it was.  A body that is not JSON is answered with 500
    "Failed to create link", and the database is as it was. *)
Theorem links_POST_creates (P : Platform) (request : Request.t) (w : World)
    (body : JsValue) (name originalUrl : string) :
  Request.body request = Some body ->
  valid_payload P body name originalUrl ->
  faults w (statements w) = false ->
  faults w (S (statements w)) = false ->
  let id := nanoid_chars (entropy w) (drawn w) 21 in
  let shortCode := nanoid_chars (entropy w) (drawn w + 21) 8 in
  let link := Link.mk id name originalUrl shortCode (clock w (statements w)) 0 in
  let run := links_POST P request w in
  String.length id = 21%nat
  /\ String.length shortCode = 8%nat
  /\ (collides id shortCode (db w) = false ->
      fst run
      = Ok (Json (PCreated link (Request.origin request ++ "/track/" ++ shortCode)) 201)
      /\ db (snd run) = with_link link (db w)
      /\ sql_link_by_short_code shortCode (db (snd run)) = Some link)
  /\ (collides id shortCode (db w) = true ->
      fst run = Ok (Json (PFailure "Failed to create link") 500)
      /\ db (snd run) = db w)
  /\ (forall data trackingUrl,
        fst run = Ok (Json (PCreated data trackingUrl) 201) ->
        forall l, In l (links (db w)) -> Link.short_code l <> Link.short_code data)
  /\ (forall r b,
        Request.body r = Some b ->
        (forall n u, ~ valid_payload P b n u) ->
        exists issues,
          issues <> []
          /\ (forall fields, b = JObj fields -> Forall field_level issues)
          /\ links_POST P r w = (Ok (Json (PInvalid "Invalid input" issues) 400), w))
  /\ (forall r,
        Request.body r = None ->
        fst (links_POST P r w) = Ok (Json (PFailure "Failed to create link") 500)
        /\ db (snd (links_POST P r w)) = db w).
Proof.
  intros Hb Hvalid Hf Hf' id shortCode link run.
  split; [apply nanoid_chars_length |]. split; [apply nanoid_chars_length |].
  assert (Hparse := createLinkSchema_parse_valid P body name originalUrl Hvalid).
  assert (Fresh : collides id shortCode (db w) = false ->
                  fst run
                  = Ok (Json (PCreated link
                                (Request.origin request ++ "/track/" ++ shortCode)) 201)
                  /\ db (snd run) = with_link link (db w)).
  { intros Hc. subst run.
    rewrite (links_POST_fresh P request w body name originalUrl Hb Hparse Hf Hf' Hc).
    split; reflexivity. }
  assert (Taken : collides id shortCode (db w) = true ->
                  fst run = Ok (Json (PFailure "Failed to create link") 500)
                  /\ db (snd run) = db w).
  { intros Hc. subst run.
    destruct (links_POST_taken P request w body name originalUrl Hb Hparse Hf Hc)
      as (w' & E & Hdb).
    rewrite E. split; [reflexivity | exact Hdb]. }
  split; [| split; [exact Taken | split; [| split]]].
  - intros Hc. destruct (Fresh Hc) as [Hresp Hdb]. split; [exact Hresp |].
    split; [exact Hdb |]. rewrite Hdb.
    unfold collides in Hc. apply orb_false_iff in Hc. destruct Hc as [_ Hc].
    unfold sql_link_by_short_code, with_link. cbn [links].
    apply find_app_fresh; [exact Hc | apply String.eqb_refl].
  - intros data trackingUrl Hresp l Hl.
    destruct (collides id shortCode (db w)) eqn:Hc.
    + destruct (Taken eq_refl) as [E _]. rewrite E in Hresp. discriminate.
    + destruct (Fresh eq_refl) as [E _]. rewrite E in Hresp.
      inversion Hresp; subst data. cbn [Link.short_code link].
      unfold collides in Hc. apply orb_false_iff in Hc. destruct Hc as [_ Hc].
      pose proof (proj1 (existsb_false_forall _ _) Hc l Hl) as Hl'.
      unfold has_short_code in Hl'.
      destruct (String.eqb_spec (Link.short_code l) shortCode); [discriminate | assumption].
  - intros r b Hr Hbad. apply links_POST_invalid; assumption.
  - intros r Hr. unfold links_POST. rewrite Hr. split; reflexivity.
Qed.

Lemma links_POST_creates_witness :
  fst (links_POST basic_platform (post_request blog_payload) (quiet_world empty_database))
  = Ok (Json (PCreated
                (Link.mk "uuuuuuuuuuuuuuuuuuuuu" "Blog" "https://example.com" "uuuuuuuu"
                         1000000 0)
                "http://localhost:3000/track/uuuuuuuu") 201).
Proof.
  assert (V : valid_payload basic_platform blog_payload "Blog" "https://example.com").
  { eexists. split; [reflexivity |]. simpl. repeat split; try lia. discriminate. }
  destruct (links_POST_creates basic_platform (post_request blog_payload)
              (quiet_world empty_database) blog_payload "Blog" "https://example.com"
              eq_refl V eq_refl eq_refl) as (_ & _ & Hfresh & _).
  destruct (Hfresh eq_refl) as [E _]. exact E.
Defined.

(** C9 as stated fails when the random short code is already taken: the
    payload is valid, yet the endpoint answers 500 and creates nothing. *)
Lemma links_POST_collision_is_500 :
  createLinkSchema_parse basic_platform blog_payload = Ok ("Blog", "https://example.com")
  /\ sql_link_by_short_code "uuuuuuuu" (db (quiet_world blog_database)) = Some blog_link
  /\ fst (links_POST basic_platform (post_request blog_payload) (quiet_world blog_database))
     = Ok (Json (PFailure "Failed to create link") 500)
  /\ db (snd (links_POST basic_platform (post_request blog_payload)
                (quiet_world blog_database)))
     = blog_database.
Proof. repeat split. Qed.

(** ** Analytics *)

Section Sorting.
Variable A : Type.
Variable before : A -> A -> bool.

Lemma insert_by_perm x l : Permutation (x :: l) (insert_by before x l).
Proof.
  induction l as [| y r IH]; simpl; [apply Permutation_refl |].
  destruct (before x y); [apply Permutation_refl |].
  apply perm_trans with (y :: x :: r); [apply perm_swap |].
  apply perm_skip. exact IH.
Qed.

Lemma sort_by_perm l : Permutation l (sort_by before l).
Proof.
  induction l as [| x r IH]; simpl; [apply perm_nil |].
  apply perm_trans with (x :: sort_by before r); [apply perm_skip; exact IH |].
  apply insert_by_perm.
Qed.

Lemma sort_by_length l : length (sort_by before l) = length l.
Proof. symmetry. apply Permutation_length, sort_by_perm. Qed.

Hypothesis before_total : forall a b, before a b = false -> before b a = true.
Hypothesis before_trans :
  forall a b c, before a b = true -> before b c = true -> before a c = true.

Let R (a b : A) : Prop := before a b = true.

Lemma insert_by_sorted x l : StronglySorted R l -> StronglySorted R (insert_by before x l).
Proof.
  induction 1 as [| y r Hr IH Hy]; simpl.
  - constructor; constructor.
  - destruct (before x y) eqn:E.
    + constructor; [constructor; assumption |].
      constructor; [exact E |].
      eapply Forall_impl; [| exact Hy]. intros z Hz. exact (before_trans _ _ _ E Hz).
    + constructor; [exact IH |].
      eapply Permutation_Forall; [apply insert_by_perm |].
      constructor; [exact (before_total _ _ E) | exact Hy].
Qed.

Lemma sort_by_sorted l : StronglySorted R (sort_by before l).
Proof.
  induction l as [| x r IH]; simpl; [constructor | apply insert_by_sorted; exact IH].
Qed.
End Sorting.

Lemma top_before_spec a b : top_before a b = true <-> ranks_before a b.
Proof.
  unfold top_before, ranks_before.
  rewrite orb_true_iff, andb_true_iff, Nat.ltb_lt, Nat.eqb_eq, Z.leb_le. reflexivity.
Qed.

Lemma top_before_total a b : top_before a b = false -> top_before b a = true.
Proof.
  intros H. apply top_before_spec.
  assert (N : ~ ranks_before a b) by (rewrite <- top_before_spec; congruence).
  unfold ranks_before in *. lia.
Qed.

Lemma top_before_trans a b c :
  top_before a b = true -> top_before b c = true -> top_before a c = true.
Proof.
  rewrite !top_before_spec. unfold ranks_before. lia.
Qed.

Lemma sql_top_links_ranked now d :
  exists ranked,
    sql_top_links now d = firstn 5 ranked
    /\ Permutation ranked (top_rows now d)
    /\ StronglySorted ranks_before ranked.
Proof.
  exists (sort_by top_before (top_rows now d)). split; [reflexivity |]. split.
  - apply Permutation_sym, sort_by_perm.
  - pose proof (sort_by_sorted _ top_before top_before_total top_before_trans
                  (top_rows now d)) as S.
    induction S as [| x l Hl IH Hx]; constructor; auto.
    eapply Forall_impl; [| exact Hx]. intros y. apply top_before_spec.
Qed.

Lemma run_query_sound {A : Type} (q : Database -> A) w :
  faults w (statements w) = false ->
  run_statement (query q) w = (Ok (q (db w)), after_statement w (db w)).
Proof. intros H. rewrite run_statement_sound by exact H. reflexivity. Qed.

Lemma run_timed_query_sound {A : Type} (q : Z -> Database -> A) w :
  faults w (statements w) = false ->
  run_statement (fun now d => (Ok (q now d), d)) w
  = (Ok (q (clock w (statements w)) (db w)), after_statement w (db w)).
Proof. intros H. rewrite run_statement_sound by exact H. reflexivity. Qed.

(** C8.  When the engine runs the four statements of the global summary,
    [totalClicks] is the number of rows of [clicks], and [topLinks] is the
    first 5 of a ranking of all links, each with its number of clicks in the
    seven days before the statement runs, ordered by that number descending
    and, among equals, by the all-time [click_count] descending. *)
Theorem getGlobalAnalytics_summary (w : World) :
  (forall k, (k < 4)%nat -> faults w (k + statements w) = false) ->
  let now := clock w (3 + statements w) in
  exists summary w',
    getGlobalAnalytics w = (Ok summary, w')
    /\ db w' = db w
    /\ GlobalAnalytics.totalLinks summary = length (links (db w))
    /\ GlobalAnalytics.totalClicks summary = length (clicks (db w))
    /\ exists ranked,
         GlobalAnalytics.topLinks summary = firstn 5 ranked
         /\ Permutation ranked
              (map (fun l => TopLink.mk l (recent_clicks_of now (db w) l)) (links (db w)))
         /\ StronglySorted ranks_before ranked
         /\ forall l,
              recent_clicks_of now (db w) l
              = length (filter (fun c => String.eqb (Click.link_id c) (Link.id l)
                                         && Z.leb (now - 7 * 86400) (Click.clicked_at c))
                               (clicks (db w))).
Proof.
  intros Hf now.
  assert (F0 := Hf 0%nat ltac:(lia)). assert (F1 := Hf 1%nat ltac:(lia)).
  assert (F2 := Hf 2%nat ltac:(lia)). assert (F3 := Hf 3%nat ltac:(lia)).
  unfold getGlobalAnalytics.
  rewrite (bind_ok _ _ _ _ _ (run_query_sound _ w F0)).
  rewrite (bind_ok _ _ _ _ _ (run_query_sound _ (after_statement w (db w)) F1)).
  rewrite (bind_ok _ _ _ _ _
             (run_query_sound _ (after_statement (after_statement w (db w)) (db w)) F2)).
  rewrite (bind_ok _ _ _ _ _
             (run_timed_query_sound sql_top_links
                (after_statement (after_statement (after_statement w (db w)) (db w)) (db w))
                F3)).
  eexists. eexists. split; [reflexivity |].
  split; [reflexivity |]. split; [reflexivity |]. split; [reflexivity |].
  destruct (sql_top_links_ranked now (db w)) as (ranked & E & Hperm & Hsorted).
  exists ranked. split; [exact E |]. split; [exact Hperm |]. split; [exact Hsorted |].
  reflexivity.
Qed.

Lemma getGlobalAnalytics_summary_witness :
  exists summary,
    fst (getGlobalAnalytics (quiet_world visited_database)) = Ok summary
    /\ GlobalAnalytics.totalClicks summary = 1%nat.
Proof.
  destruct (getGlobalAnalytics_summary (quiet_world visited_database) (fun _ _ => eq_refl))
    as (summary & w' & E & _ & _ & Hclicks & _).
  exists summary. rewrite E. split; [reflexivity | exact Hclicks].
Defined.

(** C10.  When the engine runs the four statements of the per-link
    summary, [totalClicks] is the length of the fetched click list, which holds
    exactly the click rows whose [link_id] is the given id; it is the same
    whatever the [links] table holds, so it differs from a link's [click_count]
    whenever that counter is not the number of stored click rows. *)
Theorem getLinkAnalytics_totalClicks (linkId : string) (w : World) :
  (forall k, (k < 4)%nat -> faults w (k + statements w) = false) ->
  exists analytics w',
    getLinkAnalytics linkId w = (Ok analytics, w')
    /\ LinkAnalytics.totalClicks analytics = length (LinkAnalytics.clicks analytics)
    /\ Permutation (LinkAnalytics.clicks analytics)
                   (filter (fun c => String.eqb (Click.link_id c) linkId) (clicks (db w)))
    /\ LinkAnalytics.totalClicks analytics
       = length (filter (fun c => String.eqb (Click.link_id c) linkId) (clicks (db w)))
    /\ (forall ls : list Link.t,
          exists analytics' w'',
            getLinkAnalytics linkId (relinked ls w) = (Ok analytics', w'')
            /\ LinkAnalytics.totalClicks analytics' = LinkAnalytics.totalClicks analytics)
    /\ (forall link : Link.t,
          Link.click_count link
          <> Z.of_nat (length (filter (fun c => String.eqb (Click.link_id c) linkId)
                                      (clicks (db w)))) ->
          Z.of_nat (LinkAnalytics.totalClicks analytics) <> Link.click_count link).
Proof.
  intros Hf.
  assert (Run : forall v : World,
             faults v = faults w -> statements v = statements w ->
             exists analytics v',
               getLinkAnalytics linkId v = (Ok analytics, v')
               /\ LinkAnalytics.totalClicks analytics
                  = length (sql_clicks_by_link linkId (db v))
               /\ LinkAnalytics.clicks analytics = sql_clicks_by_link linkId (db v)).
  { intros v Hfv Hsv.
    assert (F0 : faults v (statements v) = false)
      by (rewrite Hfv, Hsv; exact (Hf 0%nat ltac:(lia))).
    assert (F1 : faults v (S (statements v)) = false)
      by (rewrite Hfv, Hsv; exact (Hf 1%nat ltac:(lia))).
    assert (F2 : faults v (S (S (statements v))) = false)
      by (rewrite Hfv, Hsv; exact (Hf 2%nat ltac:(lia))).
    assert (F3 : faults v (S (S (S (statements v)))) = false)
      by (rewrite Hfv, Hsv; exact (Hf 3%nat ltac:(lia))).
    unfold getLinkAnalytics, getClicksByLinkId.
    rewrite (bind_ok _ _ _ _ _ (run_query_sound _ v F0)).
    rewrite (bind_ok _ _ _ _ _ (run_query_sound _ (after_statement v (db v)) F1)).
    rewrite (bind_ok _ _ _ _ _
               (run_query_sound _ (after_statement (after_statement v (db v)) (db v)) F2)).
    rewrite (bind_ok _ _ _ _ _
               (run_timed_query_sound (sql_daily_stats linkId)
                  (after_statement (after_statement (after_statement v (db v)) (db v)) (db v))
                  F3)).
    eexists. eexists. split; [reflexivity |]. split; reflexivity. }
  destruct (Run w eq_refl eq_refl) as (analytics & w' & E & Htotal & Hclicks).
  assert (Hcount : LinkAnalytics.totalClicks analytics
                   = length (filter (fun c => String.eqb (Click.link_id c) linkId)
                                    (clicks (db w)))).
  { rewrite Htotal. unfold sql_clicks_by_link. apply sort_by_length. }
  exists analytics, w'. split; [exact E |].
  split; [rewrite Htotal, Hclicks; reflexivity |].
  split; [rewrite Hclicks; apply Permutation_sym, sort_by_perm |].
  split; [exact Hcount |]. split.
  - intros ls. destruct (Run (relinked ls w) eq_refl eq_refl) as (a' & v' & E' & Ht' & _).
    exists a', v'. split; [exact E' |]. rewrite Ht', Hcount.
    unfold sql_clicks_by_link. rewrite sort_by_length. reflexivity.
  - intros link Hne. rewrite Hcount. congruence.
Qed.

Lemma getLinkAnalytics_totalClicks_witness :
  exists analytics,
    fst (getLinkAnalytics "id-blog" (quiet_world diverged_database)) = Ok analytics
    /\ LinkAnalytics.totalClicks analytics = 1%nat
    /\ Link.click_count blog_link = 0%Z.
Proof.
  destruct (getLinkAnalytics_totalClicks "id-blog" (quiet_world diverged_database)
              (fun _ _ => eq_refl))
    as (analytics & w' & E & _ & _ & Hcount & _).
  exists analytics. rewrite E. split; [reflexivity |]. split; [exact Hcount | reflexivity].
Defined.

(** ** Client metadata extractor: the client address *)

Lemma matches_seq_inv r1 r2 s :
  matches (RSeq r1 r2) s ->
  exists s1 s2, s = (s1 ++ s2)%list /\ matches r1 s1 /\ matches r2 s2.
Proof. intros H. inversion H; subst. eauto. Qed.

Lemma matches_alt_inv r1 r2 s :
  matches (RAlt r1 r2) s -> matches r1 s \/ matches r2 s.
Proof. intros H. inversion H; subst; auto. Qed.

Lemma matches_class_inv p s :
  matches (RClass p) s -> exists c, s = [c] /\ p c = true.
Proof. intros H. inversion H; subst. eauto. Qed.

Lemma matches_eps_inv s : matches REps s -> s = [].
Proof. intros H. inversion H. reflexivity. Qed.

Lemma matches_empty_inv s : matches REmpty s -> False.
Proof. intros H. inversion H. Qed.

Lemma nullable_spec r : nullable r = true <-> matches r [].
Proof.
  induction r as [| | p | r1 IH1 r2 IH2 | r1 IH1 r2 IH2]; simpl.
  - split; [discriminate | intros H; destruct (matches_empty_inv _ H)].
  - split; [constructor | reflexivity].
  - split; [discriminate |].
    intros H. apply matches_class_inv in H. destruct H as (c & E & _). discriminate.
  - rewrite andb_true_iff, IH1, IH2. split.
    + intros [H1 H2]. apply (matches_seq r1 r2 [] [] H1 H2).
    + intros H. apply matches_seq_inv in H. destruct H as (s1 & s2 & E & H1 & H2).
      symmetry in E. apply app_eq_nil in E. destruct E; subst. auto.
  - rewrite orb_true_iff, IH1, IH2. split.
    + intros [H | H]; [apply matches_alt_l | apply matches_alt_r]; exact H.
    + apply matches_alt_inv.
Qed.

Lemma deriv_spec c r s : matches (deriv c r) s <-> matches r (c :: s).
Proof.
  revert s. induction r as [| | p | r1 IH1 r2 IH2 | r1 IH1 r2 IH2]; intros s; simpl.
  - split; intros H; destruct (matches_empty_inv _ H).
  - split; intros H; [destruct (matches_empty_inv _ H) |].
    apply matches_eps_inv in H. discriminate.
  - destruct (p c) eqn:E; split; intros H.
    + apply matches_eps_inv in H. subst s. constructor. exact E.
    + apply matches_class_inv in H. destruct H as (c' & E' & _).
      inversion E'; subst. constructor.
    + destruct (matches_empty_inv _ H).
    + apply matches_class_inv in H. destruct H as (c' & E' & Hp).
      inversion E'; subst. congruence.
  - assert (Seq : matches (RSeq (deriv c r1) r2) s ->
                  matches (RSeq r1 r2) (c :: s)).
    { intros H. apply matches_seq_inv in H. destruct H as (s1 & s2 & -> & H1 & H2).
      apply IH1 in H1. apply (matches_seq r1 r2 (c :: s1) s2 H1 H2). }
    assert (Inv : matches (RSeq r1 r2) (c :: s) ->
                  matches (RSeq (deriv c r1) r2) s
                  \/ (matches r1 [] /\ matches (deriv c r2) s)).
    { intros H. apply matches_seq_inv in H. destruct H as (s1 & s2 & E & H1 & H2).
      destruct s1 as [| c' s1]; simpl in E.
      - right. subst s2. split; [exact H1 | apply IH2; exact H2].
      - inversion E; subst. left. apply matches_seq; [apply IH1; exact H1 | exact H2]. }
    destruct (nullable r1) eqn:N.
    + split.
      * intros H. apply matches_alt_inv in H. destruct H as [H | H]; [auto |].
        apply (matches_seq r1 r2 [] (c :: s)); [apply nullable_spec; exact N |].
        apply IH2. assumption.
      * intros H. destruct (Inv H) as [H' | [_ H']];
          [apply matches_alt_l | apply matches_alt_r]; exact H'.
    + split; [exact Seq |].
      intros H. destruct (Inv H) as [H' | [H' _]]; [exact H' |].
      apply nullable_spec in H'. congruence.
  - split; intros H; apply matches_alt_inv in H; destruct H as [H | H];
      [apply matches_alt_l, IH1 | apply matches_alt_r, IH2
       | apply matches_alt_l, IH1 | apply matches_alt_r, IH2]; assumption.
Qed.

(** The derivative matcher decides [matches]. *)
Lemma regex_match_spec r s : regex_match r s = true <-> matches r s.
Proof.
  revert r. induction s as [| c s IH]; intros r; simpl.
  - apply nullable_spec.
  - rewrite IH. apply deriv_spec.
Qed.

Lemma matches_repeat_class n p s :
  matches (RRepeat n (RClass p)) s
  <-> Forall (fun c => p c = true) s /\ length s = n.
Proof.
  revert s. induction n as [| n IH]; intros s; simpl.
  - split.
    + intros H. apply matches_eps_inv in H. subst. split; [constructor | reflexivity].
    + intros [_ H]. destruct s; [constructor | discriminate].
  - split.
    + intros H. apply matches_seq_inv in H. destruct H as (s1 & s2 & -> & H1 & H2).
      apply matches_class_inv in H1. destruct H1 as (c & -> & Hc).
      apply IH in H2. destruct H2 as [Hall Hlen]. simpl. split; [constructor; auto | lia].
    + intros [Hall Hlen]. destruct s as [| c s]; [discriminate |].
      inversion Hall; subst. apply (matches_seq _ _ [c] s).
      * constructor. assumption.
      * apply IH. split; [assumption | simpl in Hlen; lia].
Qed.

Lemma matches_upto_class n p s :
  matches (RUpTo n (RClass p)) s
  <-> Forall (fun c => p c = true) s /\ (length s <= n)%nat.
Proof.
  revert s. induction n as [| n IH]; intros s; simpl.
  - split.
    + intros H. apply matches_eps_inv in H. subst. split; [constructor | simpl; lia].
    + intros [_ H]. destruct s; [constructor | simpl in H; lia].
  - split.
    + intros H. apply matches_alt_inv in H. destruct H as [H | H].
      * apply matches_eps_inv in H. subst. split; [constructor | simpl; lia].
      * apply matches_seq_inv in H. destruct H as (s1 & s2 & -> & H1 & H2).
        apply matches_class_inv in H1. destruct H1 as (c & -> & Hc).
        apply IH in H2. destruct H2 as [Hall Hlen].
        simpl. split; [constructor; auto | lia].
    + intros [Hall Hlen]. destruct s as [| c s]; [apply matches_alt_l; constructor |].
      inversion Hall; subst. apply matches_alt_r. apply (matches_seq _ _ [c] s).
      * constructor. assumption.
      * apply IH. split; [assumption | simpl in Hlen; lia].
Qed.

Lemma matches_between_class lo extra p s :
  matches (RBetween lo extra (RClass p)) s
  <-> Forall (fun c => p c = true) s /\ (lo <= length s <= lo + extra)%nat.
Proof.
  unfold RBetween. split.
  - intros H. apply matches_seq_inv in H. destruct H as (s1 & s2 & -> & H1 & H2).
    apply matches_repeat_class in H1. apply matches_upto_class in H2.
    destruct H1 as [A1 L1], H2 as [A2 L2]. rewrite length_app.
    split; [apply Forall_app; auto | lia].
  - intros [Hall Hlen]. rewrite <- (firstn_skipn lo s). apply matches_seq.
    + apply matches_repeat_class. split.
      * rewrite <- (firstn_skipn lo s) in Hall. apply Forall_app in Hall. tauto.
      * apply firstn_length_le. lia.
    + apply matches_upto_class. split.
      * rewrite <- (firstn_skipn lo s) in Hall. apply Forall_app in Hall. tauto.
      * rewrite length_skipn. lia.
Qed.

Lemma matches_group k p s :
  matches (RBetween 1 k (RClass p)) s <-> group p (1 + k) s.
Proof. apply matches_between_class. Qed.

Lemma matches_repeat n r s :
  matches (RRepeat n r) s
  <-> exists parts, length parts = n /\ Forall (matches r) parts /\ s = concat parts.
Proof.
  revert s. induction n as [| n IH]; intros s; simpl.
  - split.
    + intros H. apply matches_eps_inv in H. subst. exists []. repeat split. constructor.
    + intros (parts & Hlen & _ & ->). destruct parts; [constructor | discriminate].
  - split.
    + intros H. apply matches_seq_inv in H. destruct H as (s1 & s2 & -> & H1 & H2).
      apply IH in H2. destruct H2 as (parts & Hlen & Hall & ->).
      exists (s1 :: parts). simpl. repeat split; auto.
    + intros (parts & Hlen & Hall & ->). destruct parts as [| s1 parts]; [discriminate |].
      inversion Hall; subst. simpl. apply matches_seq; [assumption |].
      apply IH. exists parts. repeat split; auto.
Qed.

Lemma matches_separated n k p sep s :
  matches (RSeq (RRepeat n (RSeq (RBetween 1 k (RClass p)) (RChar sep)))
                (RBetween 1 k (RClass p))) s
  <-> separated_groups p (1 + k) sep n s.
Proof.
  unfold separated_groups. split.
  - intros H. apply matches_seq_inv in H. destruct H as (s1 & last & -> & H1 & H2).
    apply matches_group in H2. apply matches_repeat in H1.
    destruct H1 as (parts & Hlen & Hall & ->).
    assert (G : exists gs,
               length gs = length parts /\ Forall (group p (1 + k)) gs
               /\ parts = map (fun g => g ++ [sep])%list gs).
    { clear Hlen. induction Hall as [| part parts Hpart _ IH].
      - exists []. repeat split. constructor.
      - destruct IH as (gs & Hl & Hg & ->).
        apply matches_seq_inv in Hpart. destruct Hpart as (g & t & -> & Hgrp & Hsep).
        apply matches_group in Hgrp. apply matches_class_inv in Hsep.
        destruct Hsep as (c & -> & Hc). apply Ascii.eqb_eq in Hc. subst c.
        exists (g :: gs). simpl. repeat split; auto. }
    destruct G as (gs & Hl & Hg & ->). exists gs, last.
    rewrite length_map in Hlen.
    split; [exact Hlen | split; [exact Hg | split; [exact H2 | reflexivity]]].
  - intros (gs & last & Hlen & Hall & Hlast & ->). apply matches_seq.
    + apply matches_repeat. exists (map (fun g => g ++ [sep])%list gs).
      rewrite length_map. repeat split; auto.
      clear Hlen. induction Hall as [| g gs Hg _ IH]; simpl; constructor; auto.
      apply matches_seq; [apply matches_group; exact Hg |].
      constructor. apply Ascii.eqb_refl.
    + apply matches_group. exact Hlast.
Qed.

(** What [isValidIP] accepts: four groups of one to three digits joined by
    dots, or eight groups of one to four hexadecimal digits joined by colons. *)
Lemma isValidIP_spec ip :
  isValidIP ip = true <-> dotted_quad ip \/ colon_hextets ip.
Proof.
  unfold isValidIP, regex_test, dotted_quad, colon_hextets.
  rewrite orb_true_iff, !regex_match_spec.
  unfold ipv4Regex, ipv6Regex.
  rewrite (matches_separated 3 2 is_digit "."), (matches_separated 7 3 is_hex ":").
  reflexivity.
Qed.

Lemma split_head_spec sep s : first_token sep s (split_head sep s).
Proof.
  unfold first_token. induction s as [| c r [IH1 IH2]]; simpl.
  - split; [left; reflexivity | intros c []].
  - destruct (Ascii.eqb_spec c sep) as [-> | Hne]; simpl.
    + split; [right; exists r; reflexivity | intros c []].
    + split.
      * destruct IH1 as [E | [rest E]];
          [left; rewrite <- E; reflexivity | right; exists rest; rewrite <- E; reflexivity].
      * intros x [<- | Hx]; [exact Hne | apply IH2; exact Hx].
Qed.

Lemma trim_start_spec s :
  exists l,
    s = l ++ trim_start s /\ all_space l
    /\ forall c r, trim_start s = String c r -> is_space c = false.
Proof.
  induction s as [| c r (l & E & Hl & Hc)]; simpl.
  - exists "". repeat split; [constructor | discriminate].
  - destruct (is_space c) eqn:Sp.
    + exists (String c l). split; [simpl; rewrite <- E; reflexivity |].
      split; [constructor; assumption | exact Hc].
    + exists "". split; [reflexivity |]. split; [constructor |].
      intros c' r' H. inversion H; subst. exact Sp.
Qed.

Lemma trim_end_spec s :
  exists r,
    s = trim_end s ++ r /\ all_space r
    /\ (forall c, last_char (trim_end s) = Some c -> is_space c = false)
    /\ (forall c t, s = String c t -> is_space c = false ->
        exists t', trim_end s = String c t').
Proof.
  induction s as [| c s (r & E & Hr & Hlast & _)]; simpl.
  - exists "". repeat split; try constructor; discriminate.
  - destruct (trim_end s) as [| c' t] eqn:T.
    + simpl in E. subst r. destruct (is_space c) eqn:Sp.
      * exists (String c s). repeat split; try (constructor; assumption); try discriminate.
        intros c0 t0 H Hn. inversion H; subst. congruence.
      * exists s. repeat split; auto.
        -- intros c0 H. simpl in H. inversion H; subst. exact Sp.
        -- intros c0 t0 H _. inversion H; subst. eauto.
    + exists r. split; [simpl in *; rewrite E at 1; reflexivity |].
      split; [exact Hr |]. split.
      * intros c0 H. apply Hlast. simpl in *.
        destruct (last_char t); [exact H | ].
        inversion H. reflexivity.
      * intros c0 t0 H _. inversion H; subst. eauto.
Qed.

Lemma trim_spec s : trimmed s (trim s).
Proof.
  unfold trimmed, trim.
  destruct (trim_start_spec s) as (l & El & Hl & Hstart).
  destruct (trim_end_spec (trim_start s)) as (r & Er & Hr & Hlast & Hkeep).
  split; [| split].
  - exists l, r. rewrite <- Er. auto.
  - intros c t H.
    destruct (trim_start s) as [| c0 t0] eqn:T; [simpl in H; discriminate |].
    specialize (Hstart c0 t0 eq_refl).
    destruct (Hkeep c0 t0 eq_refl Hstart) as [t' E]. rewrite E in H.
    inversion H; subst. exact Hstart.
  - exact Hlast.
Qed.

Lemma getClientIP_loop_step h name rest :
  getClientIP_loop h (name :: rest)
  = match header_candidate h name with
    | Some ip => if isValidIP ip then Some ip else getClientIP_loop h rest
    | None => getClientIP_loop h rest
    end.
Proof.
  unfold header_candidate. simpl.
  destruct (headers_get h name) as [value |]; [| reflexivity].
  destruct (nonempty value); reflexivity.
Qed.

Lemma getClientIP_loop_none h names :
  getClientIP_loop h names = None <-> Forall (rejected h) names.
Proof.
  induction names as [| name rest IH].
  - simpl. split; [constructor | reflexivity].
  - rewrite getClientIP_loop_step. unfold rejected at 1.
    destruct (header_candidate h name) as [ip |] eqn:C.
    + destruct (isValidIP ip) eqn:V.
      * split; [discriminate |]. intros H. inversion H as [| ? ? Hr _]; subst.
        unfold rejected in Hr. rewrite (Hr ip C) in V. discriminate.
      * rewrite IH. split.
        -- intros H. constructor; [| exact H].
           intros ip' E. rewrite C in E. inversion E; subst. exact V.
        -- intros H. inversion H; assumption.
    + rewrite IH. split.
      * intros H. constructor; [| exact H]. intros ip' E. rewrite C in E. discriminate.
      * intros H. inversion H; assumption.
Qed.

Lemma getClientIP_loop_some h names ip :
  getClientIP_loop h names = Some ip
  <-> exists earlier name later,
        names = (earlier ++ name :: later)%list
        /\ Forall (rejected h) earlier
        /\ header_candidate h name = Some ip
        /\ isValidIP ip = true.
Proof.
  induction names as [| name rest IH].
  - simpl. split; [discriminate |].
    intros (earlier & n & later & E & _). destruct earlier; discriminate.
  - rewrite getClientIP_loop_step. split.
    + intros H. destruct (header_candidate h name) as [ip0 |] eqn:C.
      * destruct (isValidIP ip0) eqn:V.
        -- inversion H; subst. exists [], name, rest. repeat split; auto.
        -- apply IH in H. destruct H as (earlier & n & later & -> & Hr & Hc & Hv).
           exists (name :: earlier), n, later. repeat split; auto.
           constructor; [| exact Hr]. intros ip' E. rewrite C in E.
           inversion E; subst. exact V.
      * apply IH in H. destruct H as (earlier & n & later & -> & Hr & Hc & Hv).
        exists (name :: earlier), n, later. repeat split; auto.
        constructor; [| exact Hr]. intros ip' E. rewrite C in E. discriminate.
    + intros (earlier & n & later & E & Hr & Hc & Hv).
      destruct earlier as [| e earlier]; simpl in E; inversion E; subst.
      * rewrite Hc, Hv. reflexivity.
      * inversion Hr as [| ? ? He Hr']; subst.
        assert (Tail : getClientIP_loop h (earlier ++ n :: later) = Some ip).
        { apply IH. exists earlier, n, later. auto. }
        destruct (header_candidate h e) as [ip0 |] eqn:C; [| exact Tail].
        rewrite (He ip0 C). exact Tail.
Qed.

(** C5.  [getClientIP] walks the six proxy headers in their fixed order.  A
    present, non-empty header contributes the trimmed text before its first
    comma; the result is the contribution of the first header whose
    contribution is a valid IP, that is four dot-separated groups of one to
    three digits or eight colon-separated groups of one to four hexadecimal
    digits; it is [null] exactly when no header contributes a valid IP. *)
Theorem getClientIP_first_valid (h : Headers) :
  possibleHeaders
  = ["x-forwarded-for"; "x-real-ip"; "x-client-ip"; "cf-connecting-ip";
     "true-client-ip"; "x-cluster-client-ip"]
  /\ (forall ip,
        getClientIP h = Some ip
        <-> exists earlier name later,
              possibleHeaders = (earlier ++ name :: later)%list
              /\ Forall (rejected h) earlier
              /\ header_candidate h name = Some ip
              /\ isValidIP ip = true)
  /\ (getClientIP h = None <-> Forall (rejected h) possibleHeaders)
  /\ (forall name ip,
        header_candidate h name = Some ip
        <-> exists value token,
              headers_get h name = Some value /\ value <> ""
              /\ first_token "," value token /\ trimmed token ip
              /\ token = split_head "," value /\ ip = trim token)
  /\ (forall ip, isValidIP ip = true <-> dotted_quad ip \/ colon_hextets ip).
Proof.
  split; [reflexivity |]. split; [| split; [| split]].
  - intros ip. apply getClientIP_loop_some.
  - apply getClientIP_loop_none.
  - intros name ip. unfold header_candidate. split.
    + destruct (headers_get h name) as [value |]; [| discriminate].
      destruct value as [| c v]; [discriminate |]. simpl nonempty. cbv iota.
      intros H. inversion H; subst.
      exists (String c v), (split_head "," (String c v)).
      repeat split; try discriminate; try apply split_head_spec; apply trim_spec.
    + intros (value & token & -> & Hne & _ & _ & -> & ->).
      destruct value; [congruence | reflexivity].
  - apply isValidIP_spec.
Qed.

(** ** The constraints of the schema *)

Lemma existsb_has_link_id i ls :
  existsb (has_link_id i) ls = false -> ~ In i (map Link.id ls).
Proof.
  intros H Hin. apply in_map_iff in Hin. destruct Hin as (l & E & Hl).
  pose proof (proj1 (existsb_false_forall _ _) H l Hl) as N.
  unfold has_link_id in N. rewrite E, String.eqb_refl in N. discriminate.
Qed.

Lemma existsb_has_short_code c ls :
  existsb (has_short_code c) ls = false -> ~ In c (map Link.short_code ls).
Proof.
  intros H Hin. apply in_map_iff in Hin. destruct Hin as (l & E & Hl).
  pose proof (proj1 (existsb_false_forall _ _) H l Hl) as N.
  unfold has_short_code in N. rewrite E, String.eqb_refl in N. discriminate.
Qed.

Lemma NoDup_snoc {A : Type} (l : list A) x : NoDup l -> ~ In x l -> NoDup (l ++ [x]).
Proof.
  intros Hl Hx. apply NoDup_app; [exact Hl | repeat constructor; intros [] |].
  intros y Hy [<- | []]. exact (Hx Hy).
Qed.

Lemma NoDup_map_filter {A B : Type} (f : A -> B) (p : A -> bool) l :
  NoDup (map f l) -> NoDup (map f (filter p l)).
Proof.
  induction l as [| x l IH]; simpl; [auto |].
  intros H. inversion H as [| ? ? Hx Hl]; subst.
  destruct (p x); simpl; [| auto]. constructor; [| auto].
  intros Hin. apply Hx. apply in_map_iff in Hin. destruct Hin as (y & E & Hy).
  apply filter_In in Hy. apply in_map_iff. exists y. tauto.
Qed.

(** Every statement keeps [id] a key of [links] and [short_code] unique. *)
Lemma statements_keep_keys d :
  keys_ok d ->
  (forall id name url code now, keys_ok (snd (sql_insert_link id name url code now d)))
  /\ (forall id, keys_ok (sql_bump_click_count id d))
  /\ (forall id, keys_ok (sql_delete_clicks id d))
  /\ (forall id, keys_ok (snd (sql_delete_link id d)))
  /\ (forall P bound now, keys_ok (snd (sql_insert_click P bound now d))).
Proof.
  intros [Hid Hcode]. unfold keys_ok. repeat split.
  - unfold sql_insert_link.
    destruct (existsb (has_link_id id) (links d)) eqn:E1; [exact Hid |].
    destruct (existsb (has_short_code code) (links d)) eqn:E2; [exact Hid |].
    simpl. rewrite map_app. apply NoDup_snoc; [exact Hid |].
    apply existsb_has_link_id. exact E1.
  - unfold sql_insert_link.
    destruct (existsb (has_link_id id) (links d)) eqn:E1; [exact Hcode |].
    destruct (existsb (has_short_code code) (links d)) eqn:E2; [exact Hcode |].
    simpl. rewrite map_app. apply NoDup_snoc; [exact Hcode |].
    apply existsb_has_short_code. exact E2.
  - simpl. rewrite map_map.
    rewrite (map_ext _ Link.id) by (intro l; apply bump_if_keeps). exact Hid.
  - simpl. rewrite map_map.
    rewrite (map_ext _ Link.short_code) by (intro l; apply bump_if_keeps). exact Hcode.
  - exact Hid.
  - exact Hcode.
  - unfold sql_delete_link. destruct (_ && _ && _); [exact Hid |].
    simpl. apply NoDup_map_filter. exact Hid.
  - unfold sql_delete_link. destruct (_ && _ && _); [exact Hcode |].
    simpl. apply NoDup_map_filter. exact Hcode.
  - unfold sql_insert_click. destruct (text_column _ _); [| exact Hid].
    destruct (_ && _); exact Hid.
  - unfold sql_insert_click. destruct (text_column _ _); [| exact Hcode].
    destruct (_ && _); exact Hcode.
Qed.

(** ** Runs on concrete inputs *)

Example urlAlphabet_size : String.length urlAlphabet = 64%nat.
Proof. reflexivity. Qed.

Example isValidIP_v4 : isValidIP "203.0.113.7" = true.
Proof. reflexivity. Qed.

Example isValidIP_loopback_v6 : isValidIP "::1" = false.
Proof. reflexivity. Qed.

Example isValidIP_long_group : isValidIP "1234.1.1.1" = false.
Proof. reflexivity. Qed.

Example isValidIP_v6 : isValidIP "2001:db8:0:0:0:0:0:1" = true.
Proof. reflexivity. Qed.

Example getClientIP_priority :
  getClientIP [("x-real-ip", "10.0.0.1"); ("x-forwarded-for", " 8.8.8.8 , 1.1.1.1")]
  = Some "8.8.8.8".
Proof. reflexivity. Qed.

Example getClientIP_skips_invalid :
  getClientIP [("x-forwarded-for", "unknown"); ("cf-connecting-ip", "198.51.100.4")]
  = Some "198.51.100.4".
Proof. reflexivity. Qed.

Example getClientIP_none : getClientIP [("x-forwarded-for", "::1")] = None.
Proof. reflexivity. Qed.

Example sanitizeReferer_keeps_fragment :
  sanitizeReferer basic_platform (Some "https://ref.com/page?token=secret#top")
  = Some "https://ref.com/page#top".
Proof. reflexivity. Qed.

(** A fault on the counter update: the click row is already stored when the
    handler falls back to the bare redirect, and the counter stays behind. *)
Example track_GET_update_fault :
  let run := track_GET basic_platform plain_request "uuuuuuuu"
               (failing_update_world blog_database) in
  fst run = Ok (Redirect "https://example.com" 302)
  /\ length (clicks (db (snd run))) = 1%nat
  /\ map Link.click_count (links (db (snd run))) = [0%Z].
Proof. repeat split. Qed.

Example track_GET_unknown_code :
  fst (track_GET basic_platform plain_request "nope" (quiet_world blog_database))
  = Ok (Json (PError "Link not found") 404).
Proof. reflexivity. Qed.

(** An argument that is an array is spread over the parameters. *)
Example array_argument_is_spread :
  bind_arguments 5
    (location_arguments
       (LocationData.mk (JStr "France") (JArr [JStr "Paris"]) JNull JNull JNull))
  = Ok [SText "France"; SText "Paris"; SNull; SNull; SNull]
  /\ bind_arguments 5
       (location_arguments
          (LocationData.mk (JArr [JStr "France"; JStr "Paris"]) (JArr []) JNull JNull JNull))
     = Ok [SText "France"; SText "Paris"; SNull; SNull; SNull].
Proof. split; reflexivity. Qed.

(** An object takes no parameter, an array of two takes two, and a boolean
    is refused. *)
Example arguments_not_bound :
  bind_arguments 5
    (location_arguments (LocationData.mk (JObj []) (JStr "Paris") JNull JNull JNull))
  = Throw (RangeError "Too few parameter values were provided")
  /\ bind_arguments 5
       (location_arguments
          (LocationData.mk (JStr "France") (JArr [JStr "Paris"; JStr "Lyon"])
                           JNull JNull JNull))
     = Throw (RangeError "Too many parameter values were provided")
  /\ bind_arguments 5
       (location_arguments (LocationData.mk (JStr "France") (JBool true) JNull JNull JNull))
     = Throw (TypeError "SQLite3 can only bind numbers, strings, bigints, buffers, and null").
Proof. repeat split. Qed.

(** A visit located by a payload whose city is an array of one name: the
    [try] block redirects and the row holds the name. *)
Example track_GET_array_city :
  let run := track_GET basic_platform (proxied_request "8.8.8.8") "uuuuuuuu"
               (served_world (JObj [("country_name", JStr "France");
                                    ("city", JArr [JStr "Paris"])])
                             blog_database) in
  fst run = Ok (Redirect "https://example.com" 302)
  /\ map Click.city (clicks (db (snd run))) = [SText "Paris"]
  /\ map Link.click_count (links (db (snd run))) = [1%Z]
  /\ console (snd run) = [].
Proof. repeat split. Qed.

(** A [NaN] is stored as [NULL], and a number handed to a [TEXT] column as
    its text. *)
Example track_GET_odd_numbers :
  let run := track_GET basic_platform (proxied_request "8.8.8.8") "uuuuuuuu"
               (served_world (JObj [("country_name", JNum (Finite false 33 0));
                                    ("latitude", JStr "north")])
                             blog_database) in
  map Click.country (clicks (db (snd run)))
  = [SText (real_to_text basic_platform (Finite false 33 0))]
  /\ map Click.latitude (clicks (db (snd run))) = [SNull].
Proof. repeat split. Qed.

(** A coordinate on which [parseFloat] throws: the first [try] catches it and
    the secondary service is asked. *)
Example getLocationFromIP_odd_coordinate :
  let run := getLocationFromIP basic_platform "8.8.8.8"
               (served_world (JObj [("country_name", JStr "France");
                                    ("latitude", JObj [("toString", JNull)])])
                             empty_database) in
  fst run = Ok UnknownLocation
  /\ fetched (snd run) = [primaryURL "8.8.8.8"; secondaryURL "8.8.8.8"]
  /\ map fst (console (snd run))
     = ["Primary IP service failed:"; "Fallback IP service failed:"].
Proof. repeat split. Qed.

(** ** User agents *)

Lemma prefix_iff p s : String.prefix p s = true <-> exists b, s = p ++ b.
Proof.
  revert s. induction p as [| c p IH]; intros s.
  - split; [intros _; exists s; reflexivity | intros _; destruct s; reflexivity].
  - destruct s as [| d s]; simpl.
    + split; [discriminate | intros [b E]; discriminate].
    + destruct (Ascii.ascii_dec c d) as [-> | Hne].
      * rewrite IH. split; intros [b E]; exists b; [rewrite E; reflexivity |].
        inversion E; reflexivity.
      * split; [discriminate |]. intros [b E]. inversion E. congruence.
Qed.

(** [includes] finds exactly the occurrences. *)
Lemma includes_spec s sub : includes s sub = true <-> occurs_in sub s.
Proof.
  unfold occurs_in. induction s as [| c s IH].
  - cbn [includes]. rewrite orb_false_r, prefix_iff. split.
    + intros [b E]. exists "", b. exact E.
    + intros (a & b & E). destruct a; [exists b; exact E | discriminate].
  - cbn [includes]. rewrite orb_true_iff, prefix_iff, IH. split.
    + intros [[b E] | (a & b & E)].
      * exists "", b. exact E.
      * exists (String c a), b. simpl. rewrite E. reflexivity.
    + intros (a & b & E). destruct a as [| d a].
      * left. exists b. exact E.
      * right. simpl in E. inversion E. exists a, b. reflexivity.
Qed.

Lemma match_prefix_spec r s :
  match_prefix r s = true <-> exists m b, s = (m ++ b)%list /\ matches r m.
Proof.
  revert r. induction s as [| c s IH]; intros r; simpl.
  - rewrite orb_false_r, nullable_spec. split.
    + intros H. exists [], []. auto.
    + intros (m & b & E & H). symmetry in E. apply app_eq_nil in E.
      destruct E; subst. exact H.
  - rewrite orb_true_iff, nullable_spec, IH. split.
    + intros [H | (m & b & -> & H)].
      * exists [], (c :: s). auto.
      * exists (c :: m), b. split; [reflexivity | apply deriv_spec; exact H].
    + intros (m & b & E & H). destruct m as [| d m].
      * left. exact H.
      * right. simpl in E. inversion E; subst. exists m, b.
        split; [reflexivity | apply deriv_spec; exact H].
Qed.

(** The unanchored [test] holds exactly when a stretch of the text matches. *)
Lemma regex_search_spec r s :
  regex_search r s = true
  <-> exists a m b, s = (a ++ m ++ b)%list /\ matches r m.
Proof.
  induction s as [| c s IH]; cbn [regex_search].
  - rewrite orb_false_r, match_prefix_spec. split.
    + intros (m & b & E & H). exists [], m, b. auto.
    + intros (a & m & b & E & H). destruct a; [| discriminate]. exists m, b. auto.
  - rewrite orb_true_iff, match_prefix_spec, IH. split.
    + intros [(m & b & E & H) | (a & m & b & -> & H)].
      * exists [], m, b. auto.
      * exists (c :: a), m, b. auto.
    + intros (a & m & b & E & H). destruct a as [| d a].
      * left. exists m, b. auto.
      * right. simpl in E. inversion E; subst. exists a, m, b. auto.
Qed.

Lemma matches_lit t m : matches (RLit t) m <-> m = chars t.
Proof.
  revert m. induction t as [| c t IH]; intros m; simpl.
  - split; [apply matches_eps_inv | intros ->; constructor].
  - split.
    + intros H. apply matches_seq_inv in H. destruct H as (s1 & s2 & -> & H1 & H2).
      apply matches_class_inv in H1. destruct H1 as (d & -> & Hd).
      apply Ascii.eqb_eq in Hd. subst d. apply IH in H2. subst s2. reflexivity.
    + intros ->. apply (matches_seq _ _ [c] (chars t)).
      * constructor. apply Ascii.eqb_refl.
      * apply IH. reflexivity.
Qed.

Lemma chars_app a b : chars (a ++ b) = (chars a ++ chars b)%list.
Proof. induction a as [| c a IH]; simpl; [reflexivity | unfold chars in *; rewrite IH; reflexivity]. Qed.

Lemma chars_inj a b : chars a = chars b -> a = b.
Proof.
  intros H. rewrite <- (string_of_list_ascii_of_string a), <- (string_of_list_ascii_of_string b).
  unfold chars in H. rewrite H. reflexivity.
Qed.

(** Searching for a literal is [includes]. *)
Lemma regex_search_lit t s : regex_search (RLit t) (chars s) = includes s t.
Proof.
  apply eq_true_iff_eq. rewrite regex_search_spec, includes_spec. unfold occurs_in. split.
  - intros (a & m & b & E & H). apply matches_lit in H. subst m.
    exists (string_of_list_ascii a), (string_of_list_ascii b). apply chars_inj.
    rewrite !chars_app. unfold chars at 2 4. rewrite !list_ascii_of_string_of_list_ascii.
    exact E.
  - intros (a & b & ->). exists (chars a), (chars t), (chars b).
    rewrite !chars_app. split; [reflexivity | apply matches_lit; reflexivity].
Qed.

Lemma regex_search_alt r1 r2 s :
  regex_search (RAlt r1 r2) s = regex_search r1 s || regex_search r2 s.
Proof.
  apply eq_true_iff_eq. rewrite orb_true_iff, !regex_search_spec. split.
  - intros (a & m & b & E & H). apply matches_alt_inv in H.
    destruct H as [H | H]; [left | right]; exists a, m, b; auto.
  - intros [(a & m & b & E & H) | (a & m & b & E & H)]; exists a, m, b;
      (split; [exact E |]); [apply matches_alt_l | apply matches_alt_r]; exact H.
Qed.

Lemma isMobile_includes ua :
  regex_search mobileRegex (chars ua)
  = includes ua "Mobile" || includes ua "Android" || includes ua "iPhone" || includes ua "iPad".
Proof.
  unfold mobileRegex. rewrite !regex_search_alt, !regex_search_lit.
  rewrite !orb_assoc. reflexivity.
Qed.

Lemma matches_litI t m : matches (RLitI t) m <-> map lower m = map lower (chars t).
Proof.
  revert m. induction t as [| c t IH]; intros m; simpl.
  - split.
    + intros H. apply matches_eps_inv in H. subst. reflexivity.
    + intros H. destruct m; [constructor | discriminate].
  - split.
    + intros H. apply matches_seq_inv in H. destruct H as (s1 & s2 & -> & H1 & H2).
      apply matches_class_inv in H1. destruct H1 as (d & -> & Hd).
      apply Ascii.eqb_eq in Hd. apply IH in H2. simpl. rewrite Hd, H2. reflexivity.
    + intros H. destruct m as [| d m]; [discriminate |]. simpl in H.
      injection H as H1 H2.
      apply (matches_seq _ _ [d] m).
      * constructor. apply Ascii.eqb_eq. exact H1.
      * apply IH. exact H2.
Qed.

Lemma chars_toLowerCase s : chars (toLowerCase s) = map lower (chars s).
Proof.
  induction s as [| c s IH]; simpl; [reflexivity |].
  unfold chars in *. rewrite IH. reflexivity.
Qed.

(** Searching for a literal under the [i] flag is [includes] on the folded
    text. *)
Lemma regex_search_litI t s :
  regex_search (RLitI t) (chars s) = includes (toLowerCase s) (toLowerCase t).
Proof.
  apply eq_true_iff_eq. rewrite regex_search_spec, includes_spec. unfold occurs_in. split.
  - intros (a & m & b & E & H). apply matches_litI in H.
    exists (string_of_list_ascii (map lower a)), (string_of_list_ascii (map lower b)).
    apply chars_inj. rewrite !chars_app, !chars_toLowerCase. unfold chars at 2 4.
    rewrite !list_ascii_of_string_of_list_ascii. fold (chars t). rewrite <- H.
    rewrite E, !map_app. reflexivity.
  - intros (a & b & E). apply (f_equal chars) in E.
    rewrite !chars_app, !chars_toLowerCase in E.
    apply map_eq_app in E. destruct E as (a' & rest & E & Ha & Hrest).
    apply map_eq_app in Hrest. destruct Hrest as (m' & b' & -> & Hm & Hb).
    exists a', m', b'. split; [exact E | apply matches_litI; exact Hm].
Qed.

Lemma isBot_includes ua :
  regex_search botRegex (chars ua)
  = includes (toLowerCase ua) "bot" || includes (toLowerCase ua) "crawler"
    || includes (toLowerCase ua) "spider" || includes (toLowerCase ua) "crawling".
Proof.
  unfold botRegex. rewrite !regex_search_alt, !regex_search_litI.
  rewrite !orb_assoc. reflexivity.
Qed.

Lemma lower_idempotent c : lower (lower c) = lower c.
Proof.
  unfold lower.
  destruct ((65 <=? nat_of_ascii c) && (nat_of_ascii c <=? 90))%nat eqn:E; [| rewrite E; reflexivity].
  apply andb_true_iff in E. destruct E as [E1 E2].
  apply Nat.leb_le in E1, E2.
  rewrite nat_ascii_embedding by lia.
  destruct ((65 <=? nat_of_ascii c + 32) && (nat_of_ascii c + 32 <=? 90))%nat eqn:E'; [| reflexivity].
  apply andb_true_iff in E'. destruct E' as [_ E']. apply Nat.leb_le in E'. lia.
Qed.

Lemma toLowerCase_idempotent s : toLowerCase (toLowerCase s) = toLowerCase s.
Proof.
  induction s as [| c s IH]; simpl; [reflexivity |].
  rewrite lower_idempotent, IH. reflexivity.
Qed.

(** X1.  [parseUserAgent] yields [null] for an absent or empty user agent;
    otherwise it keeps the raw text, and its [isMobile] flag is set exactly
    when [device] is not ['Desktop']: the pattern of the flag and the chain of
    [includes] tests of [extractDevice] look for the same four words. *)
Theorem parseUserAgent_mobile_iff_device (userAgent : option string) :
  match parseUserAgent userAgent with
  | None => userAgent = None \/ userAgent = Some ""
  | Some parsed =>
      userAgent = Some (UserAgent.raw parsed)
      /\ UserAgent.raw parsed <> ""
      /\ UserAgent.device parsed = extractDevice (UserAgent.raw parsed)
      /\ (UserAgent.isMobile parsed = true <-> UserAgent.device parsed <> "Desktop")
  end.
Proof.
  destruct userAgent as [ua |]; [| left; reflexivity].
  unfold parseUserAgent. destruct ua as [| c rest]; [right; reflexivity |].
  remember (String c rest) as ua eqn:E. replace (nonempty ua) with true by (subst; reflexivity).
  cbn [negb UserAgent.raw UserAgent.device UserAgent.isMobile].
  split; [reflexivity |]. split; [subst; discriminate |]. split; [reflexivity |].
  rewrite isMobile_includes. unfold extractDevice.
  destruct (includes ua "iPhone"), (includes ua "iPad"), (includes ua "Android"),
    (includes ua "Mobile"); cbn [orb]; split; congruence.
Qed.

(** X2.  The [isBot] flag of [parseUserAgent] is set exactly when the user
    agent, letter case aside, contains one of ['bot'], ['crawler'], ['spider']
    and ['crawling']; two user agents that differ in letter case only get the
    same flag. *)
Theorem parseUserAgent_bot_any_case (ua ua' : string) (parsed parsed' : UserAgent.t) :
  parseUserAgent (Some ua) = Some parsed ->
  parseUserAgent (Some ua') = Some parsed' ->
  (UserAgent.isBot parsed = true
   <-> occurs_in "bot" (toLowerCase ua) \/ occurs_in "crawler" (toLowerCase ua)
       \/ occurs_in "spider" (toLowerCase ua) \/ occurs_in "crawling" (toLowerCase ua))
  /\ (toLowerCase ua = toLowerCase ua' -> UserAgent.isBot parsed = UserAgent.isBot parsed').
Proof.
  unfold parseUserAgent. destruct (negb (nonempty ua)); [discriminate |].
  destruct (negb (nonempty ua')); [discriminate |].
  intros H H'. inversion H; inversion H'; subst. cbn [UserAgent.isBot].
  rewrite !isBot_includes. split.
  - rewrite !orb_true_iff, !includes_spec. tauto.
  - intros ->. reflexivity.
Qed.

Lemma parseUserAgent_bot_any_case_witness :
  exists parsed parsed',
    parseUserAgent (Some "Googlebot/2.1") = Some parsed
    /\ parseUserAgent (Some "GOOGLEBOT/2.1") = Some parsed'
    /\ UserAgent.isBot parsed = UserAgent.isBot parsed'.
Proof.
  eexists. eexists. split; [reflexivity |]. split; [reflexivity |].
  exact (proj2 (parseUserAgent_bot_any_case "Googlebot/2.1" "GOOGLEBOT/2.1" _ _
                  eq_refl eq_refl) eq_refl).
Defined.

(** ** What every handler keeps *)

Section HandlerSpecs.
Variable Rd : Database -> Database -> Prop.
Hypothesis Rd_refl : forall d, Rd d d.
Hypothesis Rd_trans : forall a b c, Rd a b -> Rd b c -> Rd a c.

Lemma respects_ret {A : Type} (Q : A -> Prop) a : Q a -> respects Rd Q (ret a).
Proof. intros H w r w' E. inversion E; subst. auto. Qed.

Lemma respects_throw {A : Type} (Q : A -> Prop) e : respects Rd Q (throw e).
Proof. intros w r w' E. inversion E; subst. auto. Qed.

Lemma respects_lift {A : Type} (r : result A) : respects Rd (fun _ => True) (lift r).
Proof. intros w r' w' E. inversion E; subst. split; [auto | destruct r'; exact I]. Qed.

Lemma respects_weaken {A : Type} (Q Q' : A -> Prop) m :
  respects Rd Q m -> (forall a, Q a -> Q' a) -> respects Rd Q' m.
Proof.
  intros H HQ w r w' E. destruct (H w r w' E) as [HR Hr].
  split; [exact HR | destruct r; auto].
Qed.

Lemma respects_bind {A B : Type} (Q1 : A -> Prop) (Q : B -> Prop) m (k : A -> M B) :
  respects Rd Q1 m -> (forall a, Q1 a -> respects Rd Q (k a)) ->
  respects Rd Q (bind m k).
Proof.
  intros Hm Hk w r w' E. unfold bind in E.
  destruct (m w) as [[a | e] w1] eqn:Em.
  - destruct (Hm w _ _ Em) as [R1 Qa]. destruct (Hk a Qa w1 r w' E) as [R2 Qr].
    split; [eapply Rd_trans; eassumption | exact Qr].
  - inversion E; subst. destruct (Hm w _ _ Em) as [R1 _]. auto.
Qed.

Lemma answers_ret {A : Type} (Q : A -> Prop) a : Q a -> answers Rd Q (ret a).
Proof. intros H w. exists a, w. auto. Qed.

Lemma answers_bind {A B : Type} (Q1 : A -> Prop) (Q : B -> Prop) m (k : A -> M B) :
  answers Rd Q1 m -> (forall a, Q1 a -> answers Rd Q (k a)) ->
  answers Rd Q (bind m k).
Proof.
  intros Hm Hk w. destruct (Hm w) as (a & w1 & Em & R1 & Qa).
  destruct (Hk a Qa w1) as (b & w2 & Ek & R2 & Qb).
  exists b, w2. rewrite (bind_ok _ _ _ _ _ Em). split; [exact Ek |].
  split; [eapply Rd_trans; eassumption | exact Qb].
Qed.

(** [try ... catch] answers when its block is within bounds and its handler
    answers. *)
Lemma answers_try_catch {A : Type} (Q : A -> Prop) m (h : Exn -> M A) :
  respects Rd Q m -> (forall e, answers Rd Q (h e)) -> answers Rd Q (try_catch m h).
Proof.
  intros Hm Hh w. unfold try_catch. destruct (m w) as [[a | e] w1] eqn:Em.
  - destruct (Hm w _ _ Em) as [R1 Qa]. exists a, w1. auto.
  - destruct (Hm w _ _ Em) as [R1 _]. destruct (Hh e w1) as (a & w2 & Eh & R2 & Qa).
    exists a, w2. split; [exact Eh |]. split; [eapply Rd_trans; eassumption | exact Qa].
Qed.

Lemma answers_respects {A : Type} (Q : A -> Prop) m : answers Rd Q m -> respects Rd Q m.
Proof.
  intros H w r w' E. destruct (H w) as (a & w1 & E1 & R1 & Qa).
  rewrite E1 in E. inversion E; subst. auto.
Qed.

Lemma answers_console_log label e : answers Rd (fun _ => True) (console_log label e).
Proof. intros w. eexists. eexists. split; [reflexivity |]. simpl. auto. Qed.

(** A [catch] block that logs and answers with a fixed response. *)
Lemma answers_log_then {A : Type} (Q : A -> Prop) label e a :
  Q a -> answers Rd Q (console_log label e ;;; ret a).
Proof.
  intros H. eapply answers_bind; [apply answers_console_log |].
  intros _ _. apply answers_ret. exact H.
Qed.

Lemma respects_run_statement {A : Type} (Q : A -> Prop)
    (q : Z -> Database -> result A * Database) :
  (forall now d,
      Rd d (snd (q now d)) /\ match fst (q now d) with Ok a => Q a | Throw _ => True end) ->
  respects Rd Q (run_statement q).
Proof.
  intros Hq w r w' E. unfold run_statement in E.
  destruct (faults w (statements w)).
  - inversion E; subst. simpl. auto.
  - specialize (Hq (clock w (statements w)) (db w)).
    destruct (q (clock w (statements w)) (db w)) as [r0 d]. inversion E; subst. exact Hq.
Qed.

Lemma respects_query {A : Type} (q : Database -> A) :
  respects Rd (fun a => True) (run_statement (query q)).
Proof. apply respects_run_statement. intros now d. simpl. auto. Qed.

Lemma respects_timed_query {A : Type} (q : Z -> Database -> A) :
  respects Rd (fun a => True) (run_statement (fun now d => (Ok (q now d), d))).
Proof. apply respects_run_statement. intros now d. simpl. auto. Qed.

Lemma answers_getLocationFromIP P ip :
  answers Rd (fun _ => True) (getLocationFromIP P ip).
Proof.
  intros w. destruct (getLocationFromIP_total P ip w) as (location & w1 & E & Hdb & _).
  exists location, w1. split; [exact E |]. rewrite Hdb. auto.
Qed.

Lemma respects_redirect P url status :
  respects Rd (fun r => status_of r = status) (redirect P url status).
Proof.
  unfold redirect. destruct (URL_parse P url).
  - apply respects_ret. reflexivity.
  - apply respects_throw.
Qed.

(** *** The handlers that only read *)

Lemma links_GET_answers :
  answers Rd (fun r => In (status_of r) [200; 500]%nat) links_GET.
Proof.
  unfold links_GET. apply answers_try_catch.
  - eapply respects_bind; [apply respects_query |].
    intros links _. apply respects_ret. simpl. auto.
  - intros e. apply answers_log_then. simpl. auto.
Qed.

Lemma getGlobalAnalytics_respects : respects Rd (fun _ => True) getGlobalAnalytics.
Proof.
  unfold getGlobalAnalytics.
  repeat (eapply respects_bind;
          [first [apply respects_query | apply respects_timed_query] | intros ? _]).
  apply respects_ret. exact I.
Qed.

Lemma analytics_GET_answers :
  answers Rd (fun r => In (status_of r) [200; 500]%nat) analytics_GET.
Proof.
  unfold analytics_GET. apply answers_try_catch.
  - eapply respects_bind; [apply getGlobalAnalytics_respects |].
    intros a _. apply respects_ret. simpl. auto.
  - intros e. apply answers_log_then. simpl. auto.
Qed.

Lemma getLinkAnalytics_respects linkId :
  respects Rd (fun _ => True) (getLinkAnalytics linkId).
Proof.
  unfold getLinkAnalytics, getClicksByLinkId.
  repeat (eapply respects_bind;
          [first [apply respects_query | apply respects_timed_query] | intros ? _]).
  apply respects_ret. exact I.
Qed.

Lemma link_analytics_GET_answers linkId :
  answers Rd (fun r => In (status_of r) [200; 404; 500]%nat) (link_analytics_GET linkId).
Proof.
  unfold link_analytics_GET, getLinkById. apply answers_try_catch.
  - eapply respects_bind; [apply respects_query |].
    intros [link |] _.
    + eapply respects_bind; [apply getLinkAnalytics_respects |].
      intros a _. apply respects_ret. simpl. auto.
    + apply respects_ret. simpl. auto.
  - intros e. apply answers_log_then. simpl. auto.
Qed.

(** *** The handlers that write *)

Hypothesis Rd_writes : writes_within Rd.

Lemma createLink_respects name originalUrl :
  respects Rd (fun _ => True) (createLink name originalUrl).
Proof.
  destruct Rd_writes as (Hins & _).
  unfold createLink.
  eapply respects_bind with (Q1 := fun _ => True).
  { intros w r w' E. inversion E; subst. simpl. auto. }
  intros id _. eapply respects_bind with (Q1 := fun _ => True).
  { intros w r w' E. inversion E; subst. simpl. auto. }
  intros shortCode _. eapply respects_bind with (Q1 := fun _ => True).
  { apply respects_run_statement. intros now d. split; [apply Hins |].
    destruct (fst _); exact I. }
  intros _ _. apply respects_query.
Qed.

Lemma deleteLink_respects id : respects Rd (fun _ => True) (deleteLink id).
Proof.
  destruct Rd_writes as (_ & _ & Hdc & Hdl & _).
  unfold deleteLink. eapply respects_bind with (Q1 := fun _ => True).
  { apply respects_run_statement. intros now d. simpl. split; [apply Hdc | exact I]. }
  intros _ _. eapply respects_bind with (Q1 := fun _ => True).
  { apply respects_run_statement. intros now d. split; [apply Hdl |].
    destruct (fst _); exact I. }
  intros changes _. apply respects_ret. exact I.
Qed.

Lemma recordClick_respects P linkId ip location userAgent referer :
  respects Rd (fun _ => True) (recordClick P linkId ip location userAgent referer).
Proof.
  destruct Rd_writes as (_ & Hbump & _ & _ & Hic).
  unfold recordClick, updateLinkClickCount.
  eapply respects_bind; [apply respects_lift | intros bound _].
  eapply respects_bind with (Q1 := fun _ => True).
  { apply respects_run_statement. intros now d. split; [apply Hic |].
    destruct (fst _); exact I. }
  intros _ _. apply respects_run_statement. intros now d. simpl.
  split; [apply Hbump | exact I].
Qed.

Lemma links_POST_answers P request :
  answers Rd (fun r => In (status_of r) [201; 400; 500]%nat) (links_POST P request).
Proof.
  unfold links_POST. apply answers_try_catch.
  - eapply respects_bind with (Q1 := fun _ => True).
    { destruct (Request.body request); [apply respects_ret; exact I | apply respects_throw]. }
    intros body _. eapply respects_bind; [apply respects_lift |].
    intros validated _. eapply respects_bind; [apply createLink_respects |].
    intros [link |] _; [apply respects_ret; simpl; auto | apply respects_throw].
  - intros e. destruct e; try (apply answers_log_then; simpl; auto).
    apply answers_ret. simpl. auto.
Qed.

Lemma links_DELETE_answers request :
  answers Rd (fun r => In (status_of r) [200; 400; 404; 500]%nat) (links_DELETE request).
Proof.
  unfold links_DELETE. apply answers_try_catch.
  - destruct (Request.id_param request) as [linkId |]; [| apply respects_ret; simpl; auto].
    destruct (nonempty linkId); [| apply respects_ret; simpl; auto].
    eapply respects_bind; [apply deleteLink_respects |].
    intros success _. destruct (negb success); apply respects_ret; simpl; auto.
  - intros e. apply answers_log_then. simpl. auto.
Qed.

Lemma track_try_respects P request shortCode :
  respects Rd (fun r => In (status_of r) [302; 404]%nat) (track_try P request shortCode).
Proof.
  unfold track_try, getLinkByShortCode.
  eapply respects_bind; [apply respects_query |].
  intros [link |] _; [| apply respects_ret; simpl; auto].
  eapply respects_bind; [apply answers_respects, answers_getLocationFromIP |].
  intros location _. eapply respects_bind; [apply recordClick_respects |].
  intros _ _. eapply respects_weaken; [apply respects_redirect |].
  intros r ->. simpl. auto.
Qed.

Lemma track_GET_answers P request shortCode :
  answers Rd (fun r => In (status_of r) [302; 404; 500]%nat) (track_GET P request shortCode).
Proof.
  unfold track_GET. apply answers_try_catch.
  - eapply respects_weaken; [apply track_try_respects |].
    simpl. intros r [H | [H | []]]; auto.
  - intros e. unfold track_catch.
    eapply answers_bind; [apply answers_console_log |]. intros _ _.
    eapply answers_bind with (Q1 := fun o => match o with
                                            | Some r => status_of r = 302%nat
                                            | None => True
                                            end).
    + unfold track_fallback, getLinkByShortCode. apply answers_try_catch.
      * eapply respects_bind; [apply respects_query |].
        intros [link |] _; [| apply respects_ret; exact I].
        eapply respects_bind; [apply respects_redirect |].
        intros r Hr. apply respects_ret. exact Hr.
      * intros _. apply answers_ret. exact I.
    + intros [r |] Hr; apply answers_ret; simpl; auto.
Qed.
End HandlerSpecs.

(** X3.  No route handler lets an exception escape: in every world and for
    every request each of the six handlers returns a response, and its status
    is one of the codes written in the handler. *)
Theorem handlers_always_answer (P : Platform) (request : Request.t)
    (shortCode linkId : string) :
  let any := fun _ _ : Database => True in
  answers any (fun r => In (status_of r) [200; 500]%nat) links_GET
  /\ answers any (fun r => In (status_of r) [201; 400; 500]%nat) (links_POST P request)
  /\ answers any (fun r => In (status_of r) [200; 400; 404; 500]%nat) (links_DELETE request)
  /\ answers any (fun r => In (status_of r) [200; 500]%nat) analytics_GET
  /\ answers any (fun r => In (status_of r) [200; 404; 500]%nat) (link_analytics_GET linkId)
  /\ answers any (fun r => In (status_of r) [302; 404; 500]%nat)
       (track_GET P request shortCode).
Proof.
  intros any.
  assert (R : forall d, any d d) by (intro; exact I).
  assert (T : forall a b c, any a b -> any b c -> any a c) by (intros; exact I).
  assert (W : writes_within any) by (repeat split).
  repeat split.
  - apply links_GET_answers; assumption.
  - apply links_POST_answers; assumption.
  - apply links_DELETE_answers; assumption.
  - apply analytics_GET_answers; assumption.
  - apply link_analytics_GET_answers; assumption.
  - apply track_GET_answers; assumption.
Qed.

(** X4.  The three handlers that list and summarise never write: whatever
    the engine does, the database after [GET /api/links], [GET /api/analytics]
    and [GET /api/analytics/{linkId}] is the database before. *)
Theorem read_handlers_leave_database (linkId : string) (w : World) :
  db (snd (links_GET w)) = db w
  /\ db (snd (analytics_GET w)) = db w
  /\ db (snd (link_analytics_GET linkId w)) = db w.
Proof.
  assert (R : forall d : Database, d = d) by reflexivity.
  assert (T : forall a b c : Database, a = b -> b = c -> a = c) by (intros; congruence).
  destruct (links_GET_answers eq R T w) as (r1 & w1 & E1 & D1 & _).
  destruct (analytics_GET_answers eq R T w) as (r2 & w2 & E2 & D2 & _).
  destruct (link_analytics_GET_answers eq R T linkId w) as (r3 & w3 & E3 & D3 & _).
  rewrite E1, E2, E3. simpl. auto.
Qed.

Lemma keys_writes_within : writes_within (fun d d' => keys_ok d -> keys_ok d').
Proof.
  unfold writes_within.
  repeat split; intros;
    match goal with
    | H : keys_ok _ |- _ =>
        apply statements_keep_keys in H; destruct H as (A & B & C & D & E)
    end;
    first [apply A | apply B | apply C | apply D | apply E].
Qed.

(** X5.  No handler can break the keys of [links]: from a database in which
    [id] and [short_code] are free of duplicates, every handler, whatever its
    outcome, leaves one in which they still are. *)
Theorem handlers_keep_keys (P : Platform) (request : Request.t)
    (shortCode linkId : string) (w : World) :
  keys_ok (db w) ->
  keys_ok (db (snd (links_GET w)))
  /\ keys_ok (db (snd (links_POST P request w)))
  /\ keys_ok (db (snd (links_DELETE request w)))
  /\ keys_ok (db (snd (analytics_GET w)))
  /\ keys_ok (db (snd (link_analytics_GET linkId w)))
  /\ keys_ok (db (snd (track_GET P request shortCode w))).
Proof.
  intros K.
  set (Rd := fun d d' : Database => keys_ok d -> keys_ok d').
  assert (R : forall d, Rd d d) by (intros d H; exact H).
  assert (T : forall a b c, Rd a b -> Rd b c -> Rd a c) by (unfold Rd; auto).
  pose proof keys_writes_within as W.
  destruct (links_GET_answers Rd R T w) as (r1 & w1 & E1 & D1 & _).
  destruct (links_POST_answers Rd R T W P request w) as (r2 & w2 & E2 & D2 & _).
  destruct (links_DELETE_answers Rd R T W request w) as (r3 & w3 & E3 & D3 & _).
  destruct (analytics_GET_answers Rd R T w) as (r4 & w4 & E4 & D4 & _).
  destruct (link_analytics_GET_answers Rd R T linkId w) as (r5 & w5 & E5 & D5 & _).
  destruct (track_GET_answers Rd R T W P request shortCode w) as (r6 & w6 & E6 & D6 & _).
  rewrite E1, E2, E3, E4, E5, E6. simpl. unfold Rd in *. auto 10.
Qed.

Lemma handlers_keep_keys_witness :
  keys_ok (db (quiet_world blog_database))
  /\ keys_ok (db (snd (links_POST basic_platform (post_request blog_payload)
                         (quiet_world blog_database)))).
Proof.
  assert (K : keys_ok (db (quiet_world blog_database))).
  { split; simpl; repeat constructor; intros []. }
  split; [exact K |].
  exact (proj1 (proj2 (handlers_keep_keys basic_platform (post_request blog_payload)
                         "uuuuuuuu" "id-blog" (quiet_world blog_database) K))).
Defined.

(** ** Listings *)

Lemma sort_by_key_sorted {A : Type} (key : A -> Z) l :
  StronglySorted (fun a b => (key b <= key a)%Z)
                 (sort_by (fun a b => Z.leb (key b) (key a)) l).
Proof.
  assert (S : StronglySorted (fun a b => Z.leb (key b) (key a) = true)
                (sort_by (fun a b => Z.leb (key b) (key a)) l)).
  { apply sort_by_sorted.
    - intros a b H. apply Z.leb_gt in H. apply Z.leb_le. lia.
    - intros a b c H1 H2. apply Z.leb_le in H1, H2. apply Z.leb_le. lia. }
  induction S as [| x r Hr IH Hx]; constructor; auto.
  eapply Forall_impl; [| exact Hx]. intros y. apply Z.leb_le.
Qed.

(** X6.  [GET /api/links] answers 200 with every link of the table, once
    each, latest [created_at] first; when the engine fails the statement it
    answers 500 "Failed to fetch links". *)
Theorem links_GET_newest_first (w : World) :
  if faults w (statements w)
  then fst (links_GET w) = Ok (Json (PFailure "Failed to fetch links") 500)
  else exists listed,
         fst (links_GET w) = Ok (Json (PLinks listed) 200)
         /\ Permutation listed (links (db w))
         /\ StronglySorted newest_links_first listed.
Proof.
  unfold links_GET, getAllLinks, try_catch, bind, run_statement.
  destruct (faults w (statements w)); [reflexivity |].
  exists (sql_all_links (db w)). split; [reflexivity |]. split.
  - apply Permutation_sym, sort_by_perm.
  - apply (sort_by_key_sorted Link.created_at).
Qed.

(** X7.  With the engine running the statement, [getClicksByLinkId] returns
    exactly the click rows of the link and [getAllClicks] every click row, each
    row once, latest [clicked_at] first. *)
Theorem getClicks_newest_first (linkId : string) (w : World) :
  faults w (statements w) = false ->
  (exists listed w',
      getClicksByLinkId linkId w = (Ok listed, w')
      /\ Permutation listed (filter (fun c => String.eqb (Click.link_id c) linkId)
                                    (clicks (db w)))
      /\ Forall (fun c => Click.link_id c = linkId) listed
      /\ StronglySorted newest_clicks_first listed)
  /\ (exists listed w',
        getAllClicks w = (Ok listed, w')
        /\ Permutation listed (clicks (db w))
        /\ StronglySorted newest_clicks_first listed).
Proof.
  intros Hf. unfold getClicksByLinkId, getAllClicks. rewrite !run_query_sound by exact Hf.
  split.
  - eexists. eexists. split; [reflexivity |].
    assert (Hperm : Permutation (sql_clicks_by_link linkId (db w))
                      (filter (fun c => String.eqb (Click.link_id c) linkId)
                              (clicks (db w))))
      by apply Permutation_sym, sort_by_perm.
    split; [exact Hperm |]. split.
    + eapply Permutation_Forall; [apply Permutation_sym; exact Hperm |].
      apply Forall_forall. intros c Hc. apply filter_In in Hc.
      apply String.eqb_eq. tauto.
    + apply (sort_by_key_sorted Click.clicked_at).
  - eexists. eexists. split; [reflexivity |]. split.
    + apply Permutation_sym, sort_by_perm.
    + apply (sort_by_key_sorted Click.clicked_at).
Qed.

Lemma getClicks_newest_first_witness :
  exists listed,
    fst (getClicksByLinkId "id-blog" (quiet_world visited_database)) = Ok listed
    /\ Forall (fun c => Click.link_id c = "id-blog") listed.
Proof.
  destruct (getClicks_newest_first "id-blog" (quiet_world visited_database) eq_refl)
    as ((listed & w' & E & _ & Hall & _) & _).
  exists listed. rewrite E. split; [reflexivity | exact Hall].
Defined.

Lemma in_firstn {A : Type} n (l : list A) x : In x (firstn n l) -> In x l.
Proof.
  revert n. induction l as [| y l IH]; intros n H; destruct n; simpl in *; try tauto.
  destruct H as [H | H]; [left; exact H | right; exact (IH n H)].
Qed.

Lemma firstn_sorted {A : Type} (R : A -> A -> Prop) n l :
  StronglySorted R l -> StronglySorted R (firstn n l).
Proof.
  revert n. induction l as [| x l IH]; intros n H; destruct n; simpl; try constructor.
  - apply IH. inversion H; assumption.
  - inversion H as [| ? ? _ Hx]; subst.
    apply Forall_forall. intros y Hy. apply (proj1 (Forall_forall _ _) Hx).
    exact (in_firstn n l y Hy).
Qed.

Lemma filter_none_existsb {A : Type} (p : A -> bool) l :
  filter p l = [] <-> existsb p l = false.
Proof.
  induction l as [| x l IH]; simpl; [tauto |].
  destruct (p x); simpl; [split; discriminate | exact IH].
Qed.

Lemma key_matches_once i ls :
  NoDup (map Link.id ls) ->
  filter (has_link_id i) ls = []
  \/ exists l, filter (has_link_id i) ls = [l].
Proof.
  induction ls as [| l ls IH]; simpl; intros H; [left; reflexivity |].
  inversion H as [| ? ? Hl Hls]; subst.
  destruct (has_link_id i l) eqn:E.
  - right. exists l. f_equal. apply filter_none_existsb.
    apply existsb_false_forall. intros x Hx.
    unfold has_link_id in *. apply String.eqb_eq in E.
    destruct (String.eqb_spec (Link.id x) i) as [Ex |]; [| reflexivity].
    exfalso. apply Hl. apply in_map_iff. exists x. split; [congruence | exact Hx].
  - apply IH. exact Hls.
Qed.

Lemma join_clicks_once ls cs :
  NoDup (map Link.id ls) ->
  map (fun row : Click.t * string * string => fst (fst row))
      (flat_map (fun c => map (fun l => (c, Link.name l, Link.short_code l))
                              (filter (has_link_id (Click.link_id c)) ls)) cs)
  = filter (fun c => existsb (has_link_id (Click.link_id c)) ls) cs.
Proof.
  intros Kid. induction cs as [| c cs IH]; simpl; [reflexivity |].
  rewrite map_app, map_map. simpl.
  destruct (key_matches_once (Click.link_id c) ls Kid) as [E | [l E]].
  - rewrite E. simpl. apply filter_none_existsb in E. rewrite E. exact IH.
  - rewrite E. simpl.
    assert (Ex : existsb (has_link_id (Click.link_id c)) ls = true).
    { destruct (existsb _ _) eqn:N; [reflexivity |].
      apply filter_none_existsb in N. congruence. }
    rewrite Ex, IH. reflexivity.
Qed.

Lemma sql_recent_clicks_rows d :
  exists rows,
    sql_recent_clicks d = firstn 10 rows
    /\ (forall row, In row rows <-> joined d row)
    /\ StronglySorted (fun a b => newest_clicks_first (fst (fst a)) (fst (fst b))) rows
    /\ (keys_ok d ->
        Permutation (map (fun row => fst (fst row)) rows)
                    (filter (fun c => existsb (has_link_id (Click.link_id c)) (links d))
                            (clicks d))).
Proof.
  set (join := flat_map
                 (fun c => map (fun l => (c, Link.name l, Link.short_code l))
                               (filter (has_link_id (Click.link_id c)) (links d)))
                 (clicks d)).
  set (before := fun a b : Click.t * string * string => newest_first (fst (fst a)) (fst (fst b))).
  exists (sort_by before join).
  assert (Hperm : Permutation join (sort_by before join)) by apply sort_by_perm.
  split; [reflexivity |]. split; [| split].
  - intros row. split.
    + intros H. apply (Permutation_in _ (Permutation_sym Hperm)) in H.
      apply in_flat_map in H. destruct H as (c & Hc & H).
      apply in_map_iff in H. destruct H as (l & <- & Hl).
      apply filter_In in Hl. destruct Hl as [Hl E]. apply String.eqb_eq in E.
      exists c, l. auto.
    + intros (c & l & Hc & Hl & E & ->). apply (Permutation_in _ Hperm).
      apply in_flat_map. exists c. split; [exact Hc |].
      apply in_map_iff. exists l. split; [reflexivity |].
      apply filter_In. split; [exact Hl | apply String.eqb_eq; exact E].
  - apply (sort_by_key_sorted (fun row : Click.t * string * string =>
                               Click.clicked_at (fst (fst row)))).
  - intros [Kid _].
    apply perm_trans with (map (fun row : Click.t * string * string => fst (fst row)) join);
      [apply Permutation_map, Permutation_sym, Hperm |].
    subst join. rewrite (join_clicks_once (links d) (clicks d) Kid).
    apply Permutation_refl.
Qed.

(** X8.  With the engine running the four statements, [recentClicks] of the
    global summary holds at most 10 rows, each a stored click joined with the
    name and short code of a link that has its [link_id]; they are the first
    10 of all such rows taken latest [clicked_at] first.  Where [id] is a key
    of [links], each click whose link exists gives one row and a click whose
    link is gone gives none. *)
Theorem getGlobalAnalytics_recentClicks (w : World) :
  (forall k, (k < 4)%nat -> faults w (k + statements w) = false) ->
  exists summary w',
    getGlobalAnalytics w = (Ok summary, w')
    /\ (length (GlobalAnalytics.recentClicks summary) <= 10)%nat
    /\ Forall (joined (db w)) (GlobalAnalytics.recentClicks summary)
    /\ exists rows,
         GlobalAnalytics.recentClicks summary = firstn 10 rows
         /\ (forall row, In row rows <-> joined (db w) row)
         /\ StronglySorted
              (fun a b => newest_clicks_first (fst (fst a)) (fst (fst b))) rows
         /\ (keys_ok (db w) ->
             Permutation
               (map (fun row => fst (fst row)) rows)
               (filter (fun c => existsb (has_link_id (Click.link_id c)) (links (db w)))
                       (clicks (db w)))).
Proof.
  intros Hf.
  assert (F0 := Hf 0%nat ltac:(lia)). assert (F1 := Hf 1%nat ltac:(lia)).
  assert (F2 := Hf 2%nat ltac:(lia)). assert (F3 := Hf 3%nat ltac:(lia)).
  unfold getGlobalAnalytics.
  rewrite (bind_ok _ _ _ _ _ (run_query_sound _ w F0)).
  rewrite (bind_ok _ _ _ _ _ (run_query_sound _ (after_statement w (db w)) F1)).
  rewrite (bind_ok _ _ _ _ _
             (run_query_sound _ (after_statement (after_statement w (db w)) (db w)) F2)).
  rewrite (bind_ok _ _ _ _ _
             (run_timed_query_sound sql_top_links
                (after_statement (after_statement (after_statement w (db w)) (db w)) (db w))
                F3)).
  eexists. eexists. split; [reflexivity |]. cbn [GlobalAnalytics.recentClicks db after_statement].
  destruct (sql_recent_clicks_rows (db w)) as (rows & E & Hin & Hsorted & Hkeys).
  rewrite E. split; [apply firstn_le_length |]. split.
  - apply Forall_forall. intros row Hrow. apply Hin. exact (in_firstn _ _ _ Hrow).
  - exists rows. auto.
Qed.

Lemma getGlobalAnalytics_recentClicks_witness :
  exists summary,
    fst (getGlobalAnalytics (quiet_world visited_database)) = Ok summary
    /\ Forall (joined visited_database) (GlobalAnalytics.recentClicks summary).
Proof.
  destruct (getGlobalAnalytics_recentClicks (quiet_world visited_database)
              (fun _ _ => eq_refl))
    as (summary & w' & E & _ & Hall & _).
  exists summary. rewrite E. split; [reflexivity | exact Hall].
Defined.

(** ** Grouped counts *)

Section Grouping.
Variable K : Type.
Variable eqb : K -> K -> bool.
Hypothesis eqb_eq : forall a b, eqb a b = true <-> a = b.

Lemma eqb_same k : eqb k k = true.
Proof. apply eqb_eq. reflexivity. Qed.

Lemma eqb_other a b : a <> b -> eqb a b = false.
Proof. intros H. destruct (eqb a b) eqn:E; [apply eqb_eq in E; contradiction | reflexivity]. Qed.

Lemma count_into_keys k acc :
  (In k (map fst acc) /\ map fst (count_into eqb k acc) = map fst acc)
  \/ (~ In k (map fst acc) /\ map fst (count_into eqb k acc) = (map fst acc ++ [k])%list).
Proof.
  induction acc as [| [k' n] acc IH]; simpl.
  - right. split; [tauto | reflexivity].
  - destruct (eqb k' k) eqn:E.
    + apply eqb_eq in E. subst. left. simpl. auto.
    + assert (Hne : k' <> k) by (intros ->; rewrite eqb_same in E; discriminate).
      destruct IH as [[Hin Hm] | [Hnin Hm]]; simpl; rewrite Hm.
      * left. auto.
      * right. split; [tauto | reflexivity].
Qed.

Lemma count_into_in k acc x n :
  NoDup (map fst acc) ->
  In (x, n) (count_into eqb k acc)
  <-> (x <> k /\ In (x, n) acc)
      \/ (x = k /\ exists m, In (k, m) acc /\ n = S m)
      \/ (x = k /\ ~ In k (map fst acc) /\ n = 1%nat).
Proof.
  induction acc as [| [k' m'] acc IH]; simpl; intros Hnd.
  - split.
    + intros [H | []]. inversion H; subst. right. right. tauto.
    + intros [[_ []] | [[_ (m & [] & _)] | (-> & _ & ->)]]. left. reflexivity.
  - inversion Hnd as [| ? ? Hk' Hnd']; subst. specialize (IH Hnd').
    destruct (eqb k' k) eqn:E.
    + apply eqb_eq in E. subst k'. simpl. split.
      * intros [H | H].
        -- inversion H; subst. right. left. split; [reflexivity |]. exists m'. auto.
        -- left. split; [| right; exact H]. intros ->. apply Hk'.
           apply in_map_iff. exists (k, n). auto.
      * intros [[Hne [H | H]] | [(-> & m & [H | H] & ->) | (-> & Hnin & _)]].
        -- inversion H; subst. contradiction.
        -- right. exact H.
        -- inversion H; subst. left. reflexivity.
        -- exfalso. apply Hk'. apply in_map_iff. exists (k, m). auto.
        -- exfalso. apply Hnin. left. reflexivity.
    + assert (Hne : k' <> k) by (intros ->; rewrite eqb_same in E; discriminate).
      simpl. rewrite IH. split.
      * intros [H | [[Hx H] | [(-> & m & H & ->) | (-> & Hnin & ->)]]].
        -- inversion H; subst. left. auto.
        -- left. auto.
        -- right. left. split; [reflexivity |]. exists m. auto.
        -- right. right. repeat split; auto. intros [H | H]; [contradiction | exact (Hnin H)].
      * intros [[Hx [H | H]] | [(-> & m & [H | H] & ->) | (-> & Hnin & ->)]].
        -- left. exact H.
        -- right. left. auto.
        -- inversion H; subst. contradiction.
        -- right. right. left. split; [reflexivity |]. exists m. auto.
        -- right. right. right. repeat split; auto.
Qed.

Lemma occurrences_snoc x k seen :
  occurrences eqb x (seen ++ [k]) = (occurrences eqb x seen + (if eqb x k then 1 else 0))%nat.
Proof.
  unfold occurrences. rewrite filter_app, length_app. simpl.
  destruct (eqb x k); reflexivity.
Qed.

Lemma count_into_counts k acc seen :
  counts_of eqb acc seen -> counts_of eqb (count_into eqb k acc) (seen ++ [k]).
Proof.
  intros [Hnd Hin]. split.
  - destruct (count_into_keys k acc) as [[_ E] | [Hnin E]]; rewrite E; [exact Hnd |].
    apply NoDup_snoc; assumption.
  - intros x n. rewrite (count_into_in k acc x n Hnd), occurrences_snoc. split.
    + intros [[Hne H] | [(-> & m & H & ->) | (-> & Hnin & ->)]].
      * rewrite (eqb_other _ _ Hne). apply Hin in H. lia.
      * rewrite eqb_same. apply Hin in H. lia.
      * rewrite eqb_same.
        assert (Z : occurrences eqb k seen = 0%nat).
        { destruct (occurrences eqb k seen) as [| o] eqn:O; [reflexivity |].
          exfalso. apply Hnin. apply in_map_iff. exists (k, S o). split; [reflexivity |].
          apply Hin. rewrite O. lia. }
        lia.
    + intros [-> Hpos]. destruct (eqb x k) eqn:E.
      * apply eqb_eq in E. subst x. right.
        destruct (occurrences eqb k seen) as [| o] eqn:O.
        -- right. repeat split; auto. intros Hk. apply in_map_iff in Hk.
           destruct Hk as ([k0 m] & Ek & Hk). simpl in Ek. subst k0.
           apply Hin in Hk. lia.
        -- left. split; [reflexivity |]. exists (S o). split; [| lia].
           apply Hin. rewrite O. lia.
      * left. split; [intros ->; rewrite eqb_same in E; discriminate |].
        apply Hin. lia.
Qed.

Lemma fold_count_into keys acc seen :
  counts_of eqb acc seen ->
  counts_of eqb (fold_left (fun groups k => count_into eqb k groups) keys acc)
            (seen ++ keys).
Proof.
  revert acc seen. induction keys as [| k keys IH]; intros acc seen H; simpl.
  - rewrite app_nil_r. exact H.
  - replace (seen ++ k :: keys)%list with ((seen ++ [k]) ++ keys)%list
      by (rewrite <- app_assoc; reflexivity).
    apply IH. apply count_into_counts. exact H.
Qed.

(** [GROUP BY] with [COUNT]: one group per key that occurs, carrying the
    number of its occurrences. *)
Lemma group_count_counts keys : counts_of eqb (group_count eqb keys) keys.
Proof.
  unfold group_count. apply (fold_count_into keys [] []).
  split; [constructor |]. intros k n. simpl. unfold occurrences. simpl. split; [tauto | lia].
Qed.

Lemma counts_of_perm acc acc' seen :
  Permutation acc acc' -> counts_of eqb acc seen -> counts_of eqb acc' seen.
Proof.
  intros Hp [Hnd Hin]. split.
  - eapply Permutation_NoDup; [apply Permutation_map; exact Hp | exact Hnd].
  - intros k n. rewrite <- Hin. split; apply Permutation_in;
      [apply Permutation_sym |]; exact Hp.
Qed.
End Grouping.

Lemma most_first_sorted {K : Type} (l : list (K * nat)) :
  StronglySorted (fun a b => (snd b <= snd a)%nat) (sort_by most_first l).
Proof.
  assert (S : StronglySorted (fun a b : K * nat => most_first a b = true)
                (sort_by most_first l)).
  { apply sort_by_sorted; unfold most_first.
    - intros a b H. apply Nat.leb_gt in H. apply Nat.leb_le. lia.
    - intros a b c H1 H2. apply Nat.leb_le in H1, H2. apply Nat.leb_le. lia. }
  induction S as [| x r Hr IH Hx]; constructor; auto.
  eapply Forall_impl; [| exact Hx]. intros y. apply Nat.leb_le.
Qed.

Lemma number_eqb_eq a b : number_eqb a b = true <-> a = b.
Proof.
  destruct a as [| s | s m e], b as [| s' | s' m' e']; simpl;
    try (split; [discriminate | intros H; inversion H]); try tauto.
  - rewrite Bool.eqb_true_iff. split; [intros ->; reflexivity | intros H; inversion H; reflexivity].
  - rewrite !andb_true_iff, Bool.eqb_true_iff, N.eqb_eq, Z.eqb_eq. split.
    + intros [[-> ->] ->]. reflexivity.
    + intros H. inversion H. auto.
Qed.

Lemma SqlValue_eqb_eq a b : SqlValue_eqb a b = true <-> a = b.
Proof.
  destruct a, b; simpl; try (split; [discriminate | intros H; inversion H]); try tauto.
  - rewrite number_eqb_eq. split; [intros ->; reflexivity | intros H; inversion H; reflexivity].
  - rewrite String.eqb_eq. split; [intros ->; reflexivity | intros H; inversion H; reflexivity].
Qed.

Lemma city_key_eqb_eq a b : city_key_eqb a b = true <-> a = b.
Proof.
  unfold city_key_eqb. destruct a as [a1 a2], b as [b1 b2]. simpl.
  rewrite andb_true_iff, !SqlValue_eqb_eq. split.
  - intros [-> ->]. reflexivity.
  - intros H. inversion H. auto.
Qed.

Lemma occurrences_map_filter {A K : Type} (eqb : K -> K -> bool) (f : A -> K)
    (p : A -> bool) k l :
  occurrences eqb k (map f (filter p l))
  = length (filter (fun x => p x && eqb k (f x)) l).
Proof.
  unfold occurrences. induction l as [| x l IH]; simpl; [reflexivity |].
  destruct (p x); simpl; [| exact IH].
  destruct (eqb k (f x)); simpl; rewrite IH; reflexivity.
Qed.

Lemma filter_length_ext {A : Type} (p q : A -> bool) l :
  (forall x, p x = q x) -> length (filter p l) = length (filter q l).
Proof. intros H. rewrite (filter_ext _ _ H). reflexivity. Qed.

(** [getLinkAnalytics] when the engine runs its four statements. *)
Lemma getLinkAnalytics_run linkId w :
  (forall k, (k < 4)%nat -> faults w (k + statements w) = false) ->
  getLinkAnalytics linkId w
  = (Ok (LinkAnalytics.mk
           (length (sql_clicks_by_link linkId (db w)))
           (sql_clicks_by_link linkId (db w))
           (sql_country_stats linkId (db w))
           (sql_city_stats linkId (db w))
           (sql_daily_stats linkId (clock w (3 + statements w)) (db w))),
     after_queries 4 w).
Proof.
  intros Hf.
  assert (F0 := Hf 0%nat ltac:(lia)). assert (F1 := Hf 1%nat ltac:(lia)).
  assert (F2 := Hf 2%nat ltac:(lia)). assert (F3 := Hf 3%nat ltac:(lia)).
  unfold getLinkAnalytics, getClicksByLinkId.
  rewrite (bind_ok _ _ _ _ _ (run_query_sound _ w F0)).
  rewrite (bind_ok _ _ _ _ _ (run_query_sound _ (after_statement w (db w)) F1)).
  rewrite (bind_ok _ _ _ _ _
             (run_query_sound _ (after_statement (after_statement w (db w)) (db w)) F2)).
  rewrite (bind_ok _ _ _ _ _
             (run_timed_query_sound (sql_daily_stats linkId)
                (after_statement (after_statement (after_statement w (db w)) (db w)) (db w))
                F3)).
  reflexivity.
Qed.

Lemma null_key_never_counted {A : Type} (p : A -> bool) (f : A -> SqlValue) l :
  length (filter (fun x => (p x && negb (is_null (f x))) && SqlValue_eqb SNull (f x)) l)
  = 0%nat.
Proof.
  induction l as [| x l IH]; simpl; [reflexivity |].
  destruct (f x); simpl; rewrite ?andb_false_r; simpl; exact IH.
Qed.

(** X9.  With the engine running the four statements, [countryStats] of the
    per-link summary has one row per country that is not [NULL] among the
    clicks of the link, the row carries the number of those clicks, and rows
    come larger counts first. *)
Theorem getLinkAnalytics_countryStats (linkId : string) (w : World) :
  (forall k, (k < 4)%nat -> faults w (k + statements w) = false) ->
  exists analytics w',
    getLinkAnalytics linkId w = (Ok analytics, w')
    /\ NoDup (map fst (LinkAnalytics.countryStats analytics))
    /\ (forall country n,
          In (country, n) (LinkAnalytics.countryStats analytics)
          <-> country <> SNull /\ (1 <= n)%nat
              /\ n = length (filter (fun c => String.eqb (Click.link_id c) linkId
                                              && SqlValue_eqb country (Click.country c))
                                    (clicks (db w))))
    /\ StronglySorted (fun a b => (snd b <= snd a)%nat)
                      (LinkAnalytics.countryStats analytics).
Proof.
  intros Hf. rewrite (getLinkAnalytics_run linkId w Hf).
  eexists. eexists. split; [reflexivity |]. cbn [LinkAnalytics.countryStats].
  unfold sql_country_stats.
  set (keys := map Click.country
                   (filter (fun c => of_link linkId c && negb (is_null (Click.country c)))
                           (clicks (db w)))).
  pose proof (counts_of_perm _ SqlValue_eqb _ _ keys (sort_by_perm _ most_first _)
                (group_count_counts _ SqlValue_eqb SqlValue_eqb_eq keys)) as [Hnd Hin].
  split; [exact Hnd |]. split; [| apply most_first_sorted].
  intros country n. rewrite Hin. subst keys. rewrite occurrences_map_filter.
  assert (Hcount : country <> SNull ->
            length (filter (fun x => (of_link linkId x && negb (is_null (Click.country x)))
                                     && SqlValue_eqb country (Click.country x))
                           (clicks (db w)))
            = length (filter (fun c => String.eqb (Click.link_id c) linkId
                                       && SqlValue_eqb country (Click.country c))
                             (clicks (db w)))).
  { intros Hne. apply filter_length_ext. intros c. unfold of_link.
    destruct (SqlValue_eqb country (Click.country c)) eqn:E; [| rewrite !andb_false_r; reflexivity].
    apply SqlValue_eqb_eq in E. rewrite <- E.
    destruct country; [contradiction | |]; simpl; rewrite !andb_true_r; reflexivity. }
  pose proof (null_key_never_counted (of_link linkId) Click.country (clicks (db w)))
    as Hnull.
  split.
  - intros [-> Hpos]. destruct (SqlValue_eqb_eq country SNull) as [_ Dec].
    assert (Hne : country <> SNull) by (intros ->; rewrite Hnull in Hpos; lia).
    rewrite (Hcount Hne) in *. auto.
  - intros (Hne & Hpos & ->). rewrite (Hcount Hne). auto.
Qed.

Lemma getLinkAnalytics_countryStats_witness :
  exists analytics,
    fst (getLinkAnalytics "id-blog" (quiet_world visited_database)) = Ok analytics
    /\ In (SText "Local", 1%nat) (LinkAnalytics.countryStats analytics).
Proof.
  destruct (getLinkAnalytics_countryStats "id-blog" (quiet_world visited_database)
              (fun _ _ => eq_refl))
    as (analytics & w' & E & _ & Hin & _).
  exists analytics. rewrite E. split; [reflexivity |].
  apply Hin. split; [discriminate | split; [lia | reflexivity]].
Defined.

Lemma null_city_never_counted {A : Type} (p : A -> bool) (f g : A -> SqlValue) k l :
  length (filter (fun x => (p x && negb (is_null (f x)))
                           && city_key_eqb (SNull, k) (f x, g x)) l)
  = 0%nat.
Proof.
  induction l as [| x l IH]; simpl; [reflexivity |].
  unfold city_key_eqb. simpl.
  destruct (f x); simpl; rewrite ?andb_false_r; simpl; exact IH.
Qed.

(** X10.  With the engine running the four statements, [cityStats] of the
    per-link summary holds at most 10 rows: the first 10, larger counts first,
    of one row per pair of city and country among the clicks of the link whose
    city is not [NULL], each with the number of those clicks. *)
Theorem getLinkAnalytics_cityStats (linkId : string) (w : World) :
  (forall k, (k < 4)%nat -> faults w (k + statements w) = false) ->
  exists analytics w' ranked,
    getLinkAnalytics linkId w = (Ok analytics, w')
    /\ LinkAnalytics.cityStats analytics = firstn 10 ranked
    /\ (length (LinkAnalytics.cityStats analytics) <= 10)%nat
    /\ NoDup (map fst ranked)
    /\ (forall city country n,
          In ((city, country), n) ranked
          <-> city <> SNull /\ (1 <= n)%nat
              /\ n = length (filter (fun c => String.eqb (Click.link_id c) linkId
                                              && (SqlValue_eqb city (Click.city c)
                                                  && SqlValue_eqb country (Click.country c)))
                                    (clicks (db w))))
    /\ StronglySorted (fun a b => (snd b <= snd a)%nat) ranked.
Proof.
  intros Hf. rewrite (getLinkAnalytics_run linkId w Hf).
  set (keys := map (fun c => (Click.city c, Click.country c))
                   (filter (fun c => of_link linkId c && negb (is_null (Click.city c)))
                           (clicks (db w)))).
  exists (LinkAnalytics.mk
            (length (sql_clicks_by_link linkId (db w)))
            (sql_clicks_by_link linkId (db w))
            (sql_country_stats linkId (db w))
            (sql_city_stats linkId (db w))
            (sql_daily_stats linkId (clock w (3 + statements w)) (db w))),
         (after_queries 4 w),
         (sort_by most_first (group_count city_key_eqb keys)).
  split; [reflexivity |]. split; [reflexivity |].
  split; [apply firstn_le_length |].
  pose proof (counts_of_perm _ city_key_eqb _ _ keys (sort_by_perm _ most_first _)
                (group_count_counts _ city_key_eqb city_key_eqb_eq keys)) as [Hnd Hin].
  split; [exact Hnd |]. split; [| apply most_first_sorted].
  intros city country n. rewrite Hin. subst keys.
  rewrite (occurrences_map_filter city_key_eqb (fun c => (Click.city c, Click.country c))).
  pose proof (null_city_never_counted (of_link linkId) Click.city Click.country country
                (clicks (db w))) as Hnull.
  assert (Hcount : city <> SNull ->
            length (filter (fun x => (of_link linkId x && negb (is_null (Click.city x)))
                                     && city_key_eqb (city, country)
                                                     (Click.city x, Click.country x))
                           (clicks (db w)))
            = length (filter (fun c => String.eqb (Click.link_id c) linkId
                                       && (SqlValue_eqb city (Click.city c)
                                           && SqlValue_eqb country (Click.country c)))
                             (clicks (db w)))).
  { intros Hne. apply filter_length_ext. intros c. unfold of_link, city_key_eqb. simpl.
    destruct (SqlValue_eqb city (Click.city c)) eqn:E;
      [| simpl; rewrite !andb_false_r; reflexivity].
    apply SqlValue_eqb_eq in E. rewrite <- E.
    destruct city; [contradiction | |]; simpl; rewrite !andb_true_r; reflexivity. }
  split.
  - intros [-> Hpos].
    assert (Hne : city <> SNull) by (intros ->; rewrite Hnull in Hpos; lia).
    rewrite (Hcount Hne) in *. auto.
  - intros (Hne & Hpos & ->). rewrite (Hcount Hne). auto.
Qed.

Lemma getLinkAnalytics_cityStats_witness :
  exists analytics,
    fst (getLinkAnalytics "id-blog" (quiet_world visited_database)) = Ok analytics
    /\ (length (LinkAnalytics.cityStats analytics) <= 10)%nat.
Proof.
  destruct (getLinkAnalytics_cityStats "id-blog" (quiet_world visited_database)
              (fun _ _ => eq_refl))
    as (analytics & w' & ranked & E & _ & Hlen & _).
  exists analytics. rewrite E. split; [reflexivity | exact Hlen].
Defined.

Lemma sorted_distinct_strict {A : Type} (key : A -> Z) l :
  StronglySorted (fun a b => (key a <= key b)%Z) l ->
  NoDup (map key l) ->
  StronglySorted (fun a b => (key a < key b)%Z) l.
Proof.
  induction 1 as [| x l Hl IH Hx]; intros Hnd; constructor.
  - apply IH. inversion Hnd; assumption.
  - inversion Hnd as [| ? ? Hnin _]; subst.
    apply Forall_forall. intros y Hy.
    pose proof (proj1 (Forall_forall _ _) Hx y Hy) as Hle. cbv beta in Hle.
    assert (key x <> key y).
    { intros E. apply Hnin. rewrite E. apply in_map. exact Hy. }
    lia.
Qed.

Lemma earliest_first_sorted (l : list (Z * nat)) :
  StronglySorted (fun a b => (fst a <= fst b)%Z)
                 (sort_by (fun a b => Z.leb (fst a) (fst b)) l).
Proof.
  assert (S : StronglySorted (fun a b : Z * nat => Z.leb (fst a) (fst b) = true)
                (sort_by (fun a b => Z.leb (fst a) (fst b)) l)).
  { apply sort_by_sorted.
    - intros a b H. apply Z.leb_gt in H. apply Z.leb_le. lia.
    - intros a b c H1 H2. apply Z.leb_le in H1, H2. apply Z.leb_le. lia. }
  induction S as [| x r Hr IH Hx]; constructor; auto.
  eapply Forall_impl; [| exact Hx]. intros y. apply Z.leb_le.
Qed.

(** X11.  With the engine running the four statements, [dailyStats] of the
    per-link summary has one row per calendar day on which the link was clicked
    within the 30 days before the statement runs, with the number of those
    clicks, days in strictly ascending order. *)
Theorem getLinkAnalytics_dailyStats (linkId : string) (w : World) :
  (forall k, (k < 4)%nat -> faults w (k + statements w) = false) ->
  let now := clock w (3 + statements w) in
  exists analytics w',
    getLinkAnalytics linkId w = (Ok analytics, w')
    /\ (forall day n,
          In (day, n) (LinkAnalytics.dailyStats analytics)
          <-> (1 <= n)%nat
              /\ n = length (filter (fun c => String.eqb (Click.link_id c) linkId
                                              && Z.leb (now - 30 * 86400) (Click.clicked_at c)
                                              && Z.eqb day (Click.clicked_at c / 86400))
                                    (clicks (db w))))
    /\ StronglySorted (fun a b => (fst a < fst b)%Z) (LinkAnalytics.dailyStats analytics).
Proof.
  intros Hf now. rewrite (getLinkAnalytics_run linkId w Hf).
  eexists. eexists. split; [reflexivity |]. cbn [LinkAnalytics.dailyStats].
  fold now. unfold sql_daily_stats.
  set (keys := map (fun c => DATE (Click.clicked_at c))
                   (filter (fun c => of_link linkId c && within_days 30 now c)
                           (clicks (db w)))).
  pose proof (counts_of_perm _ Z.eqb _ _ keys
                (sort_by_perm _ (fun a b => Z.leb (fst a) (fst b)) _)
                (group_count_counts _ Z.eqb Z.eqb_eq keys)) as [Hnd Hin].
  split.
  - intros day n. rewrite Hin. subst keys.
    rewrite (occurrences_map_filter Z.eqb (fun c => DATE (Click.clicked_at c))).
    tauto.
  - apply sorted_distinct_strict; [apply earliest_first_sorted | exact Hnd].
Qed.

Lemma getLinkAnalytics_dailyStats_witness :
  exists analytics,
    fst (getLinkAnalytics "id-blog" (quiet_world visited_database)) = Ok analytics
    /\ In (11%Z, 1%nat) (LinkAnalytics.dailyStats analytics).
Proof.
  destruct (getLinkAnalytics_dailyStats "id-blog" (quiet_world visited_database)
              (fun _ _ => eq_refl))
    as (analytics & w' & E & Hin & _).
  exists analytics. rewrite E. split; [reflexivity |].
  apply Hin. split; [lia | reflexivity].
Defined.

(** ** What every handler leaves of the world *)

Section WorldSpecs.
Variable R : World -> World -> Prop.
Hypothesis R_refl : forall w, R w w.
Hypothesis R_trans : forall a b c, R a b -> R b c -> R a c.
Hypothesis R_statement : forall w d, R w (after_statement w d).
Hypothesis R_logged : forall w label e, R w (logged w label e).
Hypothesis R_draw : forall w n, R w (after_draw w n).

Lemma within_ret {A : Type} (a : A) : within R (ret a).
Proof. intros w r w' E. inversion E; subst. apply R_refl. Qed.

Lemma within_throw {A : Type} e : within R (@throw A e).
Proof. intros w r w' E. inversion E; subst. apply R_refl. Qed.

Lemma within_lift {A : Type} (x : result A) : within R (lift x).
Proof. intros w r w' E. inversion E; subst. apply R_refl. Qed.

Lemma within_bind {A B : Type} (m : M A) (k : A -> M B) :
  within R m -> (forall a, within R (k a)) -> within R (bind m k).
Proof.
  intros Hm Hk w r w' E. unfold bind in E. destruct (m w) as [[a | e] w1] eqn:Em.
  - eapply R_trans; [exact (Hm _ _ _ Em) | exact (Hk a _ _ _ E)].
  - inversion E; subst. exact (Hm _ _ _ Em).
Qed.

Lemma within_try_catch {A : Type} (m : M A) h :
  within R m -> (forall e, within R (h e)) -> within R (try_catch m h).
Proof.
  intros Hm Hh w r w' E. unfold try_catch in E. destruct (m w) as [[a | e] w1] eqn:Em.
  - inversion E; subst. exact (Hm _ _ _ Em).
  - eapply R_trans; [exact (Hm _ _ _ Em) | exact (Hh e _ _ _ E)].
Qed.

Lemma within_run_statement {A : Type} (q : Z -> Database -> result A * Database) :
  within R (run_statement q).
Proof.
  intros w r w' E. unfold run_statement in E. destruct (faults w (statements w)).
  - inversion E; subst. apply R_statement.
  - destruct (q _ _) as [r0 d]. inversion E; subst. apply R_statement.
Qed.

Lemma within_console_log label e : within R (console_log label e).
Proof. intros w r w' E. inversion E; subst. apply R_logged. Qed.

Lemma within_nanoid n : within R (nanoid n).
Proof. intros w r w' E. inversion E; subst. apply R_draw. Qed.

Lemma within_redirect P url status : within R (redirect P url status).
Proof. unfold redirect. destruct (URL_parse P url); [apply within_ret | apply within_throw]. Qed.

Ltac within_steps :=
  repeat first
    [ apply within_ret | apply within_throw | apply within_lift
    | apply within_run_statement | apply within_console_log | apply within_nanoid
    | apply within_redirect
    | apply within_bind; [| intros ?]
    | apply within_try_catch; [| intros ?] ].

Lemma within_links_GET : within R links_GET.
Proof. unfold links_GET, getAllLinks. within_steps. Qed.

Lemma within_analytics_GET : within R analytics_GET.
Proof. unfold analytics_GET, getGlobalAnalytics. within_steps. Qed.

Lemma within_link_analytics_GET linkId : within R (link_analytics_GET linkId).
Proof.
  unfold link_analytics_GET, getLinkById, getLinkAnalytics, getClicksByLinkId.
  within_steps. destruct a; within_steps.
Qed.

Lemma within_links_POST P request : within R (links_POST P request).
Proof.
  unfold links_POST, createLink. within_steps.
  - destruct (Request.body request); within_steps.
  - destruct a1; within_steps.
  - destruct e; within_steps.
Qed.

Lemma within_links_DELETE request : within R (links_DELETE request).
Proof.
  unfold links_DELETE, deleteLink. within_steps.
  destruct (Request.id_param request) as [linkId |]; within_steps.
  destruct (nonempty linkId); within_steps.
  destruct (negb a); within_steps.
Qed.

Lemma within_recordClick P linkId ip location userAgent referer :
  within R (recordClick P linkId ip location userAgent referer).
Proof. unfold recordClick, updateLinkClickCount. within_steps. Qed.

Lemma within_track_catch P shortCode e : within R (track_catch P shortCode e).
Proof.
  unfold track_catch, track_fallback, getLinkByShortCode. within_steps.
  - destruct a0; within_steps.
  - destruct a0; within_steps.
Qed.

(** The tracking handler, given what the resolver leaves of the world. *)
Lemma within_track_GET P request shortCode :
  within R (getLocationFromIP P
              (string_or (getClientIP (Request.headers request)) "127.0.0.1")) ->
  within R (track_GET P request shortCode).
Proof.
  intros Hloc. unfold track_GET. apply within_try_catch.
  - unfold track_try, getLinkByShortCode.
    apply within_bind; [apply within_run_statement |].
    intros [link |]; [| apply within_ret]. cbv zeta.
    apply within_bind; [exact Hloc |]. intros location.
    apply within_bind; [apply within_recordClick | intros _; apply within_redirect].
  - intros e. apply within_track_catch.
Qed.

(** The resolver, where calls stay within [R]. *)
Lemma within_getLocationFromIP P ip :
  (forall w url, R w (after_fetch w url)) -> within R (getLocationFromIP P ip).
Proof.
  intros R_fetch.
  assert (F : forall url, within R (fetch url)).
  { intros url w r w' E. unfold fetch in E.
    destruct (net w url); inversion E; subst; apply R_fetch. }
  assert (J : forall response, within R (response_json response)).
  { intros response. unfold response_json. destruct (snd response); within_steps. }
  unfold getLocationFromIP. destruct (isLocalIP ip); [apply within_ret |].
  apply within_bind.
  - apply within_try_catch; [| intros e; within_steps].
    unfold primaryLookup. apply within_bind; [apply F |]. intros response.
    destruct (fst response); [| apply within_ret].
    apply within_bind; [apply J |]. intros data.
    apply within_bind; [apply within_lift |]. intros error.
    destruct (truthy error); within_steps.
  - intros [location |]; [apply within_ret |].
    apply within_bind.
    + apply within_try_catch; [| intros e; within_steps].
      unfold secondaryLookup. apply within_bind; [apply F |]. intros response.
      destruct (fst response); [| apply within_ret].
      apply within_bind; [apply J |]. intros data.
      apply within_bind; [apply within_lift |]. intros status.
      destruct (strict_equals_string status "success"); within_steps.
    + intros [location |]; apply within_ret.
Qed.
End WorldSpecs.

Lemma same_environment_refl w : same_environment w w.
Proof. repeat split. Qed.

Lemma same_environment_trans a b c :
  same_environment a b -> same_environment b c -> same_environment a c.
Proof. unfold same_environment. intuition congruence. Qed.

(** Every handler leaves the answers of the environment as they were. *)
Lemma handlers_same_environment P request shortCode linkId w :
  same_environment w (snd (links_GET w))
  /\ same_environment w (snd (links_POST P request w))
  /\ same_environment w (snd (links_DELETE request w))
  /\ same_environment w (snd (analytics_GET w))
  /\ same_environment w (snd (link_analytics_GET linkId w))
  /\ same_environment w (snd (track_GET P request shortCode w)).
Proof.
  assert (S : forall w d, same_environment w (after_statement w d)) by (repeat split).
  assert (L : forall w l e, same_environment w (logged w l e)) by (repeat split).
  assert (D : forall w n, same_environment w (after_draw w n)) by (repeat split).
  assert (F : forall w url, same_environment w (after_fetch w url)) by (repeat split).
  pose proof same_environment_refl as R. pose proof same_environment_trans as T.
  split; [| split; [| split; [| split; [| split]]]].
  - exact (within_links_GET _ R T S L w _ _ (surjective_pairing _)).
  - exact (within_links_POST _ R T S L D P request w _ _ (surjective_pairing _)).
  - exact (within_links_DELETE _ R T S L request w _ _ (surjective_pairing _)).
  - exact (within_analytics_GET _ R T S L w _ _ (surjective_pairing _)).
  - exact (within_link_analytics_GET _ R T S L linkId w _ _ (surjective_pairing _)).
  - exact (within_track_GET _ R T S L P request shortCode
             (within_getLocationFromIP _ R T L P _ (F)) w _ _ (surjective_pairing _)).
Qed.

(** ** Outbound calls *)

(** X12.  The resolver never throws and never touches the database.  It
    makes no call for a local address; one call when the primary service
    answers with a payload that reports no error and whose coordinates
    [parseFloat] takes (the result is then the mapping of that payload and the
    secondary service is not consulted); and otherwise two calls, the primary
    first: also when [parseFloat] throws on a coordinate, which the first
    [try] catches like any other failure. *)
Theorem getLocationFromIP_calls (P : Platform) (ip : string) (w : World) :
  exists location w',
    getLocationFromIP P ip w = (Ok location, w')
    /\ db w' = db w
    /\ ((isLocalIP ip = true /\ fetched w' = fetched w)
        \/ (isLocalIP ip = false
            /\ (exists data, primary_success P (net w (primaryURL ip)) data location)
            /\ fetched w' = (fetched w ++ [primaryURL ip])%list)
        \/ (isLocalIP ip = false
            /\ primary_failure P (net w (primaryURL ip))
            /\ fetched w' = (fetched w ++ [primaryURL ip; secondaryURL ip])%list)).
Proof.
  destruct (isLocalIP ip) eqn:L.
  - exists LocalLocation, w. unfold getLocationFromIP. rewrite L. auto.
  - destruct (primary_failure_or_success P (net w (primaryURL ip)))
      as [F | (data & location & S)].
    + unfold getLocationFromIP. rewrite L.
      destruct (primary_attempt_failure P ip w F) as (w1 & E1 & N1 & F1 & T1).
      rewrite (bind_ok _ _ _ _ _ E1).
      destruct (secondary_attempt ip w1) as (r & w2 & E2 & F2 & T2 & _).
      rewrite (bind_ok _ _ _ _ _ E2).
      assert (Hdb : db w2 = db w) by (destruct T1 as [H1 _], T2 as [H2 _]; congruence).
      assert (Hlog : fetched w2 = (fetched w ++ [primaryURL ip; secondaryURL ip])%list)
        by (rewrite F2, F1, <- app_assoc; reflexivity).
      destruct r; eexists; eexists; (split; [reflexivity |]);
        (split; [exact Hdb | right; right; auto]).
    + exists location, (after_fetch w (primaryURL ip)).
      split; [apply (getLocationFromIP_primary P ip w data); assumption |].
      split; [reflexivity |]. right. left. split; [reflexivity |].
      split; [exists data; exact S | reflexivity].
Qed.

Lemma no_call_trans a b c : no_call a b -> no_call b c -> no_call a c.
Proof. unfold no_call. congruence. Qed.

(** X13.  Only the tracking handler reaches the network, and only for a
    request whose client address is not local: the five other handlers make no
    outbound call, and neither does a tracked visit whose proxy headers give no
    valid address (the address then defaults to ['127.0.0.1']) or give a local
    one. *)
Theorem outbound_calls_only_when_tracking (P : Platform) (request : Request.t)
    (shortCode linkId : string) (w : World) :
  fetched (snd (links_GET w)) = fetched w
  /\ fetched (snd (links_POST P request w)) = fetched w
  /\ fetched (snd (links_DELETE request w)) = fetched w
  /\ fetched (snd (analytics_GET w)) = fetched w
  /\ fetched (snd (link_analytics_GET linkId w)) = fetched w
  /\ (getClientIP (Request.headers request) = None ->
      fetched (snd (track_GET P request shortCode w)) = fetched w)
  /\ (forall ip,
        getClientIP (Request.headers request) = Some ip -> isLocalIP ip = true ->
        fetched (snd (track_GET P request shortCode w)) = fetched w).
Proof.
  assert (R : forall w, no_call w w) by reflexivity.
  pose proof no_call_trans as T.
  assert (S : forall w d, no_call w (after_statement w d)) by reflexivity.
  assert (L : forall w l e, no_call w (logged w l e)) by reflexivity.
  assert (D : forall w n, no_call w (after_draw w n)) by reflexivity.
  assert (Local : forall ip, isLocalIP ip = true -> within no_call (getLocationFromIP P ip)).
  { intros ip Hl v r v' E. unfold getLocationFromIP in E. rewrite Hl in E.
    inversion E; subst. reflexivity. }
  split; [| split; [| split; [| split; [| split; [| split]]]]].
  - exact (within_links_GET _ R T S L w _ _ (surjective_pairing _)).
  - exact (within_links_POST _ R T S L D P request w _ _ (surjective_pairing _)).
  - exact (within_links_DELETE _ R T S L request w _ _ (surjective_pairing _)).
  - exact (within_analytics_GET _ R T S L w _ _ (surjective_pairing _)).
  - exact (within_link_analytics_GET _ R T S L linkId w _ _ (surjective_pairing _)).
  - intros Hnone.
    refine (within_track_GET _ R T S L P request shortCode _ w _ _ (surjective_pairing _)).
    rewrite Hnone. apply Local. reflexivity.
  - intros ip Hsome Hl.
    refine (within_track_GET _ R T S L P request shortCode _ w _ _ (surjective_pairing _)).
    rewrite Hsome. unfold string_or.
    destruct (nonempty ip) eqn:N; [apply Local; exact Hl | apply Local; reflexivity].
Qed.

(** ** What a visit stores *)

Lemma getClientIP_valid h ip : getClientIP h = Some ip -> isValidIP ip = true.
Proof.
  intros H. apply getClientIP_loop_some in H.
  destruct H as (_ & _ & _ & _ & _ & _ & V). exact V.
Qed.

(** X14.  A visit the handler records stores the client address it took from
    the proxy headers, which is a valid IP, or ['127.0.0.1'] when the headers
    give none; the user agent as sent; and the referer with its query removed
    ([null] when it is absent or no URL).  The row takes the next id of the
    sequence and the instant of the insert. *)
Theorem track_GET_stored_row (P : Platform) (request : Request.t) (shortCode : string)
    (w w' : World) (link : Link.t) (response : HttpResponse) :
  sql_link_by_short_code shortCode (db w) = Some link ->
  track_try P request shortCode w = (Ok response, w') ->
  exists click ip,
    clicks (db w') = (clicks (db w) ++ [click])%list
    /\ Click.link_id click = Link.id link
    /\ Click.id click = (clicks_seq (db w) + 1)%Z
    /\ Click.clicked_at click = clock w (S (statements w))
    /\ Click.ip_address click = Some ip
    /\ isValidIP ip = true
    /\ (getClientIP (Request.headers request) = Some ip
        \/ (getClientIP (Request.headers request) = None /\ ip = "127.0.0.1"))
    /\ Click.user_agent click = headers_get (Request.headers request) "user-agent"
    /\ Click.referer click
       = sanitizeReferer P (headers_get (Request.headers request) "referer")
    /\ (forall stored,
          Click.referer click = Some stored ->
          exists url, URL.query url = None /\ stored = URL_toString url).
Proof.
  intros Hlink Hrun.
  unfold track_try, getLinkByShortCode in Hrun.
  apply bind_inv_ok in Hrun. destruct Hrun as (found & w0 & Hfind & Hrun).
  apply run_statement_inv_ok in Hfind. destruct Hfind as (_ & d0 & Hq & ->).
  unfold query in Hq. rewrite Hlink in Hq. inversion Hq; subst found d0; clear Hq.
  cbv zeta in Hrun.
  apply bind_inv_ok in Hrun. destruct Hrun as (location & w1 & Hloc & Hrun).
  destruct (getLocationFromIP_total P
              (string_or (getClientIP (Request.headers request)) "127.0.0.1")
              (after_statement w (db w)))
    as (location' & w1' & Hloc' & Hdb1 & _ & Hclock & Hst).
  rewrite Hloc' in Hloc. inversion Hloc; subst location' w1'; clear Hloc.
  apply bind_inv_ok in Hrun. destruct Hrun as ([] & w2 & Hrec & Hrun).
  apply redirect_inv_ok in Hrun. destruct Hrun as (_ & -> & _).
  apply recordClick_row in Hrec.
  destruct Hrec as (a & b & c & x & y & _ & Hclicks & _).
  rewrite Hdb1, Hclock, Hst in Hclicks. cbn [db clock statements after_statement] in Hclicks.
  eexists. exists (string_or (getClientIP (Request.headers request)) "127.0.0.1").
  split; [exact Hclicks |]. cbn.
  split; [reflexivity |]. split; [reflexivity |]. split; [reflexivity |].
  split; [reflexivity |].
  assert (Hip : isValidIP (string_or (getClientIP (Request.headers request)) "127.0.0.1")
                = true
                /\ (getClientIP (Request.headers request)
                    = Some (string_or (getClientIP (Request.headers request)) "127.0.0.1")
                    \/ (getClientIP (Request.headers request) = None
                        /\ string_or (getClientIP (Request.headers request)) "127.0.0.1"
                           = "127.0.0.1"))).
  { destruct (getClientIP (Request.headers request)) as [ip |] eqn:G.
    - pose proof (getClientIP_valid _ _ G) as V. unfold string_or.
      destruct ip as [| ch ip]; [discriminate V |]. simpl. auto.
    - simpl. split; [reflexivity | auto]. }
  destruct Hip as [V Hwhich].
  split; [exact V |]. split; [exact Hwhich |].
  split; [reflexivity |]. split; [reflexivity |].
  intros stored Hs. unfold sanitizeReferer in Hs.
  destruct (headers_get (Request.headers request) "referer") as [r |]; [| discriminate].
  destruct (negb (nonempty r)); [discriminate |].
  destruct (URL_parse P r) as [u |]; [| discriminate].
  inversion Hs. exists (URL_clear_search u). split; reflexivity.
Qed.

Lemma track_GET_stored_row_witness :
  exists click,
    clicks (db (snd (track_try basic_platform plain_request "uuuuuuuu"
                       (quiet_world blog_database))))
    = [click]
    /\ Click.ip_address click = Some "127.0.0.1".
Proof.
  destruct (track_GET_stored_row basic_platform plain_request "uuuuuuuu"
              (quiet_world blog_database)
              (snd (track_try basic_platform plain_request "uuuuuuuu"
                      (quiet_world blog_database)))
              blog_link (Redirect "https://example.com" 302) eq_refl eq_refl)
    as (click & ip & Hclicks & _ & _ & _ & Hip & _ & [Hsome | [_ ->]] & _).
  - discriminate Hsome.
  - exists click. split; [exact Hclicks | exact Hip].
Defined.

Lemma getLocationFromIP_result P ip w location w' :
  getLocationFromIP P ip w = (Ok location, w') ->
  location = LocalLocation
  \/ location = UnknownLocation
  \/ (exists data, primary_success P (net w (primaryURL ip)) data location)
  \/ (exists data, secondary_success (net w (secondaryURL ip)) data
                   /\ location = secondaryLocation data).
Proof.
  unfold getLocationFromIP. destruct (isLocalIP ip).
  { intros H. inversion H. auto. }
  destruct (primary_failure_or_success P (net w (primaryURL ip)))
    as [F | (data & found & S)].
  - destruct (primary_attempt_failure P ip w F) as (w1 & E1 & N1 & _ & _).
    rewrite (bind_ok _ _ _ _ _ E1).
    destruct (secondary_attempt ip w1) as (r & w2 & E2 & _ & _ & Hf & Hs).
    rewrite (bind_ok _ _ _ _ _ E2). rewrite N1 in Hf, Hs.
    destruct (secondary_failure_or_success (net w (secondaryURL ip))) as [F2 | [data S2]].
    + rewrite (Hf F2). intros H. inversion H. auto.
    + rewrite (Hs data S2). intros H. inversion H. right. right. right. eauto.
  - unfold bind, try_catch. rewrite (primaryLookup_success P ip w data found S).
    intros H. inversion H; subst. right. right. left. eauto.
Qed.

Lemma js_or_null_binds v : plain_value v -> exists x, bind_value (js_or v JNull) = Ok x.
Proof.
  unfold js_or. destruct v as [| | b | n | s | |]; simpl; intros H; try contradiction;
    try (eexists; reflexivity).
  - subst b. eexists; reflexivity.
  - destruct n; simpl; try (eexists; reflexivity).
    destruct (negb (N.eqb mantissa 0)); eexists; reflexivity.
  - destruct (nonempty s); eexists; reflexivity.
Qed.

Lemma coordinate_binds P v c : coordinate P v = Ok c -> exists x, bind_value c = Ok x.
Proof.
  unfold coordinate. destruct (truthy v).
  - destruct (parseFloat P v) as [n |]; [| discriminate]. intros H. inversion H.
    destruct n; eexists; reflexivity.
  - intros H. inversion H. eexists; reflexivity.
Qed.

(** A value that is bound on its own takes the next parameter. *)
Lemma bind_each_value params v rest named bound x :
  bind_value v = Ok x ->
  bind_each params (v :: rest) named bound
  = match bind_next params v bound with
    | Ok bound' => bind_each params rest named bound'
    | Throw e => Throw e
    end.
Proof. destruct v; try discriminate; reflexivity. Qed.

(** Five values that are each bound on their own are bound together. *)
Lemma values_bindable location :
  (forall v, In v (location_arguments location) -> exists x, bind_value v = Ok x) ->
  bindable location.
Proof.
  intros H. unfold bindable, bind_arguments, location_arguments in *.
  destruct (H (LocationData.country location)) as [a Ha]; [simpl; auto |].
  destruct (H (LocationData.city location)) as [b Hb]; [simpl; auto |].
  destruct (H (LocationData.region location)) as [c Hc]; [simpl; auto |].
  destruct (H (LocationData.latitude location)) as [x Hx]; [simpl; auto 6 |].
  destruct (H (LocationData.longitude location)) as [y Hy]; [simpl; auto 6 |].
  rewrite (bind_each_value _ _ _ _ _ _ Ha), (bind_next_fits 5 _ [] a Ha) by (simpl; lia).
  rewrite (bind_each_value _ _ _ _ _ _ Hb), (bind_next_fits 5 _ _ b Hb) by (simpl; lia).
  rewrite (bind_each_value _ _ _ _ _ _ Hc), (bind_next_fits 5 _ _ c Hc) by (simpl; lia).
  rewrite (bind_each_value _ _ _ _ _ _ Hx), (bind_next_fits 5 _ _ x Hx) by (simpl; lia).
  rewrite (bind_each_value _ _ _ _ _ _ Hy), (bind_next_fits 5 _ _ y Hy) by (simpl; lia).
  eexists. reflexivity.
Qed.

(** Payloads with plain fields give locations that bind. *)
Lemma plain_location_bindable P ip w location w' :
  plain_network w ->
  getLocationFromIP P ip w = (Ok location, w') ->
  bindable location.
Proof.
  intros Hplain H. apply getLocationFromIP_result in H. apply values_bindable.
  destruct H as [-> | [-> | [(data & [E [_ L]]) | (data & [E _] & ->)]]];
    intros v Hv; simpl in Hv.
  - destruct Hv as [<- | [<- | [<- | [<- | [<- | []]]]]]; eexists; reflexivity.
  - destruct Hv as [<- | [<- | [<- | [<- | [<- | []]]]]]; eexists; reflexivity.
  - assert (Hp : forall key, plain_value (prop_of data key))
      by (intro key; exact (Hplain _ _ _ key E)).
    unfold primaryLocation in L.
    destruct (coordinate P (prop_of data "latitude")) as [la |] eqn:Ela; [| discriminate].
    destruct (coordinate P (prop_of data "longitude")) as [lo |] eqn:Elo; [| discriminate].
    inversion L; subst location; clear L. simpl in Hv.
    destruct Hv as [<- | [<- | [<- | [<- | [<- | []]]]]];
      try (apply js_or_null_binds; apply Hp).
    + exact (coordinate_binds P _ _ Ela).
    + exact (coordinate_binds P _ _ Elo).
  - assert (Hp : forall key, plain_value (prop_of data key))
      by (intro key; exact (Hplain _ _ _ key E)).
    destruct Hv as [<- | [<- | [<- | [<- | [<- | []]]]]];
      apply js_or_null_binds; apply Hp.
Qed.

Lemma track_try_inv P request shortCode w w' link response :
  sql_link_by_short_code shortCode (db w) = Some link ->
  track_try P request shortCode w = (Ok response, w') ->
  exists location w1,
    getLocationFromIP P (string_or (getClientIP (Request.headers request)) "127.0.0.1")
                      (after_statement w (db w)) = (Ok location, w1)
    /\ recordClick P (Link.id link)
         (Some (string_or (getClientIP (Request.headers request)) "127.0.0.1"))
         location (headers_get (Request.headers request) "user-agent")
         (sanitizeReferer P (headers_get (Request.headers request) "referer")) w1
       = (Ok tt, w')
    /\ response = Redirect (Link.original_url link) 302.
Proof.
  intros Hlink Hrun.
  unfold track_try, getLinkByShortCode in Hrun.
  apply bind_inv_ok in Hrun. destruct Hrun as (found & w0 & Hfind & Hrun).
  apply run_statement_inv_ok in Hfind. destruct Hfind as (_ & d0 & Hq & ->).
  unfold query in Hq. rewrite Hlink in Hq. inversion Hq; subst found d0; clear Hq.
  cbv zeta in Hrun.
  apply bind_inv_ok in Hrun. destruct Hrun as (location & w1 & Hloc & Hrun).
  apply bind_inv_ok in Hrun. destruct Hrun as ([] & w2 & Hrec & Hrun).
  apply redirect_inv_ok in Hrun. destruct Hrun as (-> & -> & _).
  exists location, w1. auto.
Qed.

(** X15.  When the services answer with plain JSON (strings, numbers,
    [null] or missing fields), the engine runs the three statements and the
    destination parses, no step of the tracking handler throws: the visitor is
    redirected by the [try] block itself, one click row of the link is stored
    and the counter of the link is raised. *)
Theorem track_GET_plain_network_records (P : Platform) (request : Request.t)
    (shortCode : string) (w : World) (link : Link.t) :
  sql_link_by_short_code shortCode (db w) = Some link ->
  (forall k, (k < 3)%nat -> faults w (k + statements w) = false) ->
  URL_parse P (Link.original_url link) <> None ->
  plain_network w ->
  exists w' click,
    track_GET P request shortCode w = (Ok (Redirect (Link.original_url link) 302), w')
    /\ clicks (db w') = (clicks (db w) ++ [click])%list
    /\ Click.link_id click = Link.id link
    /\ sql_link_by_short_code shortCode (db w') = Some (bump link).
Proof.
  intros Hlink Hf Hurl Hplain.
  destruct (track_try_completes P request shortCode w link Hlink Hf Hurl) as [w' E].
  { intros location w1 Hloc. eapply plain_location_bindable; [| exact Hloc].
    exact Hplain. }
  destruct (track_try_inv _ _ _ _ _ _ _ Hlink E) as (location & w1 & Hloc & Hrec & _).
  destruct (getLocationFromIP_total P
              (string_or (getClientIP (Request.headers request)) "127.0.0.1")
              (after_statement w (db w))) as (l' & w1' & Hloc' & Hdb & _).
  rewrite Hloc in Hloc'. inversion Hloc'; subst l' w1'.
  apply recordClick_ok in Hrec. destruct Hrec as ((click & Hclicks & Hid & _) & Hlinks).
  rewrite Hdb in Hclicks, Hlinks. simpl in Hclicks, Hlinks.
  exists w', click.
  split; [unfold track_GET; apply (try_catch_ok _ _ _ _ _ E) |].
  split; [exact Hclicks |]. split; [exact Hid |].
  unfold sql_link_by_short_code in *. rewrite Hlinks.
  rewrite find_short_code_map by (intro l; apply bump_if_keeps).
  rewrite Hlink. simpl. rewrite bump_if_same. reflexivity.
Qed.

Lemma track_GET_plain_network_records_witness :
  exists w' click,
    track_GET basic_platform (proxied_request "8.8.8.8") "uuuuuuuu"
              (served_world paris_payload blog_database)
    = (Ok (Redirect "https://example.com" 302), w')
    /\ clicks (db w') = [click]
    /\ fetched w' = [primaryURL "8.8.8.8"].
Proof.
  assert (Hplain : plain_network (served_world paris_payload blog_database)).
  { intros url ok data key H. cbn [net served_world] in H.
    destruct (String.eqb url (primaryURL "8.8.8.8")); [| discriminate H].
    inversion H; subst data. unfold prop_of, js_prop, paris_payload. cbn [assoc_get].
    destruct (String.eqb "country_name" key); [exact I |].
    destruct (String.eqb "city" key); [exact I |].
    destruct (String.eqb "latitude" key); exact I. }
  assert (Hurl : URL_parse basic_platform (Link.original_url blog_link) <> None)
    by discriminate.
  destruct (track_GET_plain_network_records basic_platform (proxied_request "8.8.8.8")
              "uuuuuuuu" (served_world paris_payload blog_database) blog_link eq_refl
              (fun _ _ => eq_refl) Hurl Hplain)
    as (w' & click & E & Hclicks & _).
  exists w', click. split; [exact E |]. split; [exact Hclicks |].
  pose proof (f_equal (fun p => fetched (snd p)) E) as Hlog.
  symmetry. exact Hlog.
Defined.



(** ** The location a visit stores *)

Lemma bind_value_not_nan v x : bind_value v = Ok x -> x <> SReal NaN.
Proof.
  destruct v as [| | b | n | t | |]; try discriminate;
    try (intros H; inversion H; discriminate).
  destruct n; intros H; inversion H; discriminate.
Qed.

Lemma bind_array_not_nan params items bound bound' :
  bind_array params items bound = Ok bound' ->
  Forall (fun x => x <> SReal NaN) bound ->
  Forall (fun x => x <> SReal NaN) bound'.
Proof.
  revert bound. induction items as [| v items IH]; intros bound H Hb; simpl in H.
  - inversion H; subst. exact Hb.
  - destruct (bind_next params v bound) as [b1 |] eqn:E; [| discriminate].
    apply bind_next_inv in E. destruct E as (x & Hx & -> & _).
    apply (IH _ H). apply Forall_app. split; [exact Hb |].
    constructor; [exact (bind_value_not_nan v x Hx) | constructor].
Qed.

Lemma bind_each_not_nan params args named bound named' bound' :
  bind_each params args named bound = Ok (named', bound') ->
  Forall (fun x => x <> SReal NaN) bound ->
  Forall (fun x => x <> SReal NaN) bound'.
Proof.
  revert named bound. induction args as [| v args IH]; intros named bound H Hb.
  - simpl in H. inversion H; subst. exact Hb.
  - destruct v as [| | b | n | t | items | fields].
    1-5: cbn [bind_each] in H;
         match type of H with
         | match ?m with _ => _ end = _ =>
             remember m as r eqn:E in H; symmetry in E;
             destruct r as [b1 |]; [| discriminate]
         end;
         apply bind_next_inv in E; destruct E as (x & Hx & -> & _);
         apply (IH _ _ H); apply Forall_app; split; [exact Hb |];
         constructor; [exact (bind_value_not_nan _ x Hx) | constructor].
    + simpl in H. destruct (bind_array params items bound) as [b1 |] eqn:E; [| discriminate].
      apply (IH _ _ H). exact (bind_array_not_nan _ _ _ _ E Hb).
    + simpl in H. destruct named; [discriminate |]. exact (IH _ _ H Hb).
Qed.

Lemma bind_arguments_not_nan params args values :
  bind_arguments params args = Ok values -> Forall (fun x => x <> SReal NaN) values.
Proof.
  unfold bind_arguments.
  destruct (bind_each params args false []) as [[named bound] |] eqn:E; [| discriminate].
  destruct (length bound <? params)%nat; [discriminate |].
  intros H. inversion H; subst. exact (bind_each_not_nan _ _ _ _ _ _ E (Forall_nil _)).
Qed.

(** X22.  The location columns of the row a completed visit stores.  The
    five location arguments are bound as better-sqlite3 binds them: an array
    is spread over the parameters, [undefined] and [NaN] are stored as [NULL].
    The row holds the five values under the affinity of its columns: a [TEXT]
    column ([country], [city], [region]) never holds a number, which is
    stored as its text, and a text handed to a [REAL] column ([latitude],
    [longitude]) is stored as the number it spells. *)
Theorem track_GET_stored_location (P : Platform) (request : Request.t)
    (shortCode : string) (w w' : World) (link : Link.t) (response : HttpResponse) :
  sql_link_by_short_code shortCode (db w) = Some link ->
  track_try P request shortCode w = (Ok response, w') ->
  exists location w1 country city region latitude longitude click,
    getLocationFromIP P (string_or (getClientIP (Request.headers request)) "127.0.0.1")
                      (after_statement w (db w)) = (Ok location, w1)
    /\ bind_arguments 5 (location_arguments location)
       = Ok [country; city; region; latitude; longitude]
    /\ Forall (fun x => x <> SReal NaN) [country; city; region; latitude; longitude]
    /\ clicks (db w') = (clicks (db w) ++ [click])%list
    /\ Click.country click = text_affinity P country
    /\ Click.city click = text_affinity P city
    /\ Click.region click = text_affinity P region
    /\ Click.latitude click = real_affinity P latitude
    /\ Click.longitude click = real_affinity P longitude
    /\ (forall n, Click.country click <> SReal n /\ Click.city click <> SReal n
                  /\ Click.region click <> SReal n)
    /\ (forall text n,
          latitude = SText text -> text_to_real P text = Some n ->
          Click.latitude click = SReal n).
Proof.
  intros Hlink Hrun.
  destruct (track_try_inv _ _ _ _ _ _ _ Hlink Hrun) as (location & w1 & Hloc & Hrec & _).
  destruct (getLocationFromIP_total P
              (string_or (getClientIP (Request.headers request)) "127.0.0.1")
              (after_statement w (db w))) as (l' & w1' & Hloc' & Hdb & _).
  rewrite Hloc in Hloc'. inversion Hloc'; subst l' w1'; clear Hloc'.
  apply recordClick_row in Hrec.
  destruct Hrec as (a & b & c & x & y & Hbound & Hclicks & _).
  rewrite Hdb in Hclicks. cbn [db after_statement] in Hclicks.
  exists location, w1, a, b, c, x, y. eexists.
  split; [exact Hloc |]. split; [exact Hbound |].
  split; [exact (bind_arguments_not_nan _ _ _ Hbound) |].
  split; [exact Hclicks |]. cbn [Click.country Click.city Click.region Click.latitude
                                  Click.longitude].
  repeat (split; [reflexivity |]). split.
  - intros n. repeat split; [destruct a | destruct b | destruct c]; discriminate.
  - intros text n -> Hn. cbn [real_affinity]. rewrite Hn. reflexivity.
Qed.

Lemma track_GET_stored_location_witness :
  exists click,
    clicks (db (snd (track_try basic_platform plain_request "uuuuuuuu"
                       (quiet_world blog_database))))
    = [click]
    /\ Click.country click = SText "Local"
    /\ Click.latitude click = SNull.
Proof.
  destruct (track_GET_stored_location basic_platform plain_request "uuuuuuuu"
              (quiet_world blog_database)
              (snd (track_try basic_platform plain_request "uuuuuuuu"
                      (quiet_world blog_database)))
              blog_link (Redirect "https://example.com" 302) eq_refl eq_refl)
    as (location & w1 & a & b & c & x & y & click
        & Hloc & Hbound & _ & Hclicks & Hco & _ & _ & Hla & _).
  inversion Hloc; subst location w1. inversion Hbound; subst a b c x y.
  exists click. split; [exact Hclicks |]. split; [exact Hco | exact Hla].
Defined.

(** ** Deleting, then asking *)

Lemma filter_after_delete id (f : Click.t -> bool) l :
  filter (fun c => of_link id c && f c) (filter (fun c => negb (of_link id c)) l) = [].
Proof.
  induction l as [| c l IH]; simpl; [reflexivity |].
  destruct (of_link id c) eqn:E; simpl; [exact IH | rewrite E; exact IH].
Qed.

Lemma filter_of_link_after_delete id l :
  filter (of_link id) (filter (fun c => negb (of_link id c)) l) = [].
Proof.
  induction l as [| c l IH]; simpl; [reflexivity |].
  destruct (of_link id c) eqn:E; simpl; [exact IH | rewrite E; exact IH].
Qed.

Lemma filter_other_after_delete id other l :
  other <> id ->
  filter (of_link other) (filter (fun c => negb (of_link id c)) l) = filter (of_link other) l.
Proof.
  intros Hne. induction l as [| c l IH]; simpl; [reflexivity |].
  destruct (of_link id c) eqn:E; simpl.
  - destruct (of_link other c) eqn:E'; [| exact IH].
    unfold of_link in *. apply String.eqb_eq in E, E'. congruence.
  - rewrite IH. reflexivity.
Qed.

Lemma find_after_delete id ls :
  find (has_link_id id) (filter (fun l => negb (has_link_id id l)) ls) = None.
Proof.
  induction ls as [| l ls IH]; simpl; [reflexivity |].
  destruct (has_link_id id l) eqn:E; simpl; [exact IH | rewrite E; exact IH].
Qed.

Lemma deleteLink_inv id w removed w1 :
  deleteLink id w = (Ok removed, w1) ->
  faults w (statements w) = false
  /\ faults w (S (statements w)) = false
  /\ w1 = after_statement (after_statement w (sql_delete_clicks id (db w)))
                          (without_link id (db w))
  /\ removed = (0 <? length (filter (has_link_id id) (links (db w))))%nat.
Proof.
  intros H.
  destruct (faults w (statements w)) eqn:F0.
  { unfold deleteLink in H. rewrite (bind_throw _ _ _ _ _ (run_statement_fault _ w F0)) in H.
    discriminate. }
  rewrite (deleteLink_run id w F0) in H.
  destruct (faults w (S (statements w))); [discriminate |].
  inversion H; subst. auto.
Qed.

(** X17.  Once [deleteLink] has returned, no link has the id and no click
    refers to it: the per-link summary of the id is the empty one, [GET
    /api/analytics/{id}] answers 404, and the clicks of every other link are
    the ones it had. *)
Theorem deleteLink_then_analytics (id : string) (w w1 : World) (removed : bool) :
  deleteLink id w = (Ok removed, w1) ->
  (removed = true <-> sql_link_by_id id (db w) <> None)
  /\ sql_link_by_id id (db w1) = None
  /\ (forall c, In c (clicks (db w1)) -> Click.link_id c <> id)
  /\ (forall other, other <> id ->
        sql_clicks_by_link other (db w1) = sql_clicks_by_link other (db w))
  /\ ((forall k, (k < 4)%nat -> faults w1 (k + statements w1) = false) ->
      fst (getLinkAnalytics id w1) = Ok empty_analytics)
  /\ (faults w1 (statements w1) = false ->
      fst (link_analytics_GET id w1) = Ok (Json (PFailure "Link not found") 404)).
Proof.
  intros H. apply deleteLink_inv in H. destruct H as (_ & _ & Hw1 & ->).
  assert (Hdb : db w1 = without_link id (db w)) by (rewrite Hw1; reflexivity).
  clear Hw1.
  split; [apply filter_positive_find |].
  split; [rewrite Hdb; unfold sql_link_by_id, without_link; cbn [links];
          apply find_after_delete |].
  split.
  { intros c Hc. rewrite Hdb in Hc. unfold without_link in Hc. cbn [clicks] in Hc.
    apply filter_In in Hc. destruct Hc as [_ Hc]. unfold of_link in Hc.
    destruct (String.eqb_spec (Click.link_id c) id); [discriminate | assumption]. }
  split.
  { intros other Hne. rewrite Hdb. unfold sql_clicks_by_link, without_link. cbn [clicks].
    rewrite (filter_other_after_delete id other _ Hne). reflexivity. }
  split.
  - intros Hf. rewrite (getLinkAnalytics_run id w1 Hf). cbn [fst]. rewrite Hdb.
    unfold sql_clicks_by_link, sql_country_stats, sql_city_stats, sql_daily_stats,
      without_link. cbn [clicks].
    rewrite filter_of_link_after_delete, !filter_after_delete. reflexivity.
  - intros Hf. unfold link_analytics_GET, getLinkById, try_catch.
    rewrite (bind_ok _ _ _ _ _ (run_query_sound _ _ Hf)).
    rewrite Hdb. unfold sql_link_by_id, without_link. cbn [links].
    rewrite find_after_delete. reflexivity.
Qed.

Lemma deleteLink_then_analytics_witness :
  fst (getLinkAnalytics "id-blog"
         (snd (deleteLink "id-blog" (quiet_world visited_database))))
  = Ok empty_analytics.
Proof.
  destruct (deleteLink_then_analytics "id-blog" (quiet_world visited_database)
              (snd (deleteLink "id-blog" (quiet_world visited_database))) true eq_refl)
    as (_ & _ & _ & _ & Hempty & _).
  apply Hempty. intros k _. reflexivity.
Defined.

(** ** The counters and the click rows *)

Lemma with_link_consistent link d :
  consistent d ->
  existsb (has_link_id (Link.id link)) (links d) = false ->
  Link.click_count link = 0%Z ->
  consistent (with_link link d).
Proof.
  intros [Hc Hr] Hfresh Hzero. split.
  - intros l Hl. unfold with_link in *. cbn [links clicks] in *.
    apply in_app_or in Hl. destruct Hl as [Hl | [<- | []]]; [apply Hc; exact Hl |].
    rewrite Hzero.
    assert (E : filter (of_link (Link.id link)) (clicks d) = []).
    { apply filter_none_existsb, existsb_false_forall. intros c Hc'.
      destruct (Hr c Hc') as (l & Hl & Hid).
      pose proof (proj1 (existsb_false_forall _ _) Hfresh l Hl) as Hn.
      unfold has_link_id in Hn. unfold of_link. rewrite <- Hid. exact Hn. }
    rewrite E. reflexivity.
  - intros c Hc'. destruct (Hr c Hc') as (l & Hl & Hid). exists l.
    split; [| exact Hid]. unfold with_link. cbn [links]. apply in_or_app. left. exact Hl.
Qed.

Lemma without_link_consistent id d : consistent d -> consistent (without_link id d).
Proof.
  intros [Hc Hr]. split.
  - intros l Hl. unfold without_link in *. cbn [links clicks] in *.
    apply filter_In in Hl. destruct Hl as [Hl Hn].
    rewrite filter_other_after_delete.
    + apply Hc. exact Hl.
    + intros E. unfold has_link_id in Hn. rewrite E, String.eqb_refl in Hn. discriminate.
  - intros c Hc'. unfold without_link in *. cbn [links clicks] in *.
    apply filter_In in Hc'. destruct Hc' as [Hc' Hn].
    destruct (Hr c Hc') as (l & Hl & Hid). exists l. split; [| exact Hid].
    apply filter_In. split; [exact Hl |].
    unfold has_link_id, of_link in *. rewrite Hid. exact Hn.
Qed.

Lemma visit_consistent d d' linkId click :
  consistent d ->
  (exists l, In l (links d) /\ Link.id l = linkId) ->
  links d' = map (bump_if linkId) (links d) ->
  clicks d' = (clicks d ++ [click])%list ->
  Click.link_id click = linkId ->
  consistent d'.
Proof.
  intros [Hc Hr] (l0 & Hl0 & Hid0) Hlinks Hclicks Hclick. split.
  - intros l' Hl'. rewrite Hlinks in Hl'. apply in_map_iff in Hl'.
    destruct Hl' as (l & <- & Hl). rewrite Hclicks, filter_app, length_app.
    destruct (bump_if_keeps linkId l) as (-> & _). rewrite Nat2Z.inj_add, <- (Hc l Hl).
    unfold bump_if, has_link_id. cbn [filter]. unfold of_link. rewrite Hclick.
    rewrite (String.eqb_sym linkId).
    destruct (String.eqb (Link.id l) linkId); simpl; lia.
  - intros c Hc'. rewrite Hclicks in Hc'. apply in_app_or in Hc'.
    destruct Hc' as [Hc' | [<- | []]].
    + destruct (Hr c Hc') as (l & Hl & Hid). exists (bump_if linkId l).
      split; [rewrite Hlinks; apply in_map; exact Hl |].
      destruct (bump_if_keeps linkId l) as (-> & _). exact Hid.
    + exists (bump_if linkId l0).
      split; [rewrite Hlinks; apply in_map; exact Hl0 |].
      destruct (bump_if_keeps linkId l0) as (-> & _). congruence.
Qed.

(** The database [POST /api/links] leaves, whatever it answers. *)
Lemma links_POST_db P request w r w' :
  links_POST P request w = (r, w') ->
  db w' = db w
  \/ exists link,
       db w' = with_link link (db w)
       /\ existsb (has_link_id (Link.id link)) (links (db w)) = false
       /\ Link.click_count link = 0%Z.
Proof.
  unfold links_POST. destruct (Request.body request) as [body |].
  2: { intros H. inversion H; subst. left; reflexivity. }
  destruct (createLinkSchema_parse P body) as [[name originalUrl] | e] eqn:E.
  2: { unfold try_catch, bind, ret, lift. rewrite E. intros H.
       destruct e; inversion H; subst; left; reflexivity. }
  unfold try_catch. rewrite (bind_ok _ _ w body w) by reflexivity.
  rewrite (bind_ok _ _ w (name, originalUrl) w) by (unfold lift; rewrite E; reflexivity).
  unfold bind at 1. rewrite createLink_draws.
  unfold bind, run_statement, sql_insert_link, query.
  cbn [fst snd db statements faults clock after_draw after_statement].
  destruct (faults w (statements w)).
  { intros H. inversion H; subst. left; reflexivity. }
  destruct (existsb (has_link_id _) (links (db w))) eqn:Hid.
  { intros H. inversion H; subst. left; reflexivity. }
  destruct (existsb (has_short_code _) (links (db w))).
  { intros H. inversion H; subst. left; reflexivity. }
  intros H. right.
  exists (Link.mk (nanoid_chars (entropy w) (drawn w) 21) name originalUrl
                  (nanoid_chars (entropy w) (drawn w + 21) 8) (clock w (statements w)) 0).
  split; [| split; [exact Hid | reflexivity]].
  cbn [fst snd db statements faults clock after_draw after_statement] in H.
  destruct (faults w (S (statements w))); [inversion H; subst; reflexivity |].
  destruct (sql_link_by_id _ _); inversion H; subst; reflexivity.
Qed.

(** The database [DELETE /api/links] leaves when it does not answer 500. *)
Lemma links_DELETE_db request w response w' :
  links_DELETE request w = (Ok response, w') ->
  status_of response <> 500%nat ->
  db w' = db w \/ exists id, db w' = without_link id (db w).
Proof.
  intros H Hs.
  destruct (Request.id_param request) as [id |] eqn:Hid.
  2: { unfold links_DELETE in H. rewrite Hid in H. inversion H; subst. left; reflexivity. }
  destruct (nonempty id) eqn:Hn.
  2: { unfold links_DELETE in H. rewrite Hid, Hn in H. inversion H; subst.
       left; reflexivity. }
  assert (Hne : id <> "") by (intros ->; discriminate).
  destruct (faults w (statements w)) eqn:F0.
  { unfold links_DELETE in H. rewrite Hid, Hn in H.
    rewrite (try_catch_throw _ _ w (SqliteError "SQLITE_ERROR") (after_statement w (db w)))
      in H.
    - inversion H; subst. destruct Hs. reflexivity.
    - apply bind_throw. unfold deleteLink. apply bind_throw.
      apply run_statement_fault. exact F0. }
  rewrite (links_DELETE_run request id w Hid Hne F0) in H.
  destruct (faults w (S (statements w))).
  { inversion H; subst. destruct Hs. reflexivity. }
  right. exists id.
  destruct (0 <? _)%nat; inversion H; subst; reflexivity.
Qed.

(** What a successful [GET /api/analytics/{id}] read. *)
Lemma link_analytics_GET_inv linkId w link analytics w' :
  link_analytics_GET linkId w = (Ok (Json (PLinkAnalytics link analytics) 200), w') ->
  sql_link_by_id linkId (db w) = Some link
  /\ LinkAnalytics.totalClicks analytics
     = length (filter (of_link linkId) (clicks (db w))).
Proof.
  unfold link_analytics_GET, try_catch. intros H.
  destruct (bind (getLinkById linkId) _ w) as [[r | e] w1] eqn:E.
  2: { inversion H. }
  inversion H; subst r w1; clear H.
  apply bind_inv_ok in E. destruct E as (found & w0 & Hfind & E).
  apply run_statement_inv_ok in Hfind. destruct Hfind as (_ & d0 & Hq & ->).
  inversion Hq; subst found d0; clear Hq.
  destruct (sql_link_by_id linkId (db w)) as [l |]; [| inversion E].
  apply bind_inv_ok in E. destruct E as (a & w1 & Hrun & E).
  inversion E; subst; clear E. split; [reflexivity |].
  unfold getLinkAnalytics, getClicksByLinkId in Hrun.
  apply bind_inv_ok in Hrun. destruct Hrun as (rows & w2 & Hrows & Hrun).
  apply run_statement_inv_ok in Hrows. destruct Hrows as (_ & d1 & Hq & ->).
  inversion Hq; subst rows d1; clear Hq.
  repeat (apply bind_inv_ok in Hrun; destruct Hrun as (? & ? & _ & Hrun)).
  inversion Hrun; subst. cbn [LinkAnalytics.totalClicks db after_statement].
  unfold sql_clicks_by_link. apply sort_by_length.
Qed.

(** What a completed [recordClick] wrote, and that one that throws wrote
    nothing when the engine runs its two statements. *)
Lemma recordClick_cases P linkId ip location userAgent referer w r w' :
  faults w (S (statements w)) = false ->
  recordClick P linkId ip location userAgent referer w = (r, w') ->
  db w' = db w
  \/ exists click,
       clicks (db w') = (clicks (db w) ++ [click])%list
       /\ Click.link_id click = linkId
       /\ links (db w') = map (bump_if linkId) (links (db w)).
Proof.
  intros F1 H. destruct r as [[] | e].
  - right. apply recordClick_ok in H. destruct H as ((click & Hc & Hid & _) & Hl).
    exists click. auto.
  - left. revert H.
    destruct (bindable_or_not location) as [[values Hb] | Hnot].
    2: { destruct (unbindable_throws P linkId ip location userAgent referer w Hnot)
           as [e' E]. rewrite E. intros H. inversion H. reflexivity. }
    destruct (bindable_click_arguments linkId ip location userAgent referer _ Hb)
      as (a & b & c & x & y & -> & _).
    rewrite (recordClick_bound P linkId ip location userAgent referer w a b c x y Hb).
    unfold updateLinkClickCount, bind, run_statement.
    destruct (faults w (statements w)); [intros H; inversion H; reflexivity |].
    rewrite sql_insert_click_row.
    destruct (foreign_keys (db w) && negb (existsb (has_link_id linkId) (links (db w))));
      [intros H; inversion H; reflexivity |].
    cbn [statements after_statement faults]. rewrite F1. discriminate.
Qed.

(** The database the tracking handler leaves when the engine runs its first
    three statements. *)
Lemma track_GET_db P request shortCode w :
  (forall k, (k < 3)%nat -> faults w (k + statements w) = false) ->
  db (snd (track_GET P request shortCode w)) = db w
  \/ exists link click,
       sql_link_by_short_code shortCode (db w) = Some link
       /\ clicks (db (snd (track_GET P request shortCode w)))
          = (clicks (db w) ++ [click])%list
       /\ Click.link_id click = Link.id link
       /\ links (db (snd (track_GET P request shortCode w)))
          = map (bump_if (Link.id link)) (links (db w)).
Proof.
  intros Hf.
  assert (F0 := Hf 0%nat ltac:(lia)). assert (F1 := Hf 1%nat ltac:(lia)).
  assert (F2 := Hf 2%nat ltac:(lia)). cbn [Nat.add] in F0, F1, F2.
  assert (Hcatch : forall e w1, db (snd (track_catch P shortCode e w1)) = db w1).
  { intros e w1. unfold track_catch, console_log. unfold bind at 1.
    destruct (track_fallback_cases P shortCode (logged w1 "Error tracking click:" e))
      as (r & Hfb & _).
    rewrite (bind_ok _ _ _ _ _ Hfb). destruct r; reflexivity. }
  unfold track_GET, try_catch.
  destruct (track_try P request shortCode w) as [[response | e] w1] eqn:E.
  - cbn [snd]. unfold track_try, getLinkByShortCode in E.
    rewrite (bind_ok _ _ _ _ _ (run_query_sound _ w F0)) in E.
    destruct (sql_link_by_short_code shortCode (db w)) as [link |] eqn:Hlink.
    2: { inversion E; subst. left; reflexivity. }
    right. cbv zeta in E.
    apply bind_inv_ok in E. destruct E as (location & w0 & Hloc & E).
    apply bind_inv_ok in E. destruct E as ([] & w2 & Hrec & E).
    apply redirect_inv_ok in E. destruct E as (_ & -> & _).
    destruct (getLocationFromIP_total P
                (string_or (getClientIP (Request.headers request)) "127.0.0.1")
                (after_statement w (db w))) as (l' & w0' & Hloc' & Hdb & _).
    rewrite Hloc in Hloc'. inversion Hloc'; subst l' w0'.
    apply recordClick_ok in Hrec. destruct Hrec as ((click & Hc & Hid & _) & Hl).
    rewrite Hdb in Hc, Hl. exists link, click. auto.
  - change (snd (let (r, w') := (Throw e, w1) in _))
      with (snd (track_catch P shortCode e w1)).
    rewrite Hcatch.
    unfold track_try, getLinkByShortCode in E.
    rewrite (bind_ok _ _ _ _ _ (run_query_sound _ w F0)) in E.
    destruct (sql_link_by_short_code shortCode (db w)) as [link |] eqn:Hlink.
    2: { inversion E. }
    cbv zeta in E.
    destruct (getLocationFromIP_total P
                (string_or (getClientIP (Request.headers request)) "127.0.0.1")
                (after_statement w (db w)))
      as (location & w0 & Hloc & Hdb & Hfa & _ & Hst).
    rewrite (bind_ok _ _ _ _ _ Hloc) in E.
    unfold bind at 1 in E.
    destruct (recordClick _ _ _ _ _ _ w0) as [r w2] eqn:Hrec.
    assert (G1 : faults w0 (S (statements w0)) = false) by (rewrite Hfa, Hst; exact F2).
    destruct (recordClick_cases _ _ _ _ _ _ _ _ _ G1 Hrec)
      as [Hsame | (click & Hc & Hid & Hl)].
    + left. destruct r as [[] | e'].
      * unfold redirect in E.
        destruct (URL_parse P _); inversion E; subst; rewrite Hsame; exact Hdb.
      * inversion E; subst. rewrite Hsame. exact Hdb.
    + right. exists link, click. rewrite Hdb in Hc, Hl.
      destruct r as [[] | e'].
      * unfold redirect in E. destruct (URL_parse P _); inversion E; subst. auto.
      * inversion E; subst. auto.
Qed.

(** X18.  In a database where the [click_count] of every link is the number
    of its click rows and every click refers to a link, that stays so after
    [POST /api/links] whatever it answers, after [DELETE /api/links] unless it
    answers 500, and after a visit when the engine runs the three statements
    of the tracking handler, whatever the network answers.  In such a
    database the [totalClicks] that [GET /api/analytics/{id}] reports is the
    [click_count] of the link it reports. *)
Theorem handlers_keep_counters (P : Platform) (request : Request.t)
    (shortCode linkId : string) (w : World) :
  consistent (db w) ->
  consistent (db (snd (links_POST P request w)))
  /\ (forall response w',
        links_DELETE request w = (Ok response, w') ->
        status_of response <> 500%nat ->
        consistent (db w'))
  /\ ((forall k, (k < 3)%nat -> faults w (k + statements w) = false) ->
      consistent (db (snd (track_GET P request shortCode w))))
  /\ (forall link analytics w',
        link_analytics_GET linkId w
        = (Ok (Json (PLinkAnalytics link analytics) 200), w') ->
        Link.click_count link = Z.of_nat (LinkAnalytics.totalClicks analytics)).
Proof.
  intros Hc. split; [| split; [| split]].
  - destruct (links_POST_db P request w _ _ (surjective_pairing _))
      as [-> | (link & -> & Hfresh & Hzero)];
      [exact Hc | apply with_link_consistent; assumption].
  - intros response w' H Hs.
    destruct (links_DELETE_db request w response w' H Hs) as [-> | (id & ->)];
      [exact Hc | apply without_link_consistent; exact Hc].
  - intros Hf.
    destruct (track_GET_db P request shortCode w Hf)
      as [-> | (link & click & Hlink & Hclicks & Hid & Hlinks)]; [exact Hc |].
    apply (visit_consistent (db w) _ (Link.id link) click Hc); try assumption.
    exists link. split; [| reflexivity]. apply find_some in Hlink. apply Hlink.
  - intros link analytics w' H.
    apply link_analytics_GET_inv in H. destruct H as [Hfind ->].
    apply find_some in Hfind. destruct Hfind as [Hin Hid].
    unfold has_link_id in Hid. apply String.eqb_eq in Hid. subst linkId.
    apply Hc. exact Hin.
Qed.

Lemma handlers_keep_counters_witness :
  consistent (db (snd (track_GET basic_platform plain_request "uuuuuuuu"
                         (quiet_world visited_database)))).
Proof.
  assert (Hc : consistent visited_database).
  { split.
    - intros l [<- | []]. reflexivity.
    - intros c [<- | []]. exists (bump blog_link). split; [left |]; reflexivity. }
  destruct (handlers_keep_counters basic_platform plain_request "uuuuuuuu" "id-blog"
              (quiet_world visited_database) Hc) as (_ & _ & Htrack & _).
  apply Htrack. intros k _. reflexivity.
Defined.

(** ** A visit whose counter update fails *)

Lemma track_catch_db P shortCode e w : db (snd (track_catch P shortCode e w)) = db w.
Proof.
  unfold track_catch, console_log. unfold bind at 1.
  destruct (track_fallback_cases P shortCode (logged w "Error tracking click:" e))
    as (r & Hfb & _).
  rewrite (bind_ok _ _ _ _ _ Hfb). destruct r; reflexivity.
Qed.

Lemma recordClick_update_fault P linkId ip location userAgent referer w :
  bindable location ->
  existsb (has_link_id linkId) (links (db w)) = true ->
  faults w (statements w) = false ->
  faults w (S (statements w)) = true ->
  exists click w',
    recordClick P linkId ip location userAgent referer w
    = (Throw (SqliteError "SQLITE_ERROR"), w')
    /\ clicks (db w') = (clicks (db w) ++ [click])%list
    /\ Click.link_id click = linkId
    /\ links (db w') = links (db w)
    /\ faults w' = faults w
    /\ statements w' = S (S (statements w)).
Proof.
  intros [values Hb] Hlink F0 F1.
  destruct (bindable_click_arguments linkId ip location userAgent referer _ Hb)
    as (a & b & c & x & y & -> & _).
  rewrite (recordClick_bound P linkId ip location userAgent referer w a b c x y Hb).
  unfold updateLinkClickCount, bind, run_statement.
  rewrite F0, sql_insert_click_row, Hlink, andb_false_r.
  cbn [statements after_statement faults]. rewrite F1.
  eexists. eexists. split; [reflexivity |]. repeat split.
Qed.

(** X19.  The insert of the click and the update of the counter are two
    statements, not one transaction: when the services answer with plain JSON
    (so that the location binds), the engine runs the insert and fails the
    update, the click row stays and the counter of the link does not move, so
    that a [click_count] that was the number of click rows no longer is; the
    visitor is still redirected, by the fallback, when the engine runs its
    look-up and the destination parses. *)
Theorem track_GET_counter_lags (P : Platform) (request : Request.t)
    (shortCode : string) (w : World) (link : Link.t) :
  sql_link_by_short_code shortCode (db w) = Some link ->
  faults w (statements w) = false ->
  faults w (S (statements w)) = false ->
  faults w (S (S (statements w))) = true ->
  plain_network w ->
  exists click,
    clicks (db (snd (track_GET P request shortCode w))) = (clicks (db w) ++ [click])%list
    /\ Click.link_id click = Link.id link
    /\ links (db (snd (track_GET P request shortCode w))) = links (db w)
    /\ (counters_agree (db w) ->
        ~ counters_agree (db (snd (track_GET P request shortCode w))))
    /\ (faults w (S (S (S (statements w)))) = false ->
        URL_parse P (Link.original_url link) <> None ->
        fst (track_GET P request shortCode w)
        = Ok (Redirect (Link.original_url link) 302)).
Proof.
  intros Hlink F0 F1 F2 Hplain.
  destruct (getLocationFromIP_total P
              (string_or (getClientIP (Request.headers request)) "127.0.0.1")
              (after_statement w (db w)))
    as (location & w0 & Hloc & Hdb & Hfa & _ & Hst).
  assert (Hb : bindable location).
  { eapply plain_location_bindable; [| exact Hloc]. exact Hplain. }
  assert (Hex : existsb (has_link_id (Link.id link)) (links (db w0)) = true).
  { rewrite Hdb. apply existsb_exists. exists link. apply find_some in Hlink.
    split; [apply Hlink | apply has_link_id_refl]. }
  destruct (recordClick_update_fault P (Link.id link)
              (Some (string_or (getClientIP (Request.headers request)) "127.0.0.1"))
              location (headers_get (Request.headers request) "user-agent")
              (sanitizeReferer P (headers_get (Request.headers request) "referer")) w0
              Hb Hex)
    as (click & w1 & Hrec & Hclicks & Hid & Hlinks & Hfa1 & Hst1).
  { rewrite Hfa, Hst. exact F1. }
  { rewrite Hfa, Hst. exact F2. }
  assert (E : track_try P request shortCode w = (Throw (SqliteError "SQLITE_ERROR"), w1)).
  { unfold track_try, getLinkByShortCode.
    rewrite (bind_ok _ _ _ _ _ (run_query_sound _ w F0)). rewrite Hlink. cbv zeta.
    rewrite (bind_ok _ _ _ _ _ Hloc). apply (bind_throw _ _ _ _ _ Hrec). }
  rewrite Hdb in Hclicks, Hlinks. cbn [db after_statement] in Hclicks, Hlinks.
  unfold track_GET. rewrite (try_catch_throw _ _ _ _ _ E).
  rewrite track_catch_db.
  exists click. split; [exact Hclicks |]. split; [exact Hid |]. split; [exact Hlinks |].
  split.
  - intros Hc Hc'.
    assert (Hin : In link (links (db w))) by (apply find_some in Hlink; apply Hlink).
    pose proof (Hc link Hin) as H1.
    assert (Hin' : In link (links (db w1))) by (rewrite Hlinks; exact Hin).
    pose proof (Hc' link Hin') as H2.
    rewrite Hclicks, filter_app, length_app in H2. cbn [filter] in H2.
    unfold of_link at 2 in H2. rewrite Hid, String.eqb_refl in H2. simpl in H2. lia.
  - intros F3 Hurl. unfold track_catch, console_log. unfold bind at 1.
    destruct (track_fallback_cases P shortCode
                (logged w1 "Error tracking click:" (SqliteError "SQLITE_ERROR")))
      as (r & Hfb & Hcases).
    rewrite (bind_ok _ _ _ _ _ Hfb).
    assert (Hfind : sql_link_by_short_code shortCode (db w1) = Some link).
    { unfold sql_link_by_short_code in *. rewrite Hlinks. exact Hlink. }
    cbn [db logged faults statements] in Hcases.
    destruct Hcases as [(link' & _ & Hl' & _ & ->) | (-> & [Hf | [Hn | (link' & Hl' & Hu)]])].
    + rewrite Hfind in Hl'. inversion Hl'; subst link'. reflexivity.
    + rewrite Hfa1, Hst1, Hfa, Hst in Hf. cbn [faults statements after_statement] in Hf.
      congruence.
    + congruence.
    + rewrite Hfind in Hl'. inversion Hl'; subst link'. contradiction.
Qed.

Lemma track_GET_counter_lags_witness :
  ~ counters_agree
      (db (snd (track_GET basic_platform plain_request "uuuuuuuu"
                  (failing_update_world blog_database)))).
Proof.
  assert (Hplain : plain_network (failing_update_world blog_database)).
  { intros url ok data key H. discriminate H. }
  destruct (track_GET_counter_lags basic_platform plain_request "uuuuuuuu"
              (failing_update_world blog_database) blog_link eq_refl eq_refl eq_refl
              eq_refl Hplain) as (click & _ & _ & _ & Hlag & _).
  apply Hlag. intros l [<- | []]. reflexivity.
Defined.

(** ** A visit, then the summaries *)

(** [getGlobalAnalytics] when the engine runs its four statements. *)
Lemma getGlobalAnalytics_run w :
  (forall k, (k < 4)%nat -> faults w (k + statements w) = false) ->
  getGlobalAnalytics w
  = (Ok (GlobalAnalytics.mk
           (length (links (db w))) (length (clicks (db w)))
           (sql_recent_clicks (db w))
           (sql_top_links (clock w (3 + statements w)) (db w))),
     after_queries 4 w).
Proof.
  intros Hf.
  assert (F0 := Hf 0%nat ltac:(lia)). assert (F1 := Hf 1%nat ltac:(lia)).
  assert (F2 := Hf 2%nat ltac:(lia)). assert (F3 := Hf 3%nat ltac:(lia)).
  unfold getGlobalAnalytics.
  rewrite (bind_ok _ _ _ _ _ (run_query_sound _ w F0)).
  rewrite (bind_ok _ _ _ _ _ (run_query_sound _ (after_statement w (db w)) F1)).
  rewrite (bind_ok _ _ _ _ _
             (run_query_sound _ (after_statement (after_statement w (db w)) (db w)) F2)).
  rewrite (bind_ok _ _ _ _ _
             (run_timed_query_sound sql_top_links
                (after_statement (after_statement (after_statement w (db w)) (db w)) (db w))
                F3)).
  reflexivity.
Qed.

(** A visit the [try] block completes. *)
Lemma visit_recorded P request shortCode w link :
  sql_link_by_short_code shortCode (db w) = Some link ->
  (forall k, (k < 3)%nat -> faults w (k + statements w) = false) ->
  URL_parse P (Link.original_url link) <> None ->
  plain_network w ->
  exists w' click,
    track_GET P request shortCode w = (Ok (Redirect (Link.original_url link) 302), w')
    /\ clicks (db w') = (clicks (db w) ++ [click])%list
    /\ Click.link_id click = Link.id link
    /\ links (db w') = map (bump_if (Link.id link)) (links (db w))
    /\ same_environment w w'.
Proof.
  intros Hlink Hf Hurl Hplain.
  destruct (track_try_completes P request shortCode w link Hlink Hf Hurl) as [w' E].
  { intros location w1 Hloc. eapply plain_location_bindable; [| exact Hloc].
    exact Hplain. }
  destruct (track_try_inv _ _ _ _ _ _ _ Hlink E) as (location & w1 & Hloc & Hrec & _).
  destruct (getLocationFromIP_total P
              (string_or (getClientIP (Request.headers request)) "127.0.0.1")
              (after_statement w (db w))) as (l' & w1' & Hloc' & Hdb & _).
  rewrite Hloc in Hloc'. inversion Hloc'; subst l' w1'.
  apply recordClick_ok in Hrec. destruct Hrec as ((click & Hclicks & Hid & _) & Hlinks).
  rewrite Hdb in Hclicks, Hlinks. simpl in Hclicks, Hlinks.
  assert (Hrun : track_GET P request shortCode w
                 = (Ok (Redirect (Link.original_url link) 302), w'))
    by (unfold track_GET; apply (try_catch_ok _ _ _ _ _ E)).
  exists w', click. split; [exact Hrun |].
  split; [exact Hclicks |]. split; [exact Hid |]. split; [exact Hlinks |].
  destruct (handlers_same_environment P request shortCode "" w) as (_ & _ & _ & _ & _ & Hs).
  rewrite Hrun in Hs. exact Hs.
Qed.

(** X20.  When the engine runs every statement and the services answer with
    plain JSON, a visit to a link whose destination parses is redirected, and
    the summaries asked afterwards show it: [totalClicks] of the per-link
    summary is one more for the visited link and as before for every other id,
    and the global summary has one more click and as many links. *)
Theorem visit_shows_in_summaries (P : Platform) (request : Request.t)
    (shortCode : string) (w : World) (link : Link.t) :
  engine_sound w ->
  plain_network w ->
  sql_link_by_short_code shortCode (db w) = Some link ->
  URL_parse P (Link.original_url link) <> None ->
  exists w',
    track_GET P request shortCode w = (Ok (Redirect (Link.original_url link) 302), w')
    /\ (forall id,
         exists before after,
           fst (getLinkAnalytics id w) = Ok before
           /\ fst (getLinkAnalytics id w') = Ok after
           /\ LinkAnalytics.totalClicks after
              = (LinkAnalytics.totalClicks before
                 + if String.eqb id (Link.id link) then 1 else 0)%nat)
    /\ (exists before after,
          fst (getGlobalAnalytics w) = Ok before
          /\ fst (getGlobalAnalytics w') = Ok after
          /\ GlobalAnalytics.totalClicks after = S (GlobalAnalytics.totalClicks before)
          /\ GlobalAnalytics.totalLinks after = GlobalAnalytics.totalLinks before).
Proof.
  intros Hsound Hplain Hlink Hurl.
  destruct (visit_recorded P request shortCode w link Hlink (fun k _ => Hsound _) Hurl Hplain)
    as (w' & click & Hrun & Hclicks & Hid & Hlinks & (Hfa & _)).
  assert (Hsound' : engine_sound w') by (intros n; rewrite Hfa; apply Hsound).
  exists w'. split; [exact Hrun |]. split.
  - intros id. eexists. eexists.
    rewrite (getLinkAnalytics_run id w (fun k _ => Hsound _)).
    rewrite (getLinkAnalytics_run id w' (fun k _ => Hsound' _)).
    split; [reflexivity |]. split; [reflexivity |].
    cbn [LinkAnalytics.totalClicks]. unfold sql_clicks_by_link.
    rewrite !sort_by_length, Hclicks, filter_app, length_app. cbn [filter].
    unfold of_link at 2. rewrite Hid, (String.eqb_sym id).
    destruct (String.eqb (Link.id link) id); reflexivity.
  - eexists. eexists.
    rewrite (getGlobalAnalytics_run w (fun k _ => Hsound _)).
    rewrite (getGlobalAnalytics_run w' (fun k _ => Hsound' _)).
    split; [reflexivity |]. split; [reflexivity |].
    cbn [GlobalAnalytics.totalClicks GlobalAnalytics.totalLinks].
    rewrite Hclicks, Hlinks, length_app, length_map. simpl. split; lia.
Qed.

Lemma visit_shows_in_summaries_witness :
  exists w',
    track_GET basic_platform plain_request "uuuuuuuu" (quiet_world visited_database)
    = (Ok (Redirect "https://example.com" 302), w')
    /\ exists summary,
         fst (getGlobalAnalytics w') = Ok summary
         /\ GlobalAnalytics.totalClicks summary = 2%nat.
Proof.
  assert (Hplain : plain_network (quiet_world visited_database)).
  { intros url ok data key H. discriminate H. }
  assert (Hurl : URL_parse basic_platform (Link.original_url (bump blog_link)) <> None)
    by discriminate.
  destruct (visit_shows_in_summaries basic_platform plain_request "uuuuuuuu"
              (quiet_world visited_database) (bump blog_link) (fun _ => eq_refl) Hplain
              eq_refl Hurl)
    as (w' & Hrun & _ & (before & after & Hb & Ha & Ht & _)).
  exists w'. split; [exact Hrun |]. exists after. split; [exact Ha |].
  rewrite Ht. inversion Hb. reflexivity.
Defined.

(** ** The life of a link *)

Lemma find_link_id_map (f : Link.t -> Link.t) i ls :
  (forall l, Link.id (f l) = Link.id l) ->
  find (has_link_id i) (map f ls) = option_map f (find (has_link_id i) ls).
Proof.
  intros Hf. induction ls as [| l ls IH]; simpl; [reflexivity |].
  unfold has_link_id at 1. rewrite Hf. fold (has_link_id i l).
  destruct (has_link_id i l); [reflexivity | exact IH].
Qed.

Lemma find_none_existsb {A : Type} (p : A -> bool) l :
  existsb p l = false -> find p l = None.
Proof.
  induction l as [| x l IH]; simpl; [reflexivity |].
  destruct (p x); simpl; [discriminate | exact IH].
Qed.

Lemma filter_all {A : Type} (p : A -> bool) l :
  (forall x, In x l -> p x = true) -> filter p l = l.
Proof.
  induction l as [| x l IH]; simpl; intros H; [reflexivity |].
  rewrite (H x (or_introl eq_refl)), IH; [reflexivity |].
  intros y Hy. apply H. right. exact Hy.
Qed.

(** No click refers to an id that no link has. *)
Lemma no_orphans d id c :
  references_ok d ->
  existsb (has_link_id id) (links d) = false ->
  In c (clicks d) ->
  of_link id c = false.
Proof.
  intros Hr Hfresh Hc. destruct (Hr c Hc) as (l & Hl & Hid).
  pose proof (proj1 (existsb_false_forall _ _) Hfresh l Hl) as Hn.
  unfold has_link_id in Hn. unfold of_link. rewrite <- Hid. exact Hn.
Qed.

(** Removing a link that was added and visited gives the table back. *)
Lemma links_back id link ls :
  existsb (has_link_id id) ls = false ->
  Link.id link = id ->
  filter (fun l => negb (has_link_id id l)) (map (bump_if id) (ls ++ [link])) = ls.
Proof.
  intros Hfresh Hid. induction ls as [| l ls IH]; simpl.
  - subst id. rewrite bump_if_same. unfold has_link_id. simpl.
    rewrite String.eqb_refl. reflexivity.
  - simpl in Hfresh. apply orb_false_iff in Hfresh. destruct Hfresh as [Hl Hls].
    assert (E : bump_if id l = l) by (unfold bump_if; rewrite Hl; reflexivity).
    rewrite E, Hl. simpl. rewrite (IH Hls). reflexivity.
Qed.

Lemma link_analytics_GET_found linkId w link :
  (forall k, (k < 5)%nat -> faults w (k + statements w) = false) ->
  sql_link_by_id linkId (db w) = Some link ->
  link_analytics_GET linkId w
  = (Ok (Json (PLinkAnalytics link
                 (LinkAnalytics.mk
                    (length (sql_clicks_by_link linkId (db w)))
                    (sql_clicks_by_link linkId (db w))
                    (sql_country_stats linkId (db w))
                    (sql_city_stats linkId (db w))
                    (sql_daily_stats linkId (clock w (4 + statements w)) (db w))))
               200),
     after_queries 4 (after_statement w (db w))).
Proof.
  intros Hf Hlink. unfold link_analytics_GET, getLinkById. apply try_catch_ok.
  rewrite (bind_ok _ _ _ _ _ (run_query_sound _ w (Hf 0%nat ltac:(lia)))).
  rewrite Hlink.
  assert (Hf' : forall k, (k < 4)%nat ->
                  faults (after_statement w (db w))
                         (k + statements (after_statement w (db w))) = false).
  { intros k Hk. cbn [faults statements after_statement].
    rewrite Nat.add_succ_r. apply (Hf (S k)). lia. }
  rewrite (bind_ok _ _ _ _ _ (getLinkAnalytics_run linkId _ Hf')).
  cbn [db clock statements after_statement]. rewrite Nat.add_succ_r. reflexivity.
Qed.

Lemma link_analytics_GET_missing linkId w :
  faults w (statements w) = false ->
  sql_link_by_id linkId (db w) = None ->
  link_analytics_GET linkId w
  = (Ok (Json (PFailure "Link not found") 404), after_statement w (db w)).
Proof.
  intros Hf Hnone. unfold link_analytics_GET, getLinkById. apply try_catch_ok.
  rewrite (bind_ok _ _ _ _ _ (run_query_sound _ w Hf)). rewrite Hnone. reflexivity.
Qed.

Lemma track_GET_missing P request shortCode w :
  faults w (statements w) = false ->
  sql_link_by_short_code shortCode (db w) = None ->
  track_GET P request shortCode w
  = (Ok (Json (PError "Link not found") 404), after_statement w (db w)).
Proof.
  intros Hf Hnone. unfold track_GET, track_try, getLinkByShortCode. apply try_catch_ok.
  rewrite (bind_ok _ _ _ _ _ (run_query_sound _ w Hf)). rewrite Hnone. reflexivity.
Qed.

(** X21.  The life of a link, with the engine running every statement and
    the services answering with plain JSON, in a database where every click
    refers to a link.  A valid payload whose generated
    id and short code are free creates the link, and the [trackingUrl] of the
    answer is what [generateTrackingUrl] builds from the short code with the
    origin of the request as its base; a visit of the short code is
    redirected to the destination; the per-link summary then reports the link
    with a counter of 1 and one click; deleting the link answers 200, after
    which the summary answers 404 and a visit of the short code answers 404;
    and the two tables are what they were before the link was created. *)
Theorem link_lifecycle (P : Platform) (create visit : Request.t)
    (window_origin : option string) (w : World) (body : JsValue)
    (name originalUrl : string) :
  engine_sound w ->
  plain_network w ->
  references_ok (db w) ->
  Request.body create = Some body ->
  valid_payload P body name originalUrl ->
  let id := nanoid_chars (entropy w) (drawn w) 21 in
  let shortCode := nanoid_chars (entropy w) (drawn w + 21) 8 in
  let link := Link.mk id name originalUrl shortCode (clock w (statements w)) 0 in
  collides id shortCode (db w) = false ->
  exists w1 w2 w3 w4 w5 w6 analytics,
    links_POST P create w
    = (Ok (Json (PCreated link (Request.origin create ++ "/track/" ++ shortCode)) 201), w1)
    /\ (Request.origin create <> "" ->
        generateTrackingUrl window_origin shortCode (Some (Request.origin create))
        = Request.origin create ++ "/track/" ++ shortCode)
    /\ track_GET P visit shortCode w1 = (Ok (Redirect originalUrl 302), w2)
    /\ link_analytics_GET id w2
       = (Ok (Json (PLinkAnalytics (bump link) analytics) 200), w3)
    /\ LinkAnalytics.totalClicks analytics = 1%nat
    /\ links_DELETE (delete_request id) w3 = (Ok (Json PSuccess 200), w4)
    /\ link_analytics_GET id w4 = (Ok (Json (PFailure "Link not found") 404), w5)
    /\ track_GET P visit shortCode w5 = (Ok (Json (PError "Link not found") 404), w6)
    /\ links (db w6) = links (db w)
    /\ clicks (db w6) = clicks (db w).
Proof.
  intros Hsound Hplain Href Hbody Hvalid id shortCode link Hfresh.
  pose proof (createLinkSchema_parse_valid _ _ _ _ Hvalid) as Hparse.
  assert (Hurl : URL_parse P originalUrl <> None).
  { destruct Hvalid as (fields & _ & _ & _ & _ & H). exact H. }
  pose proof (links_POST_fresh P create w body name originalUrl Hbody Hparse
                (Hsound _) (Hsound _) Hfresh) as Hpost.
  unfold collides in Hfresh. apply orb_false_iff in Hfresh. destruct Hfresh as [Hfid Hfcode].
  set (w1 := after_statement
               (after_statement (after_draw (after_draw w 21) 8) (with_link link (db w)))
               (with_link link (db w))) in *.
  (* the visit *)
  assert (Hlook : sql_link_by_short_code shortCode (db w1) = Some link).
  { apply (find_app_fresh (has_short_code shortCode) (links (db w)) link Hfcode).
    apply String.eqb_refl. }
  destruct (visit_recorded P visit shortCode w1 link Hlook (fun k _ => Hsound _) Hurl Hplain)
    as (w2 & click & Hrun2 & Hclicks2 & Hid2 & Hlinks2 & (Hfa2 & _)).
  cbn [db w1 after_statement with_link links clicks] in Hclicks2, Hlinks2.
  change (Link.id link) with id in Hid2, Hlinks2.
  assert (Hsound2 : engine_sound w2) by (intros n; rewrite Hfa2; apply Hsound).
  (* the summary of the link *)
  assert (Hfind2 : sql_link_by_id id (db w2) = Some (bump link)).
  { unfold sql_link_by_id. rewrite Hlinks2.
    rewrite find_link_id_map by (intro l; apply bump_if_keeps).
    rewrite (find_app_fresh (has_link_id id) (links (db w)) link Hfid (String.eqb_refl id)).
    cbn [option_map]. exact (f_equal Some (bump_if_same link)). }
  pose proof (link_analytics_GET_found id w2 (bump link) (fun k _ => Hsound2 _) Hfind2)
    as Hrun3.
  set (w3 := after_queries 4 (after_statement w2 (db w2))) in *.
  assert (Hnone : filter (of_link id) (clicks (db w)) = []).
  { apply filter_none_existsb, existsb_false_forall. intros c Hc.
    exact (no_orphans (db w) id c Href Hfid Hc). }
  assert (Hsound3 : engine_sound w3) by (intros n; apply Hsound2).
  (* the deletion *)
  assert (Hne : id <> "").
  { intros E. pose proof (nanoid_chars_length (entropy w) (drawn w) 21) as L.
    fold id in L. rewrite E in L. discriminate L. }
  pose proof (links_DELETE_run (delete_request id) id w3 eq_refl Hne (Hsound3 _)) as Hrun4.
  cbv zeta in Hrun4. rewrite (Hsound3 (S (statements w3))) in Hrun4.
  assert (Hpos : (0 <? length (filter (has_link_id id) (links (db w3))))%nat = true).
  { apply filter_positive_find. change (db w3) with (db w2).
    fold (sql_link_by_id id (db w2)). rewrite Hfind2. discriminate. }
  rewrite Hpos in Hrun4.
  set (w4 := after_statement (after_statement w3 (sql_delete_clicks id (db w3)))
                             (without_link id (db w3))) in *.
  assert (Hsound4 : engine_sound w4) by (intros n; apply Hsound3).
  assert (Hlinks4 : links (db w4) = links (db w)).
  { change (links (db w4))
      with (filter (fun l => negb (has_link_id id l)) (links (db w2))).
    rewrite Hlinks2. apply links_back; [exact Hfid | reflexivity]. }
  assert (Hclicks4 : clicks (db w4) = clicks (db w)).
  { change (clicks (db w4))
      with (filter (fun c => negb (of_link id c)) (clicks (db w2))).
    rewrite Hclicks2, filter_app. cbn [filter]. unfold of_link at 2.
    rewrite Hid2, String.eqb_refl. simpl. rewrite app_nil_r.
    apply filter_all. intros c Hc.
    rewrite (no_orphans (db w) id c Href Hfid Hc). reflexivity. }
  (* asking and visiting again *)
  assert (Hfind4 : sql_link_by_id id (db w4) = None).
  { unfold sql_link_by_id. rewrite Hlinks4. apply find_none_existsb. exact Hfid. }
  pose proof (link_analytics_GET_missing id w4 (Hsound4 _) Hfind4) as Hrun5.
  set (w5 := after_statement w4 (db w4)) in *.
  assert (Hlook5 : sql_link_by_short_code shortCode (db w5) = None).
  { unfold sql_link_by_short_code. change (db w5) with (db w4). rewrite Hlinks4.
    apply find_none_existsb. exact Hfcode. }
  pose proof (track_GET_missing P visit shortCode w5 (Hsound4 _) Hlook5) as Hrun6.
  exists w1, w2, w3, w4, w5, (after_statement w5 (db w5)).
  eexists.
  split; [exact Hpost |].
  split.
  { intros Ho. unfold generateTrackingUrl, string_or.
    destruct (Request.origin create); [congruence | reflexivity]. }
  split; [exact Hrun2 |].
  split; [exact Hrun3 |].
  split.
  { cbn [LinkAnalytics.totalClicks]. unfold sql_clicks_by_link.
    rewrite sort_by_length, Hclicks2, filter_app, Hnone. cbn [filter app].
    unfold of_link. rewrite Hid2, String.eqb_refl. reflexivity. }
  split; [exact Hrun4 |].
  split; [exact Hrun5 |].
  split; [exact Hrun6 |].
  split; [exact Hlinks4 | exact Hclicks4].
Qed.

Lemma link_lifecycle_witness :
  exists w5 w6,
    track_GET basic_platform plain_request "uuuuuuuu" w5
    = (Ok (Json (PError "Link not found") 404), w6)
    /\ links (db w6) = [].
Proof.
  assert (Hplain : plain_network (quiet_world empty_database)).
  { intros url ok data key H. discriminate H. }
  assert (Href : references_ok (db (quiet_world empty_database))).
  { intros c []. }
  assert (Hvalid : valid_payload basic_platform blog_payload "Blog" "https://example.com").
  { exists [("name", JStr "Blog"); ("originalUrl", JStr "https://example.com")].
    split; [reflexivity |]. split; [reflexivity |]. split; [simpl; lia |].
    split; [reflexivity | discriminate]. }
  destruct (link_lifecycle basic_platform (post_request blog_payload) plain_request None
              (quiet_world empty_database) blog_payload "Blog" "https://example.com"
              (fun _ => eq_refl) Hplain Href eq_refl Hvalid eq_refl)
    as (w1 & w2 & w3 & w4 & w5 & w6 & analytics & _ & _ & _ & _ & _ & _ & _ & H6 & Hl & _).
  exists w5, w6. split; [exact H6 | exact Hl].
Defined.
